(** * Jack Brito GPT: the call gateway and the terminal session stores

    A shallow embedding of the TypeScript sources

    - [services/geminiService] (dataUriToBase64, retryOperation, the
      simulated capabilities, sendMessageToGemini),
    - [components/RNTRenderer], [components/TelnetRenderer],
      [components/JuliaRenderer], [components/CRenderer],
      [components/FrameworkRenderer], [components/Message],
    - [hooks/useChatHistory],

    together with the properties the specification states about them and
    further properties of the code.

    Conventions.  A JavaScript string is a [string]: every [ascii] stands for
    one code unit in the range 0..255 (Latin-1); code units above 255 are
    outside the model.  A promise is modelled by what it settles to.  The
    external generation service and the builtin [JSON.parse] are not part of
    this repository: the first is a script of outcomes, the second a section
    variable. *)

From Stdlib Require Import String Ascii List ZArith Lia Bool Arith Sorted.
From Stdlib Require Import DecimalString DecimalNat.
Import ListNotations.
Open Scope string_scope.

(* ================================================================= *)
(** ** JavaScript strings *)

Module JsString.

Definition nl : string := String (ascii_of_nat 10) EmptyString.

(** [String.prototype.toLowerCase] on one Latin-1 code unit: A-Z and the
    accented capitals U+00C0..U+00DE (the multiplication sign U+00D7 apart)
    move 32 places up. *)
Definition lower_char (c : ascii) : ascii :=
  let n := nat_of_ascii c in
  if (((65 <=? n) && (n <=? 90))
      || ((192 <=? n) && (n <=? 222) && negb (n =? 215)))%nat
  then ascii_of_nat (n + 32) else c.

Fixpoint toLowerCase (s : string) : string :=
  match s with
  | EmptyString => EmptyString
  | String c s' => String (lower_char c) (toLowerCase s')
  end.

(** [s.startsWith(p)], returning what follows the prefix. *)
Fixpoint strip_prefix (p s : string) : option string :=
  match p, s with
  | EmptyString, _ => Some s
  | String a p', String b s' =>
      if Ascii.eqb a b then strip_prefix p' s' else None
  | String _ _, EmptyString => None
  end.

(** As [strip_prefix], for a lower-case pattern matched without regard to
    case (the [i] flag of a regular expression over ASCII letters). *)
Fixpoint strip_prefix_ci (p s : string) : option string :=
  match p, s with
  | EmptyString, _ => Some s
  | String a p', String b s' =>
      if Ascii.eqb a (lower_char b) then strip_prefix_ci p' s' else None
  | String _ _, EmptyString => None
  end.

(** The leftmost occurrence of [needle] in [s]: what is before it and what
    is after it. *)
Fixpoint split_on (needle s : string) : option (string * string) :=
  match strip_prefix needle s with
  | Some rest => Some (EmptyString, rest)
  | None =>
      match s with
      | EmptyString => None
      | String c s' =>
          match split_on needle s' with
          | Some (before, rest) => Some (String c before, rest)
          | None => None
          end
      end
  end.

(** [s.includes(needle)]. *)
Definition includes (s needle : string) : bool :=
  match split_on needle s with Some _ => true | None => false end.

(** [s.replace(pattern, replacement)] with a string pattern: the first
    occurrence only.  The replacements used in the sources are empty, so
    the dollar patterns of JavaScript never arise. *)
Definition replace_first (pattern replacement s : string) : string :=
  match split_on pattern s with
  | Some (before, rest) => before ++ replacement ++ rest
  | None => s
  end.

(** White space of [String.prototype.trim] among the Latin-1 code units:
    TAB, LF, VT, FF, CR, SPACE and NBSP. *)
Definition is_whitespace (c : ascii) : bool :=
  let n := nat_of_ascii c in
  (((9 <=? n) && (n <=? 13)) || (n =? 32) || (n =? 160))%nat.

Fixpoint trimStart (s : string) : string :=
  match s with
  | EmptyString => EmptyString
  | String c s' => if is_whitespace c then trimStart s' else s
  end.

Fixpoint trimEnd (s : string) : string :=
  match s with
  | EmptyString => EmptyString
  | String c s' =>
      match trimEnd s' with
      | EmptyString => if is_whitespace c then EmptyString
                       else String c EmptyString
      | String _ _ as kept => String c kept
      end
  end.

Definition trim (s : string) : string := trimEnd (trimStart s).

Fixpoint whitespace_only (s : string) : bool :=
  match s with
  | EmptyString => true
  | String c s' => is_whitespace c && whitespace_only s'
  end.

(** [x || fallback] on a possibly undefined string: the empty string is
    falsy. *)
Definition or_else (x : option string) (fallback : string) : string :=
  match x with
  | Some (String _ _ as s) => s
  | _ => fallback
  end.

(** [Array.prototype.join]. *)
Definition join (sep : string) (parts : list string) : string :=
  String.concat sep parts.

End JsString.
Import JsString.

(* ================================================================= *)
(** ** Failures *)

(** An [Error] object as the service raises it: [message] may be missing and
    [status] is the numeric HTTP status, when the failure carries one. *)
Record JsError : Type := mkError {
  name : string;
  message : option string;
  status : option Z
}.

(** What a promise of the generation service settles to. *)
Inductive Outcome (T : Type) : Type :=
| Resolved (value : T)
| Rejected (error : JsError).
Arguments Resolved {T} value.
Arguments Rejected {T} error.

(* ================================================================= *)
(** ** services/geminiService: retryOperation *)

Module Retry.

(** The value a [throw] carries: an error, or [undefined] for the
    never-assigned [lastError]. *)
Inductive Thrown : Type :=
| ThrownUndefined
| ThrownError (error : JsError).

(** What the promise returned by [retryOperation] settles to. *)
Inductive Settled (T : Type) : Type :=
| Fulfilled (value : T)
| Raised (thrown : Thrown).
Arguments Fulfilled {T} value.
Arguments Raised {T} thrown.

(** What the executor does, in order. *)
Inductive Event : Type :=
| Called (attempt : nat)
| Warned (attempt total : nat) (delay : Z) (errorMessage : string)
| Waited (ms : Z).

(** [(error.message || '').toLowerCase()] *)
Definition errorMessage_of (error : JsError) : string :=
  toLowerCase (or_else (message error) "").

Definition status_is (error : JsError) (code : Z) : bool :=
  match status error with
  | Some s => Z.eqb s code
  | None => false
  end.

Definition isRetryable (error : JsError) : bool :=
  let errorMessage := errorMessage_of error in
  status_is error 429 || status_is error 503
  || includes errorMessage "429" || includes errorMessage "503"
  || includes errorMessage "quota"
  || includes errorMessage "resource_exhausted"
  || includes errorMessage "overloaded".

Section Executor.
Context {T : Type}.

(** The wrapped operation is an effectful thunk: [operation k] is what
    its invocation number [k] (from 0) settles to.  The executor invokes
    it once per iteration, so invocation [k] happens at [attempt = k]. *)
Variable operation : nat -> Outcome T.

(** A number of retries and a number of milliseconds. *)
Variable maxRetries : nat.
Variable initialDelay : Z.

(** [initialDelay * Math.pow(2, attempt)]; the numbers of JavaScript are
    doubles, in which a product of an integer by a power of two is exact
    up to 2^53. *)
Definition delay_at (attempt : nat) : Z :=
  initialDelay * 2 ^ Z.of_nat attempt.

(** The [for] loop from [attempt] on; [remaining] counts the iterations
    the condition [attempt <= maxRetries] still admits, and at zero the
    statement after the loop, [throw lastError], runs. *)
Fixpoint retry_loop (remaining attempt : nat) (lastError : Thrown)
  : Settled T * list Event :=
  match remaining with
  | O => (Raised lastError, [])
  | S remaining' =>
      match operation attempt with
      | Resolved value => (Fulfilled value, [Called attempt])
      | Rejected error =>
          if negb (isRetryable error) || (attempt =? maxRetries)%nat
          then (Raised (ThrownError error), [Called attempt])
          else
            let delay := delay_at attempt in
            let '(settled, events) :=
              retry_loop remaining' (S attempt) (ThrownError error) in
            (settled,
             Called attempt
             :: Warned (attempt + 1) (maxRetries + 1) delay
                       (errorMessage_of error)
             :: Waited delay :: events)
      end
  end.

End Executor.

(** [retryOperation(operation, maxRetries = 3, initialDelay = 2000)] *)
Definition retryOperation {T : Type} (operation : nat -> Outcome T)
    (maxRetries : option nat) (initialDelay : option Z)
  : Settled T * list Event :=
  let maxRetries := match maxRetries with Some m => m | None => 3%nat end in
  let initialDelay := match initialDelay with Some d => d | None => 2000%Z end in
  retry_loop operation maxRetries initialDelay (S maxRetries) 0 ThrownUndefined.

(** Readings of a run. *)
Definition attempts (events : list Event) : nat :=
  List.length (filter (fun e => match e with Called _ => true | _ => false end)
                      events).

Fixpoint delays (events : list Event) : list Z :=
  match events with
  | [] => []
  | Waited ms :: rest => ms :: delays rest
  | _ :: rest => delays rest
  end.

Definition fails_retryably {T : Type} (o : Outcome T) : bool :=
  match o with
  | Resolved _ => false
  | Rejected error => isRetryable error
  end.

Definition settle_of {T : Type} (o : Outcome T) : Settled T :=
  match o with
  | Resolved value => Fulfilled value
  | Rejected error => Raised (ThrownError error)
  end.

(** The events of one failed attempt that is retried. *)
Definition retried {T : Type} (operation : nat -> Outcome T)
    (maxRetries : nat) (initialDelay : Z) (attempt : nat) : list Event :=
  match operation attempt with
  | Rejected error =>
      [Called attempt;
       Warned (attempt + 1) (maxRetries + 1) (delay_at initialDelay attempt)
              (errorMessage_of error);
       Waited (delay_at initialDelay attempt)]
  | Resolved _ => []
  end.

End Retry.

(* ================================================================= *)
(** ** JSON values and the builtin parser *)

Module Json.

Set Warnings "-register-all".

(** A parsed JSON document.  A number is kept as the integer part of its
    value and whether it is zero, the only thing the sources observe. *)
Inductive value : Type :=
| JNull
| JBool (b : bool)
| JNumber (is_zero : bool) (integer_part : Z)
| JString (s : string)
| JArray (items : list value)
| JObject (fields : list (string * value)).

(** [ToBoolean] *)
Definition truthy (v : value) : bool :=
  match v with
  | JNull => false
  | JBool b => b
  | JNumber is_zero _ => negb is_zero
  | JString s => negb (String.eqb s "")
  | JArray _ | JObject _ => true
  end.

Fixpoint assoc (key : string) (fields : list (string * value))
  : option value :=
  match fields with
  | [] => None
  | (k, v) :: rest => if String.eqb k key then Some v else assoc key rest
  end.

(** [TypeError] of reading a property of [null] or [undefined] (the text
    of V8). *)
Definition read_error (base property : string) : JsError :=
  mkError "TypeError"
          (Some ("Cannot read properties of " ++ base ++ " (reading '"
                 ++ property ++ "')"))
          None.

(** [v.property] for one of the two field names the sources read: a
    property of [null] throws, a missing one is [undefined]; strings,
    numbers, booleans and arrays have neither field. *)
Definition get_field (v : value) (property : string)
  : JsError + option value :=
  match v with
  | JNull => inl (read_error "null" property)
  | JObject fields => inr (assoc property fields)
  | _ => inr None
  end.

(** [x || fallback] *)
Definition or_value (x : option value) (fallback : value) : value :=
  match x with
  | Some v => if truthy v then v else fallback
  | None => fallback
  end.

End Json.
Import Json.

(** [Error.prototype.toString], as the template literal applies it. *)
Definition error_toString (error : JsError) : string :=
  let msg := match message error with Some m => m | None => "" end in
  if String.eqb (name error) "" then msg
  else if String.eqb msg "" then name error
  else name error ++ ": " ++ msg.

(** A code unit given by its number, for the accented letters of the
    Portuguese texts. *)
Definition ch (n : nat) : string := String (ascii_of_nat n) EmptyString.

(* ================================================================= *)
(** ** services/geminiService: the simulated capabilities *)

Module Service.
Import Retry.

(** [GenerateContentResponse]: only its [text] is read. *)
Record GenerateContentResponse : Type := { text : option string }.

(** The contents of a request: the template literal of each capability,
    given by the values that fill its holes.  The instruction text between
    the holes is fixed and is not reproduced. *)
Inductive Prompt : Type :=
| JuliaPrompt (juliaCode : string)
| TelnetPrompt (host history newCommand : string)
| RNTPrompt (history newCommand : string)
| FrameworkPrompt (framework code route : string).

(** [AIChatResponse] *)
Record GroundingSource : Type := { uri : string; title : string }.

Record AIChatResponse : Type := {
  response_text : option string;
  errorMessage : option string;
  imageUrl : option string;
  sources : option (list GroundingSource)
}.

(** [error.message?.includes(needle)] in a [catch] block; reading
    [message] of [undefined] throws, which [None] records. *)
Definition message_includes (thrown : Thrown) (needle : string)
  : option bool :=
  match thrown with
  | ThrownUndefined => None
  | ThrownError error =>
      Some match message error with
           | Some m => includes m needle
           | None => false
           end
  end.

(** [/```$/] replaced by nothing: the fence is removed when the text ends
    with it, and [$] without the [m] flag is the very end of the text. *)
Fixpoint strip_closing_fence (s : string) : string :=
  if String.eqb s "```" then EmptyString
  else match s with
       | EmptyString => EmptyString
       | String c s' => String c (strip_closing_fence s')
       end.

(** Lines 297-299 of simulateRNTCommand. *)
Definition clean_rnt_output (text : string) : string :=
  let text :=
    match strip_prefix_ci ("```rnt" ++ nl) text with
    | Some rest => rest | None => text end in
  let text :=
    match strip_prefix_ci ("```" ++ nl) text with
    | Some rest => rest | None => text end in
  trim (strip_closing_fence text).

Section Capabilities.

(** The generation service: for the contents of a request, what the
    call number [k] of [ai.models.generateContent] settles to. *)
Variable generateContent : Prompt -> nat -> Outcome GenerateContentResponse.

(** The builtin [JSON.parse]: a value, or the [SyntaxError] it throws. *)
Variable JSON_parse : string -> JsError + Json.value.

Definition simulateTelnetCommand (host history newCommand : string)
  : Settled string * list Event :=
  let '(settled, events) :=
    retryOperation (generateContent (TelnetPrompt host history newCommand))
                   None None in
  (match settled with
   | Fulfilled response => Fulfilled (or_else (text response) "")
   | Raised thrown =>
       match message_includes thrown "429" with
       | None => Raised (ThrownError (read_error "undefined" "message"))
       | Some true =>
           Fulfilled "Erro: Quota da API excedida. Tente novamente em breve."
       | Some false =>
           Fulfilled ("Erro de conex" ++ ch 227 ++ "o: O host remoto n"
                      ++ ch 227 ++ "o respondeu ou a simula" ++ ch 231
                      ++ ch 227 ++ "o falhou.")
       end
   end, events).

Definition simulateRNTCommand (history newCommand : string)
  : Settled string * list Event :=
  let '(settled, events) :=
    retryOperation (generateContent (RNTPrompt history newCommand))
                   None None in
  (match settled with
   | Fulfilled response =>
       Fulfilled (clean_rnt_output (or_else (text response) ""))
   | Raised thrown =>
       match message_includes thrown "429" with
       | None => Raised (ThrownError (read_error "undefined" "message"))
       | Some true =>
           Fulfilled "RNT Kernel Panic: Resource Exhausted (429). Rebooting nodes..."
       | Some false => Fulfilled "RNT Connection Error: Node unreachable."
       end
   end, events).

(** What simulateFrameworkExecution returns; a field of the parsed reply
    is passed on as it is, whatever its JSON type. *)
Record FrameworkResult : Type := {
  output : Json.value;
  logs : Json.value
}.

Definition empty_response_notice : string :=
  "<h1>Erro: Resposta vazia do servidor simulado.</h1>".
Definition log_parse_failure_notice : string :=
  "[Error] Failed to parse simulation logs.".
Definition quota_result : FrameworkResult :=
  {| output := JString "<h1>503 Service Unavailable</h1><p>API Quota Exceeded. Please try again later.</p>";
     logs := JString "CRITICAL: API Quota Limit Reached." |}.
Definition simulation_failed_result (error : JsError) : FrameworkResult :=
  {| output := JString "<h1>500 Internal Server Error (Simulation Failed)</h1>";
     logs := JString ("CRITICAL: Simulation failed due to API error: "
                      ++ error_toString error) |}.

(** The [try] block after the call: lines 342-346. *)
Definition extract_framework_result (response : GenerateContentResponse)
  : JsError + FrameworkResult :=
  match JSON_parse (or_else (text response) "{}") with
  | inl syntax_error => inl syntax_error
  | inr result =>
      match get_field result "responseBody" with
      | inl type_error => inl type_error
      | inr responseBody =>
          match get_field result "serverLogs" with
          | inl type_error => inl type_error
          | inr serverLogs =>
              inr {| output := or_value responseBody
                                        (JString empty_response_notice);
                     logs := or_value serverLogs
                                      (JString log_parse_failure_notice) |}
          end
      end
  end.

(** The [catch] block: lines 347-359. *)
Definition framework_catch (thrown : Thrown) : Settled FrameworkResult :=
  match thrown with
  | ThrownUndefined => Raised (ThrownError (read_error "undefined" "message"))
  | ThrownError error =>
      match message_includes thrown "429" with
      | Some true => Fulfilled quota_result
      | _ => Fulfilled (simulation_failed_result error)
      end
  end.

Definition simulateFrameworkExecution (code framework route : string)
  : Settled FrameworkResult * list Event :=
  let '(settled, events) :=
    retryOperation (generateContent (FrameworkPrompt framework code route))
                   None None in
  (match settled with
   | Fulfilled response =>
       match extract_framework_result response with
       | inr result => Fulfilled result
       | inl error => framework_catch (ThrownError error)
       end
   | Raised thrown => framework_catch thrown
   end, events).

Definition quota_message : string :=
  "O limite de uso da API foi excedido (Erro 429). Por favor, aguarde alguns instantes e tente novamente.".
Definition invalid_key_message : string :=
  "Sua chave de API pode estar inv" ++ ch 225
  ++ "lida. Por favor, selecione-a novamente e tente simular novamente.".
Definition julia_failure_message : string :=
  "Desculpe, houve um erro ao simular a execu" ++ ch 231 ++ ch 227
  ++ "o do c" ++ ch 243 ++ "digo Julia.".

(** [(error as any).message?.toLowerCase() || ''] *)
Definition errorMessageLower (thrown : Thrown) : option string :=
  match thrown with
  | ThrownUndefined => None
  | ThrownError error =>
      Some match message error with
           | Some m => toLowerCase m
           | None => ""
           end
  end.

(** simulateJuliaExecution; [openSelectKey] of the host page, called on a
    credential failure, has no effect on what is returned. *)
Definition simulateJuliaExecution (juliaCode : string)
  : Settled AIChatResponse * list Event :=
  let '(settled, events) :=
    retryOperation (generateContent (JuliaPrompt juliaCode)) None None in
  (match settled with
   | Fulfilled response =>
       Fulfilled {| response_text := text response;
                    errorMessage := None; imageUrl := None;
                    sources := None |}
   | Raised thrown =>
       match errorMessageLower thrown with
       | None => Raised (ThrownError (read_error "undefined" "message"))
       | Some lower =>
           let failure msg :=
             Fulfilled {| response_text := None;
                          errorMessage := Some msg; imageUrl := None;
                          sources := None |} in
           if includes lower "429" || includes lower "quota"
              || includes lower "resource_exhausted"
           then failure quota_message
           else if includes lower "requested entity was not found."
           then failure invalid_key_message
           else failure julia_failure_message
       end
   end, events).

End Capabilities.

End Service.

(** A handler that reaches an [await] is split there: it returns, or it is
    suspended on a request and resumed with what the request settled to. *)
Inductive Submitted (St Req : Type) : Type :=
| Returned (st : St)
| Awaiting (st : St) (request : Req).
Arguments Returned {St Req} st.
Arguments Awaiting {St Req} st request.

(* ================================================================= *)
(** ** components/RNTRenderer *)

Module RNT.

Record ContextMessage : Type := { user : string; system : string }.

(** The text under a key of [localStorage]: the JSON text of a value this
    component writes there; a text [JSON.parse] throws on (or the empty
    text, which is falsy and is not parsed); or a text that parses to any
    other value: [null], a number, a boolean, a string, an object, or a
    list with other items than the component writes. *)
Inductive Stored (A : Type) : Type :=
| JsonOf (saved : A)
| Unparseable
| Foreign.
Arguments JsonOf {A} saved.
Arguments Unparseable {A}.
Arguments Foreign {A}.

(** [localStorage], at the two keys of the component. *)
Record LocalStorage : Type := {
  rnt_os_history : option (Stored (list string));
  rnt_os_context : option (Stored (list ContextMessage))
}.

(** What a pending [setTimeout] callback does. *)
Inductive TimerAction : Type :=
| SaveHistory (snapshot : list string)
| SaveContext (snapshot : list ContextMessage)
| BootLine (msg : string)
| ClearScreen.

(** A pending timer and the milliseconds it still has to run; [timers] of
    the state lists them in the order they were set. *)
Record Timer : Type := { delay : nat; action : TimerAction }.

(** The component: its state cells, the storage it writes to and the
    timers it has set.  [isSaving] and [isFullscreen] only colour the header
    and are left out. *)
Record State : Type := {
  history : list string;
  contextMessages : list ContextMessage;
  currentInput : string;
  isProcessing : bool;
  localStorage : LocalStorage;
  timers : list Timer
}.

(** The request a suspended handleCommandSubmit waits for:
    [simulateRNTCommand(recentContext, command)]. *)
Record Request : Type := { recentContext : string; command : string }.

Definition bootMessages : list string :=
  [ "Initializing RNT Kernel v1.0.4...";
    "Loading Aesthetic Drivers... [OK]";
    "Connecting to Jack Brito Neural Network... [CONNECTED]";
    "Mounting RNT-Pkg Mirror Nodes... [4 NODES FOUND]";
    "Welcome to Referring Node Transmission OS.";
    "Type 'help' to begin." ].

(** [saved ? JSON.parse(saved) : []] inside [try], [[]] in [catch]: the
    list the state cell starts from, or [None] when the text parses to a
    value that is none of the component's own, which becomes the state as
    it is. *)
Definition load {A : Type} (saved : option (Stored (list A)))
  : option (list A) :=
  match saved with
  | Some (JsonOf l) => Some l
  | Some Unparseable => Some []
  | Some Foreign => None
  | None => Some []
  end.

(** What the first render comes to.  A transcript that is no list of
    lines makes it throw ([history.map] or [line.startsWith] is no
    function) and nothing is shown.  A context buffer that is no list of
    pairs is kept as the state: the component renders, and what its
    handler later reads from that value ([contextMessages.slice],
    [m.user]) depends on the value; the typed component of this file does
    not follow it. *)
Inductive Mounted (St : Type) : Type :=
| Rendered (st : St)
| RenderThrows
| ForeignContext.
Arguments Rendered {St} st.
Arguments RenderThrows {St}.
Arguments ForeignContext {St}.

Definition is_save_history (t : Timer) : bool :=
  match action t with SaveHistory _ => true | _ => false end.
Definition is_save_context (t : Timer) : bool :=
  match action t with SaveContext _ => true | _ => false end.

(** The persistence effect of [history]: the cleanup of its last run
    clears the timer it had set, then a new one is set with the array of
    this render. *)
Definition history_effect (st : State) : State :=
  {| history := history st;
     contextMessages := contextMessages st;
     currentInput := currentInput st;
     isProcessing := isProcessing st;
     localStorage := localStorage st;
     timers := (filter (fun t => negb (is_save_history t)) (timers st)
                ++ [{| delay := 300; action := SaveHistory (history st) |}])%list |}.

Definition context_effect (st : State) : State :=
  {| history := history st;
     contextMessages := contextMessages st;
     currentInput := currentInput st;
     isProcessing := isProcessing st;
     localStorage := localStorage st;
     timers := (filter (fun t => negb (is_save_context t)) (timers st)
                ++ [{| delay := 300; action := SaveContext (contextMessages st) |}])%list |}.

(** The [forEach] of the boot effect, [delay] being its running sum. *)
Fixpoint schedule_boot (delay : nat) (msgs : list string) : list Timer :=
  match msgs with
  | [] => []
  | msg :: rest =>
      let delay := delay + 600 in
      {| delay := delay; action := BootLine msg |} :: schedule_boot delay rest
  end.

(** The first render with the two lists read from the storage, and its
    effects, in the order they are declared. *)
Definition first_render (initialBoot : bool) (storage : LocalStorage)
    (history : list string) (contextMessages : list ContextMessage)
  : State :=
  {| history := history;
     contextMessages := contextMessages;
     currentInput := "";
     isProcessing := false;
     localStorage := storage;
     timers :=
       ([{| delay := 300; action := SaveHistory history |};
         {| delay := 300; action := SaveContext contextMessages |}]
        ++ (if initialBoot && (List.length history =? 0)%nat
            then schedule_boot 0 bootMessages else []))%list |}.

Definition mount (initialBoot : bool) (storage : LocalStorage)
  : Mounted State :=
  match load (rnt_os_history storage) with
  | None => RenderThrows
  | Some history =>
      match load (rnt_os_context storage) with
      | None => ForeignContext
      | Some contextMessages =>
          Rendered (first_render initialBoot storage history contextMessages)
      end
  end.

(** [<RNTRenderer />]: the default of the property. *)
Definition mount_default (storage : LocalStorage) : Mounted State :=
  mount true storage.

(** [setContextMessages(prev => [...prev, {user: command, system: response}])] *)
Definition appendInteraction (prev : list ContextMessage)
    (command response : string) : list ContextMessage :=
  (prev ++ [{| user := command; system := response |}])%list.

(** [contextMessages.slice(-n)] *)
Definition slice_last {A : Type} (n : nat) (l : list A) : list A :=
  skipn (List.length l - n) l.

Definition render_pair (m : ContextMessage) : string :=
  "User: " ++ user m ++ nl ++ "RNT System: " ++ system m.

Definition build_recentContext (contextMessages : list ContextMessage)
  : string :=
  join nl (map render_pair (slice_last 15 contextMessages)).

Definition set_input (st : State) (input : string) : State :=
  {| history := history st;
     contextMessages := contextMessages st;
     currentInput := input;
     isProcessing := isProcessing st;
     localStorage := localStorage st;
     timers := timers st |}.

(** handleCommandSubmit up to its [await]; the state updates of one event
    handler are rendered together, then the effects of what changed run. *)
Definition handleCommandSubmit (st : State) : Submitted State Request :=
  if String.eqb (trim (currentInput st)) "" then Returned st
  else
    let command := currentInput st in
    let prompted := (history st ++ [("user@rnt:~$ " ++ command)%string])%list in
    if String.eqb (toLowerCase command) "clear" then
      Returned (history_effect
        {| history := [];
           contextMessages := contextMessages st;
           currentInput := "";
           isProcessing := isProcessing st;
           localStorage := localStorage st;
           timers := timers st |})
    else if String.eqb (toLowerCase command) "sys-reset"
            || String.eqb (toLowerCase command) "rnt-reset" then
      Returned (context_effect (history_effect
        {| history := (prompted ++ ["Initiating System Wipe...";
                                    "Formatting Virtual Drive...";
                                    "System Halted."])%list;
           contextMessages := [];
           currentInput := "";
           isProcessing := isProcessing st;
           localStorage := {| rnt_os_history := None;
                              rnt_os_context := None |};
           timers := (timers st
                      ++ [{| delay := 2000; action := ClearScreen |}])%list |}))
    else
      Awaiting (history_effect
        {| history := prompted;
           contextMessages := contextMessages st;
           currentInput := "";
           isProcessing := true;
           localStorage := localStorage st;
           timers := timers st |})
        {| recentContext := build_recentContext (contextMessages st);
           command := command |}.

(** handleCommandSubmit after its [await]. *)
Definition handleCommandSubmit_resume (st : State) (request : Request)
    (response : string) : State :=
  context_effect (history_effect
    {| history := (history st ++ [response])%list;
       contextMessages :=
         appendInteraction (contextMessages st) (command request) response;
       currentInput := currentInput st;
       isProcessing := false;
       localStorage := localStorage st;
       timers := timers st |}).

(** *** Timers *)

Fixpoint min_delay (ts : list Timer) : option nat :=
  match ts with
  | [] => None
  | t :: rest =>
      match min_delay rest with
      | None => Some (delay t)
      | Some m => Some (Nat.min (delay t) m)
      end
  end.

(** The first timer set among those with [d] milliseconds left. *)
Fixpoint take_due (d : nat) (ts : list Timer) : option (Timer * list Timer) :=
  match ts with
  | [] => None
  | t :: rest =>
      if (delay t =? d)%nat then Some (t, rest)
      else match take_due d rest with
           | Some (due, others) => Some (due, t :: others)
           | None => None
           end
  end.

Definition let_pass (d : nat) (ts : list Timer) : list Timer :=
  map (fun t => {| delay := delay t - d; action := action t |}) ts.

Definition with_timers (st : State) (ts : list Timer) : State :=
  {| history := history st;
     contextMessages := contextMessages st;
     currentInput := currentInput st;
     isProcessing := isProcessing st;
     localStorage := localStorage st;
     timers := ts |}.

Definition with_history (st : State) (h : list string) : State :=
  {| history := h;
     contextMessages := contextMessages st;
     currentInput := currentInput st;
     isProcessing := isProcessing st;
     localStorage := localStorage st;
     timers := timers st |}.

Definition with_storage (st : State) (storage : LocalStorage) : State :=
  {| history := history st;
     contextMessages := contextMessages st;
     currentInput := currentInput st;
     isProcessing := isProcessing st;
     localStorage := storage;
     timers := timers st |}.

(** The callback of a timer. *)
Definition run_callback (a : TimerAction) (st : State) : State :=
  match a with
  | SaveHistory snapshot =>
      with_storage st
        {| rnt_os_history := Some (JsonOf snapshot);
           rnt_os_context := rnt_os_context (localStorage st) |}
  | SaveContext snapshot =>
      with_storage st
        {| rnt_os_history := rnt_os_history (localStorage st);
           rnt_os_context := Some (JsonOf snapshot) |}
  | BootLine msg =>
      history_effect (with_history st (history st ++ [msg])%list)
  | ClearScreen => history_effect (with_history st [])
  end.

(** Time passes until the earliest pending timer is due, and it runs. *)
Definition fire_next (st : State) : option State :=
  match min_delay (timers st) with
  | None => None
  | Some d =>
      match take_due d (timers st) with
      | None => None
      | Some (due, others) =>
          Some (run_callback (action due)
                             (with_timers st (let_pass d others)))
      end
  end.

Fixpoint run_timers (fuel : nat) (st : State) : State :=
  match fuel with
  | O => st
  | S fuel' =>
      match fire_next st with
      | None => st
      | Some st' => run_timers fuel' st'
      end
  end.

(** A bound on the callbacks still to run: a boot line or a screen clear
    sets one more save. *)
Definition weight (t : Timer) : nat :=
  match action t with
  | SaveHistory _ | SaveContext _ => 1
  | BootLine _ | ClearScreen => 2
  end.

Definition pending (ts : list Timer) : nat :=
  fold_right (fun t n => weight t + n) 0 ts.

(** Every pending timer runs, in the order in which they fall due. *)
Definition settle (st : State) : State :=
  run_timers (pending (timers st)) st.

Definition is_save (t : Timer) : bool :=
  is_save_history t || is_save_context t.

(** No boot line and no screen clear is pending. *)
Definition only_saves (st : State) : Prop :=
  forallb is_save (timers st) = true.

(** The array [saved] is, or is about to be, the stored copy of the
    transcript: every pending save of the transcript carries it, and one
    is pending unless it is stored already. *)
Definition saves_history (saved : list string) (st : State) : Prop :=
  (forall t snapshot, In t (timers st) ->
                      action t = SaveHistory snapshot -> snapshot = saved)
  /\ ((exists t, In t (timers st) /\ is_save_history t = true)
      \/ rnt_os_history (localStorage st) = Some (JsonOf saved)).

Definition is_boot_line (t : Timer) : bool :=
  match action t with BootLine _ => true | _ => false end.

Definition pair_of (p : string * string) : ContextMessage :=
  {| user := fst p; system := snd p |}.

(** *** A session *)

(** The component together with the handler that is suspended at its
    [await], if there is one: what its closure holds is the request. *)
Record Session : Type := {
  component : State;
  suspended : option Request
}.

Definition start (st : State) : Session :=
  {| component := st; suspended := None |}.

(** What happens to the component, one event at a time: the user types
    [input] and presses Enter, which the disabled input field rules out
    while a command is processed; simulateRNTCommand fulfils the promise
    the suspended handler awaits with [response] (it never rejects); time
    passes until the earliest pending timer is due, and it runs; or [ms]
    milliseconds pass, no more than any pending timer has left.  Time may
    pass and timers may run while a handler is suspended. *)
Inductive Action : Type :=
| Submit (input : string)
| Answer (response : string)
| TimerFires
| TimePasses (ms : nat).

Definition step (s : Session) (a : Action) : Session :=
  match a with
  | Submit input =>
      if isProcessing (component s) then s
      else match handleCommandSubmit (set_input (component s) input) with
           | Returned st' =>
               {| component := st'; suspended := suspended s |}
           | Awaiting st' request =>
               {| component := st'; suspended := Some request |}
           end
  | Answer response =>
      match suspended s with
      | Some request =>
          {| component :=
               handleCommandSubmit_resume (component s) request response;
             suspended := None |}
      | None => s
      end
  | TimerFires =>
      match fire_next (component s) with
      | Some st' => {| component := st'; suspended := suspended s |}
      | None => s
      end
  | TimePasses ms =>
      match min_delay (timers (component s)) with
      | Some d =>
          if (ms <=? d)%nat
          then {| component :=
                    with_timers (component s)
                                (let_pass ms (timers (component s)));
                  suspended := suspended s |}
          else s
      | None => s
      end
  end.

Definition run (s : Session) (actions : list Action) : Session :=
  fold_left step actions s.

End RNT.

(* ================================================================= *)
(** ** components/TelnetRenderer *)

Module Telnet.

Record State : Type := {
  host : string;
  isConnected : bool;
  history : list string;
  sessionContext : string;
  currentInput : string;
  isProcessing : bool
}.

(** [simulateTelnetCommand(host, newContext, command)], with what the
    suspended handler keeps of it. *)
Record Request : Type := {
  req_host : string;
  newContext : string;
  command : string
}.

(** [useState] of the first render. *)
Definition mount (initialHost : string) : State :=
  {| host := initialHost; isConnected := false; history := [];
     sessionContext := ""; currentInput := ""; isProcessing := false |}.

(** handleConnect after its two [await]s: [banner] is what
    [simulateTelnetCommand(host, "", "CONNECT_INIT")] returned. *)
Definition handleConnect (st : State) (banner : string) : State :=
  {| host := host st;
     isConnected := true;
     history := (history st
                 ++ [("Connecting to " ++ host st ++ "...")%string;
                     ("Connected to " ++ host st ++ ".")%string;
                     banner])%list;
     sessionContext := banner;
     currentInput := currentInput st;
     isProcessing := false |}.

Definition handleDisconnect (st : State) : State :=
  {| host := host st;
     isConnected := false;
     history := (history st ++ ["Connection closed by foreign host."])%list;
     sessionContext := "";
     currentInput := currentInput st;
     isProcessing := isProcessing st |}.

Definition handleCommandSubmit (st : State) : Submitted State Request :=
  if String.eqb (trim (currentInput st)) ""
     && negb (String.eqb (currentInput st) "")
  then Returned st
  else
    let command := currentInput st in
    let prompted :=
      {| host := host st;
         isConnected := isConnected st;
         history := (history st ++ [("> " ++ command)%string])%list;
         sessionContext := sessionContext st;
         currentInput := "";
         isProcessing := isProcessing st |} in
    if String.eqb (toLowerCase command) "exit"
       || String.eqb (toLowerCase command) "logout"
    then Returned (handleDisconnect prompted)
    else
      let newContext :=
        sessionContext st ++ nl ++ "User: " ++ command ++ nl in
      Awaiting
        {| host := host st;
           isConnected := isConnected st;
           history := history prompted;
           sessionContext := sessionContext st;
           currentInput := "";
           isProcessing := true |}
        {| req_host := host st; newContext := newContext;
           command := command |}.

Definition handleCommandSubmit_resume (st : State) (request : Request)
    (response : string) : State :=
  {| host := host st;
     isConnected := isConnected st;
     history := (history st ++ [response])%list;
     sessionContext := newContext request ++ "System: " ++ response ++ nl;
     currentInput := currentInput st;
     isProcessing := false |}.

(** An input that reaches the service: not blank (the empty input
    passes) and no disconnection. *)
Definition reaches_service (input : string) : bool :=
  negb (String.eqb (trim input) "" && negb (String.eqb input ""))
  && negb (String.eqb (toLowerCase input) "exit"
           || String.eqb (toLowerCase input) "logout").

Definition with_input (st : State) (input : string) : State :=
  {| host := host st; isConnected := isConnected st;
     history := history st; sessionContext := sessionContext st;
     currentInput := input; isProcessing := isProcessing st |}.

(** A session after the connection: each command is submitted and
    answered in turn; [requests] collects the requests sent. *)
Fixpoint session (st : State) (exchanges : list (string * string))
  : State * list Request :=
  match exchanges with
  | [] => (st, [])
  | (input, response) :: rest =>
      match handleCommandSubmit (with_input st input) with
      | Returned st' => session st' rest
      | Awaiting st' request =>
          let '(final, requests) :=
            session (handleCommandSubmit_resume st' request response) rest in
          (final, request :: requests)
      end
  end.

(** The text of one exchange as the session context holds it. *)
Definition render_exchange (exchange : string * string) : string :=
  nl ++ "User: " ++ fst exchange ++ nl
  ++ "System: " ++ snd exchange ++ nl.

(** How often [needle] occurs in [s], counting overlaps. *)
Fixpoint occurrences (needle s : string) : nat :=
  match s with
  | EmptyString => 0
  | String _ s' =>
      (match strip_prefix needle s with Some _ => 1 | None => 0 end)
      + occurrences needle s'
  end.

End Telnet.

(* ================================================================= *)
(** ** components/JuliaRenderer *)

Module Julia.
Import Service.

Record State : Type := {
  output : string;
  isExecuting : bool;
  plotData : Json.value;
  editableJuliaCode : string
}.

Definition chart_opener : string := "```json-plotly" ++ nl.
Definition chart_closer : string := nl ++ "```".

(** [text.match(/```json-plotly\n([\s\S]*?)\n```/)]: the whole match and
    its group.  The match starts at the leftmost opener that a closer
    follows, and a closer after a later opener is also after the first
    one; the lazy group then ends at the first closer. *)
Definition plotMatch (text : string) : option (string * string) :=
  match split_on chart_opener text with
  | None => None
  | Some (_, rest) =>
      match split_on chart_closer rest with
      | None => None
      | Some (contents, _) =>
          Some (chart_opener ++ contents ++ chart_closer, contents)
      end
  end.

Definition no_output_text : string :=
  "A execu" ++ ch 231 ++ ch 227 ++ "o n" ++ ch 227
  ++ "o produziu nenhuma sa" ++ ch 237 ++ "da.".
Definition chart_failure_notice : string :=
  nl ++ nl ++ "[Erro ao renderizar o gr" ++ ch 225 ++ "fico visualmente]".
Definition error_heading : string :=
  "### Erro na Execu" ++ ch 231 ++ ch 227 ++ "o" ++ nl ++ nl.

Section Renderer.

Variable JSON_parse : string -> JsError + Json.value.

(** The [else] branch of runSimulation, lines 81-96: the text to display
    and the chart data, [None] when [setPlotData] is not called. *)
Definition extract_chart (text : option string)
  : string * option Json.value :=
  let displayText := or_else text no_output_text in
  match match text with Some t => plotMatch t | None => None end with
  | None => (displayText, None)
  | Some (whole, contents) =>
      match JSON_parse contents with
      | inr json => (replace_first whole "" displayText, Some json)
      | inl _ => (displayText ++ chart_failure_notice, None)
      end
  end.

(** runSimulation from the moment simulateJuliaExecution has settled;
    the state it resumes in has [output] and [plotData] reset. *)
Definition runSimulation (st : State)
    (settled : Retry.Settled AIChatResponse) : State :=
  let started :=
    {| output := ""; isExecuting := true; plotData := JNull;
       editableJuliaCode := editableJuliaCode st |} in
  let finish (output : string) (plot : Json.value) :=
    {| output := output; isExecuting := false; plotData := plot;
       editableJuliaCode := editableJuliaCode st |} in
  match settled with
  | Retry.Raised (Retry.ThrownError e) =>
      finish (error_heading
              ++ match message e with Some m => m | None => "undefined" end)
             (plotData started)
  | Retry.Raised Retry.ThrownUndefined =>
      (* reading [e.message] throws inside [catch]; [finally] still runs *)
      finish (output started) (plotData started)
  | Retry.Fulfilled response =>
      match errorMessage response with
      | Some (String _ _ as msg) =>
          finish (error_heading ++ msg) (plotData started)
      | _ =>
          let '(displayText, chart) :=
            extract_chart (response_text response) in
          finish displayText
                 match chart with
                 | Some json => json
                 | None => plotData started
                 end
      end
  end.

End Renderer.

End Julia.

(* ================================================================= *)
(** ** hooks/useChatHistory *)

Module Chat.
Import Service.

Inductive Sender : Type := USER | AI.

(** [id]: the welcome message has the fixed one, the others the decimal
    text of a clock reading. *)
Inductive MessageId : Type :=
| IdInitial
| IdOfTime (ms : Z).

Record Message : Type := {
  id : MessageId;
  text : string;
  sender : Sender;
  imageUrl : option string;
  sources : option (list GroundingSource)
}.

Record State : Type := {
  messages : list Message;
  isLoading : bool
}.

Definition welcomeMessage : Message :=
  {| id := IdInitial;
     text := "Ol" ++ ch 225
             ++ "! Eu sou a Jack Brito GPT. Como posso te ajudar hoje?";
     sender := AI;
     imageUrl := None;
     sources := None |}.

Definition initial : State :=
  {| messages := [welcomeMessage]; isLoading := false |}.

(** sendMessage up to its [await]: the request is the argument of
    [sendMessageToGemini]; [now] is [Date.now()]. *)
Definition sendMessage (now : Z) (st : State) (inputText : string)
  : Submitted State string :=
  if String.eqb (trim inputText) "" || isLoading st then Returned st
  else
    let userMessage :=
      {| id := IdOfTime now; text := inputText; sender := USER;
         imageUrl := None; sources := None |} in
    Awaiting {| messages := (messages st ++ [userMessage])%list;
                isLoading := true |}
             inputText.

Definition image_caption (inputText : string) : string :=
  match strip_prefix "/imagem" inputText with
  | Some _ =>
      "Aqui est" ++ ch 225
      ++ " a imagem que criei para voc" ++ ch 234 ++ " com o prompt: "
      ++ ch 34
      ++ trim (substring 8 (String.length inputText - 8) inputText)
      ++ ch 34
  | None => "Aqui est" ++ ch 225 ++ " a imagem que editei para voc"
            ++ ch 234 ++ "!"
  end.

(** sendMessage after its [await]. *)
Definition sendMessage_resume (now : Z) (st : State) (inputText : string)
    (settled : Retry.Settled AIChatResponse) : State :=
  let reply (text : string) (image : option string)
            (sources : option (list GroundingSource)) :=
    {| messages :=
         (messages st
          ++ [{| id := IdOfTime (now + 1); text := text; sender := AI;
                 imageUrl := image; sources := sources |}])%list;
       isLoading := false |} in
  match settled with
  | Retry.Raised _ =>
      reply ("Desculpe, ocorreu um erro inesperado ao processar sua solicita"
             ++ ch 231 ++ ch 227 ++ "o. Tente novamente.") None None
  | Retry.Fulfilled aiResponse =>
      match errorMessage aiResponse with
      | Some (String _ _ as msg) => reply msg None None
      | _ =>
          match Service.imageUrl aiResponse with
          | Some (String _ _ as url) =>
              reply (or_else (response_text aiResponse)
                             (image_caption inputText))
                    (Some url) None
          | _ =>
              reply (or_else (response_text aiResponse)
                             ("N" ++ ch 227 ++ "o recebi uma resposta v"
                              ++ ch 225 ++ "lida."))
                    None (Service.sources aiResponse)
          end
      end
  end.

End Chat.

(* ================================================================= *)
(** ** Sample inputs *)

Module Sample.
Import Retry Service.

Definition dq : string := ch 34.

(** A reply of the framework capability with both fields. *)
Definition framework_reply : string :=
  "{" ++ dq ++ "responseBody" ++ dq ++ ":" ++ dq ++ "<p>ok</p>" ++ dq ++ ","
  ++ dq ++ "serverLogs" ++ dq ++ ":" ++ dq ++ "GET / 200" ++ dq ++ "}".

(** A reply with the body only. *)
Definition body_only_reply : string :=
  "{" ++ dq ++ "responseBody" ++ dq ++ ":" ++ dq ++ "<p>ok</p>" ++ dq ++ "}".

Definition chart_json : string :=
  "{" ++ dq ++ "data" ++ dq ++ ":[]," ++ dq ++ "layout" ++ dq ++ ":{}}".

(** The JSON documents used as examples in this file, with the values
    they stand for. *)
Definition documents : list (string * Json.value) :=
  [("{}", JObject []);
   ("null", JNull);
   (framework_reply,
    JObject [("responseBody", JString "<p>ok</p>");
             ("serverLogs", JString "GET / 200")]);
   (body_only_reply, JObject [("responseBody", JString "<p>ok</p>")]);
   (chart_json, JObject [("data", JArray []); ("layout", JObject [])])].

(** [JSON.parse] on the texts used as examples in this file.  A document
    of the table parses to its value.  A text of blanks only holds no
    document: the [SyntaxError] of V8 says so, in the words below.  The
    examples are documents of the table and blank texts; on any other
    text the table does not follow the builtin, whose error and its
    message depend on the text and on the engine, and answers as for a
    blank one. *)
Definition JSON_parse (s : string) : JsError + Json.value :=
  match Json.assoc s documents with
  | Some document => inr document
  | None =>
      inl (mkError "SyntaxError" (Some "Unexpected end of JSON input") None)
  end.

Definition rate_limited : JsError :=
  mkError "ApiError" (Some "Error 429: quota exceeded") (Some 429%Z).
Definition overloaded : JsError :=
  mkError "ApiError" (Some "The model is OVERLOADED.") None.
Definition invalid_argument : JsError :=
  mkError "ApiError" (Some "Invalid argument") (Some 400%Z).

(** An operation that fails twice with a quota error, then succeeds. *)
Definition flaky (k : nat) : Outcome string :=
  if (k <? 2)%nat then Rejected rate_limited else Resolved "done".

(** An operation that is always overloaded. *)
Definition always_overloaded (k : nat) : Outcome string :=
  Rejected overloaded.

(** An operation that fails once with a quota error, then is refused. *)
Definition refused_after_one (k : nat) : Outcome string :=
  if (k <? 1)%nat then Rejected rate_limited else Rejected invalid_argument.

(** A generation service that answers every request at once with [reply]. *)
Definition answering (reply : string) (p : Prompt) (k : nat)
  : Outcome GenerateContentResponse :=
  Resolved {| text := Some reply |}.

Definition empty_storage : RNT.LocalStorage :=
  {| RNT.rnt_os_history := None; RNT.rnt_os_context := None |}.

(** A storage left by an earlier session. *)
Definition restored_storage : RNT.LocalStorage :=
  {| RNT.rnt_os_history :=
       Some (RNT.JsonOf ["user@rnt:~$ mkdir projetos"; ""]);
     RNT.rnt_os_context :=
       Some (RNT.JsonOf [{| RNT.user := "mkdir projetos";
                            RNT.system := "" |}]) |}.

(** The component mounted from the empty storage, and from the storage
    of the earlier session. *)
Definition fresh : RNT.State := RNT.first_render true empty_storage [] [].
Definition restored : RNT.State :=
  RNT.first_render true restored_storage
    ["user@rnt:~$ mkdir projetos"; ""]
    [{| RNT.user := "mkdir projetos"; RNT.system := "" |}].

(** A first session: the boot sequence has run, then one command was
    answered; its two saves are pending. *)
Definition after_one_command : RNT.State :=
  RNT.component
    (RNT.run (RNT.start (RNT.settle fresh))
             [RNT.Submit "mkdir projetos"; RNT.Answer ""]).

(** Sixteen commands in a row, each answered before the next. *)
Definition sixteen_commands : list RNT.Action :=
  concat (repeat [RNT.Submit "ls"; RNT.Answer "projetos"] 16).

(** The state they leave after a fresh start and its boot sequence. *)
Definition sixteen_answered : RNT.State :=
  Eval vm_compute in
    RNT.component
      (RNT.run (RNT.start (RNT.settle fresh)) sixteen_commands).

(** A Telnet session: connected, then seventeen commands. *)
Definition telnet_connected : Telnet.State :=
  Telnet.handleConnect (Telnet.mount "localhost") "login: ".
Definition telnet_exchanges : list (string * string) :=
  repeat ("ls", "bin etc home") 17.

(** Replies of the Julia capability: a text, a chart block, a last line.
    The block of the first holds a blank line and no JSON document. *)
Definition bad_chart_reply : string :=
  "### Status: ok" ++ nl ++ "x = 42" ++ nl
  ++ "```json-plotly" ++ nl ++ " " ++ nl ++ "```" ++ nl ++ "done".
Definition good_chart_reply : string :=
  "### Status: ok" ++ nl ++ "x = 42" ++ nl
  ++ "```json-plotly" ++ nl ++ chart_json ++ nl ++ "```" ++ nl ++ "done".

Definition julia_editor : Julia.State :=
  {| Julia.output := ""; Julia.isExecuting := false;
     Julia.plotData := JNull; Julia.editableJuliaCode := "plot(1:3)" |}.

Definition julia_response (reply : string) : AIChatResponse :=
  {| response_text := Some reply; errorMessage := None;
     imageUrl := None; sources := None |}.

(** A reply of a terminal capability wrapped in a fence, with blanks
    around it. *)
Definition fenced_reply : string :=
  " ```" ++ nl ++ "projetos" ++ nl ++ "``` ".

(** A reply of the RNT capability that is one fenced block. *)
Definition rnt_block_reply : string :=
  "```RNT" ++ nl ++ "projetos  main.py" ++ nl ++ "```".

(** A reply whose closing fence is followed by a line feed. *)
Definition fence_then_newline : string :=
  "```rnt" ++ nl ++ "projetos" ++ nl ++ "```" ++ nl.

Definition loading_chat : Chat.State :=
  {| Chat.messages := [Chat.welcomeMessage]; Chat.isLoading := true |}.

End Sample.

(* ================================================================= *)
(** ** components/RNTRenderer: what is stored and what is shown *)

Module RNTSync.
Import RNT.

(** The array a pending save of the transcript, or of the context buffer,
    will write. *)
Definition history_snapshot (a : TimerAction) : option (list string) :=
  match a with SaveHistory snapshot => Some snapshot | _ => None end.

Definition context_snapshot (a : TimerAction)
  : option (list ContextMessage) :=
  match a with SaveContext snapshot => Some snapshot | _ => None end.

(** The value [saved] is safe under a key: every pending save of that key
    carries it, and such a save is pending unless the key holds it. *)
Definition guarded {A : Type} (snapshot_of : TimerAction -> option A)
    (saved : A) (stored : option (Stored A)) (ts : list Timer) : Prop :=
  (forall t snapshot,
      In t ts -> snapshot_of (action t) = Some snapshot -> snapshot = saved)
  /\ ((exists t snapshot, In t ts /\ snapshot_of (action t) = Some snapshot)
      \/ stored = Some (JsonOf saved)).

(** What the component shows is what the storage holds or is about to. *)
Definition in_sync (st : State) : Prop :=
  guarded history_snapshot (history st)
          (rnt_os_history (localStorage st)) (timers st)
  /\ guarded context_snapshot (contextMessages st)
             (rnt_os_context (localStorage st)) (timers st).

(** The page is loaded again: a new component over the same storage. *)
Definition reload (st : State) : Mounted State :=
  mount_default (localStorage st).


(** A command that is sent to the service: not blank, and none of the
    three commands the component answers itself. *)
Definition reaches_service (input : string) : bool :=
  negb (whitespace_only input)
  && negb (String.eqb (toLowerCase input) "clear")
  && negb (String.eqb (toLowerCase input) "sys-reset"
           || String.eqb (toLowerCase input) "rnt-reset").

Definition prompt_line (input : string) : string := "user@rnt:~$ " ++ input.

(** The two transcript lines of an answered command. *)
Definition exchange_lines (exchange : string * string) : list string :=
  [prompt_line (fst exchange); snd exchange].

(** A command and its answer, as the user and the service act. *)
Definition answered (exchange : string * string) : list Action :=
  [Submit (fst exchange); Answer (snd exchange)].

(** What the clock does: time passes, a timer runs. *)
Definition is_timer (a : Action) : bool :=
  match a with TimerFires | TimePasses _ => true | _ => false end.

(** What the user and the service do in a schedule, the clock left out. *)
Definition without_timers (schedule : list Action) : list Action :=
  filter (fun a => negb (is_timer a)) schedule.

End RNTSync.

(* ================================================================= *)
(** ** components/TelnetRenderer: a whole session *)

Module TelnetSession.
Import Telnet.

(** What happens to the component: the CONNECT button is pressed and the
    banner arrives; a command is submitted and, when the handler awaits the
    service, answered. *)
Inductive Action : Type :=
| Connect (banner : string)
| Submit (input response : string).

Definition step (st : State) (a : Action) : State :=
  match a with
  | Connect banner => handleConnect st banner
  | Submit input response =>
      match handleCommandSubmit (with_input st input) with
      | Returned st' => st'
      | Awaiting st' request => handleCommandSubmit_resume st' request response
      end
  end.

Definition run (st : State) (actions : list Action) : State :=
  fold_left step actions st.

(** [exit] or [logout], in any case. *)
Definition is_exit (input : string) : bool :=
  String.eqb (toLowerCase input) "exit"
  || String.eqb (toLowerCase input) "logout".

End TelnetSession.

(* ================================================================= *)
(** ** retryOperation: readings of an arbitrary run *)

Module RetryRun.
Import Retry.

(** How many of the attempts numbered from [attempt] on, at most [budget]
    of them, fail retryably one after the other. *)
Fixpoint leading_failures {T : Type} (operation : nat -> Outcome T)
    (attempt budget : nat) : nat :=
  match budget with
  | O => O
  | S budget' =>
      if fails_retryably (operation attempt)
      then S (leading_failures operation (S attempt) budget')
      else O
  end.

Definition total_wait (events : list Event) : Z :=
  fold_right Z.add 0%Z (delays events).

End RetryRun.

(* ================================================================= *)
(** ** More sample inputs *)

Module Sample2.

(** A first session: the fourteen timers of the boot sequence run, then
    one command is answered. *)
Definition first_session : list RNT.Action :=
  (repeat RNT.TimerFires 14
   ++ [RNT.Submit "mkdir projetos"; RNT.Answer ""])%list.

(** A session in which the command is entered 100 ms after the mount
    and the answer arrives while the boot sequence runs: two timers fire
    before it and twelve after. *)
Definition answered_during_boot : list RNT.Action :=
  (RNT.TimePasses 100 :: RNT.Submit "mkdir projetos"
   :: repeat RNT.TimerFires 2
   ++ RNT.Answer "" :: repeat RNT.TimerFires 12)%list.


Definition two_exchanges : list (string * string) :=
  [("ls", "projetos"); ("pwd", "/home/user")].

(** The two commands entered and answered; a pending save runs before
    the first answer, between the commands and after the last answer. *)
Definition saves_in_between : list RNT.Action :=
  [RNT.Submit "ls"; RNT.TimePasses 120; RNT.TimerFires;
   RNT.Answer "projetos"; RNT.TimerFires;
   RNT.Submit "pwd"; RNT.Answer "/home/user"; RNT.TimerFires].

End Sample2.

(* ================================================================= *)
(** ** The lines a failed terminal call is answered with *)

Module ServiceTexts.

Definition telnet_quota_line : string :=
  "Erro: Quota da API excedida. Tente novamente em breve.".
Definition telnet_connection_line : string :=
  "Erro de conex" ++ ch 227 ++ "o: O host remoto n" ++ ch 227
  ++ "o respondeu ou a simula" ++ ch 231 ++ ch 227 ++ "o falhou.".
Definition rnt_quota_line : string :=
  "RNT Kernel Panic: Resource Exhausted (429). Rebooting nodes...".
Definition rnt_connection_line : string :=
  "RNT Connection Error: Node unreachable.".

(** [error.message?.includes('429')] for an error object. *)
Definition mentions_429 (error : JsError) : bool :=
  match message error with
  | Some m => includes m "429"
  | None => false
  end.

End ServiceTexts.

(* ================================================================= *)
(** ** Scanning a text *)

Module Scan.

(** The longest prefix of [s] whose code units satisfy [p], and the rest:
    what a greedy [p*] of a regular expression takes. *)
Fixpoint span (p : ascii -> bool) (s : string) : string * string :=
  match s with
  | EmptyString => (EmptyString, EmptyString)
  | String c s' =>
      if p c then let '(taken, rest) := span p s' in (String c taken, rest)
      else (EmptyString, s)
  end.

Fixpoint all_chars (p : ascii -> bool) (s : string) : bool :=
  match s with
  | EmptyString => true
  | String c s' => p c && all_chars p s'
  end.

(** The line terminators among the Latin-1 code units, which the dot of a
    regular expression does not match. *)
Definition is_line_terminator (c : ascii) : bool :=
  let n := nat_of_ascii c in ((n =? 10) || (n =? 13))%nat.

End Scan.

(* ================================================================= *)
(** ** services/geminiService: sendMessageToGemini *)

Module Gateway.
Import Retry Service Scan.

(** The class [[a-zA-Z0-9\-\.]]. *)
Definition mime_char (c : ascii) : bool :=
  let n := nat_of_ascii c in
  (((97 <=? n) && (n <=? 122)) || ((65 <=? n) && (n <=? 90))
   || ((48 <=? n) && (n <=? 57)) || (n =? 45) || (n =? 46))%nat.

Record InlineData : Type := { data : string; mimeType : string }.

(** The match of [dataUri] against the anchored pattern [data:], a group
    of [image/] and one or more code units of the class, [;base64,], and a
    group of any code units up to the end.  The class stops at the first
    code unit outside it, where [;base64,] has to follow, and the dot runs
    to the end of the text only if no line terminator is met. *)
Definition dataUriToBase64 (dataUri : string) : option InlineData :=
  match strip_prefix "data:image/" dataUri with
  | None => None
  | Some rest =>
      let '(subtype, rest) := span mime_char rest in
      if String.eqb subtype "" then None
      else match strip_prefix ";base64," rest with
           | None => None
           | Some payload =>
               if all_chars (fun c => negb (is_line_terminator c)) payload
               then Some {| data := payload;
                            mimeType := "image/" ++ subtype |}
               else None
           end
  end.

(** What is read of the replies of the three services. *)
Record GenerateImagesResponse : Type := {
  imageBytes : option string   (* generatedImages?.[0]?.image?.imageBytes *)
}.
Record EditResponse : Type := {
  parts : list (option InlineData)   (* candidates?.[0]?.content?.parts *)
}.
Record WebSource : Type := { web_uri : option string; web_title : option string }.
Record ChatResponse : Type := {
  chat_text : option string;
  groundingChunks : option (list (option WebSource))   (* chunk.web *)
}.

(** The two variables of the module. *)
Record Globals : Type := {
  chat : bool;                           (* chat !== null *)
  lastGeneratedImageUrl : option string
}.

(** The host page and the services during one call.  The constructor of
    the client and the two calls of the host page ([hasSelectedApiKey],
    [openSelectKey]) are taken to succeed. *)
Record World : Type := {
  aistudio : bool;                (* typeof window.aistudio !== 'undefined' *)
  hasSelectedApiKey : bool;
  generateImages : string -> nat -> Outcome GenerateImagesResponse;
  editImage : InlineData -> string -> nat -> Outcome EditResponse;
  chatSend : string -> nat -> Outcome ChatResponse
}.

(** What a call does outside the module, in order; [calls] counts the
    attempts of retryOperation. *)
Inductive Effect : Type :=
| KeyChecked
| KeySelectionOpened
| ImagesRequested (prompt : string) (calls : nat)
| EditRequested (image : InlineData) (text : string) (calls : nat)
| ChatCreated
| ChatSent (message : string) (calls : nat).

Definition dq : string := ch 34.

Definition failure (msg : string) : AIChatResponse :=
  {| response_text := None; errorMessage := Some msg; imageUrl := None;
     sources := None |}.

Definition no_prompt_message : string :=
  "Por favor, forne" ++ ch 231 ++ "a um prompt para a imagem. Ex: /imagem um gato no espa"
  ++ ch 231 ++ "o".
Definition select_key_to_generate : string :=
  "Por favor, selecione sua chave de API para gerar imagens e tente novamente.".
Definition select_key_to_edit : string :=
  "Por favor, selecione sua chave de API para editar imagens e tente novamente.".
Definition generated_caption (imagePrompt : string) : string :=
  "Aqui est" ++ ch 225 ++ " a imagem que criei para voc" ++ ch 234
  ++ " com o prompt: " ++ dq ++ imagePrompt ++ dq.
Definition edited_caption : string :=
  "Aqui est" ++ ch 225 ++ " a sua imagem editada!".
Definition not_generated_message : string :=
  "N" ++ ch 227 ++ "o foi poss" ++ ch 237
  ++ "vel gerar a imagem. Tente um prompt diferente.".
Definition not_edited_message : string :=
  "N" ++ ch 227 ++ "o foi poss" ++ ch 237
  ++ "vel editar a imagem. Tente um prompt diferente.".
Definition invalid_image_key_message : string :=
  "Sua chave de API para imagem pode estar inv" ++ ch 225
  ++ "lida. Por favor, selecione-a novamente e tente.".
Definition blocked_message (what : string) : string :=
  "Sua solicita" ++ ch 231 ++ ch 227 ++ "o de " ++ what
  ++ " foi bloqueada devido a pol" ++ ch 237 ++ "ticas de seguran" ++ ch 231
  ++ "a. Por favor, tente um prompt diferente.".
Definition billing_message (what : string) : string :=
  "Esta funcionalidade de " ++ what
  ++ " de imagens requer que o faturamento esteja ativado para sua chave de API. Por favor, verifique a documenta"
  ++ ch 231 ++ ch 227 ++ "o de faturamento: <a href=" ++ dq
  ++ "https://ai.google.dev/gemini-api/docs/billing" ++ dq ++ " target=" ++ dq
  ++ "_blank" ++ dq ++ " rel=" ++ dq ++ "noopener noreferrer" ++ dq
  ++ " class=" ++ dq ++ "underline hover:text-[var(--color-accent)]" ++ dq
  ++ ">ai.google.dev/gemini-api/docs/billing</a>".
Definition generic_image_message (what : string) : string :=
  "Desculpe, houve um erro ao " ++ what
  ++ " a imagem. Por favor, tente novamente.".
Definition unreadable_image_message : string :=
  "Erro ao processar a " ++ ch 250 ++ "ltima imagem para edi" ++ ch 231
  ++ ch 227 ++ "o. Por favor, gere uma nova imagem.".
Definition chat_quota_message : string :=
  "Voc" ++ ch 234 ++ " atingiu o limite de requisi" ++ ch 231 ++ ch 245
  ++ "es da IA (Erro 429). Aguarde um momento e tente novamente.".
Definition invalid_chat_key_message : string :=
  "Sua chave de API para chat pode estar inv" ++ ch 225
  ++ "lida. Por favor, selecione-a novamente e tente.".
Definition oops_message : string :=
  "Oops! Algo deu errado da minha parte. Por favor, tente perguntar novamente.".

Definition is_quota (lower : string) : bool :=
  includes lower "429" || includes lower "quota"
  || includes lower "resource_exhausted".
Definition is_invalid_key (lower : string) : bool :=
  includes lower "requested entity was not found.".
Definition is_blocked (lower : string) : bool :=
  includes lower "blocked" || includes lower "safety policies"
  || includes lower "harmful content".
Definition is_billing (lower : string) : bool :=
  includes lower "imagen api is only accessible to billed users".

Definition open_key_selection (w : World) : list Effect :=
  if aistudio w then [KeySelectionOpened] else [].

(** The [catch] blocks of the two image branches; [noun] and [verb] are
    the words in which their texts differ. *)
Definition image_catch (w : World) (noun_blocked noun_billing verb : string)
    (thrown : Thrown) : Settled AIChatResponse * list Effect :=
  match thrown with
  | ThrownUndefined => (Raised (ThrownError (read_error "undefined" "message")), [])
  | ThrownError error =>
      let lower := errorMessage_of error in
      if is_quota lower then (Fulfilled (failure quota_message), [])
      else if is_invalid_key lower
      then (Fulfilled (failure invalid_image_key_message), open_key_selection w)
      else if is_blocked lower
      then (Fulfilled (failure (blocked_message noun_blocked)), [])
      else if is_billing lower
      then (Fulfilled (failure (billing_message noun_billing)), [])
      else (Fulfilled (failure (generic_image_message verb)), [])
  end.

(** The key check before an image call: [Some msg] when the call is given
    up with that message. *)
Definition key_check (w : World) (msg : string)
  : option AIChatResponse * list Effect :=
  if aistudio w then
    if hasSelectedApiKey w then (None, [KeyChecked])
    else (Some (failure msg), [KeyChecked; KeySelectionOpened])
  else (None, []).

(** [chunks?.map(chunk => chunk.web).filter(w => !!w?.uri) ?? []]; a
    missing title is the empty text. *)
Fixpoint web_sources (chunks : list (option WebSource))
  : list GroundingSource :=
  match chunks with
  | [] => []
  | Some {| web_uri := Some (String c u); web_title := t |} :: rest =>
      {| uri := String c u;
         title := match t with Some t => t | None => "" end |}
      :: web_sources rest
  | _ :: rest => web_sources rest
  end.

Definition sendMessageToGemini (w : World) (g : Globals) (message : string)
  : Settled AIChatResponse * Globals * list Effect :=
  match strip_prefix "/imagem " message with
  | Some rest =>
      let imagePrompt := trim rest in
      if String.eqb imagePrompt "" then
        (Fulfilled (failure no_prompt_message), g, [])
      else
        match key_check w select_key_to_generate with
        | (Some given_up, effects) => (Fulfilled given_up, g, effects)
        | (None, effects) =>
            let '(settled, events) :=
              retryOperation (generateImages w imagePrompt) None None in
            let effects :=
              (effects ++ [ImagesRequested imagePrompt (attempts events)])%list in
            match settled with
            | Fulfilled imageResponse =>
                match imageBytes imageResponse with
                | Some (String _ _ as bytes) =>
                    let url := "data:image/jpeg;base64," ++ bytes in
                    (Fulfilled {| response_text :=
                                    Some (generated_caption imagePrompt);
                                  errorMessage := None;
                                  imageUrl := Some url;
                                  sources := None |},
                     {| chat := chat g; lastGeneratedImageUrl := Some url |},
                     effects)
                | _ => (Fulfilled (failure not_generated_message), g, effects)
                end
            | Raised thrown =>
                let '(answer, more) :=
                  image_catch w "imagem" ("gera" ++ ch 231 ++ ch 227 ++ "o")
                              "gerar" thrown in
                (answer, g, (effects ++ more)%list)
            end
        end
  | None =>
      match lastGeneratedImageUrl g with
      | Some (String _ _ as last) =>
          match dataUriToBase64 last with
          | None => (Fulfilled (failure unreadable_image_message), g, [])
          | Some imagePart =>
              match key_check w select_key_to_edit with
              | (Some given_up, effects) => (Fulfilled given_up, g, effects)
              | (None, effects) =>
                  let '(settled, events) :=
                    retryOperation (editImage w imagePart message) None None in
                  let effects :=
                    (effects
                     ++ [EditRequested imagePart message (attempts events)])%list in
                  match settled with
                  | Fulfilled response =>
                      match find (fun p => match p with Some _ => true
                                                      | None => false end)
                                 (parts response) with
                      | Some (Some inline) =>
                          let url := "data:" ++ mimeType inline ++ ";base64,"
                                     ++ data inline in
                          (Fulfilled {| response_text := Some edited_caption;
                                        errorMessage := None;
                                        imageUrl := Some url;
                                        sources := None |},
                           {| chat := chat g;
                              lastGeneratedImageUrl := Some url |},
                           effects)
                      | _ => (Fulfilled (failure not_edited_message), g, effects)
                      end
                  | Raised thrown =>
                      let '(answer, more) :=
                        image_catch w
                          ("edi" ++ ch 231 ++ ch 227 ++ "o de imagem")
                          ("edi" ++ ch 231 ++ ch 227 ++ "o") "editar" thrown in
                      (answer, g, (effects ++ more)%list)
                  end
              end
          end
      | _ =>
          let created := if chat g then [] else [ChatCreated] in
          let '(settled, events) :=
            retryOperation (chatSend w message) None None in
          let effects := (created ++ [ChatSent message (attempts events)])%list in
          let with_chat := {| chat := true;
                              lastGeneratedImageUrl := lastGeneratedImageUrl g |} in
          match settled with
          | Fulfilled response =>
              (Fulfilled {| response_text := chat_text response;
                            errorMessage := None;
                            imageUrl := None;
                            sources :=
                              Some match groundingChunks response with
                                   | Some chunks => web_sources chunks
                                   | None => []
                                   end |},
               with_chat, effects)
          | Raised ThrownUndefined =>
              (Raised (ThrownError (read_error "undefined" "message")),
               with_chat, effects)
          | Raised (ThrownError error) =>
              let lower := errorMessage_of error in
              if is_quota lower
              then (Fulfilled (failure chat_quota_message), with_chat, effects)
              else if is_invalid_key lower
              then (Fulfilled (failure invalid_chat_key_message),
                    {| chat := false;
                       lastGeneratedImageUrl := lastGeneratedImageUrl g |},
                    (effects ++ open_key_selection w)%list)
              else (Fulfilled (failure oops_message), with_chat, effects)
          end
      end
  end.

(** Messages sent one after the other, each in the world of its moment. *)
Fixpoint conversation (g : Globals) (turns : list (World * string))
  : Globals * list Effect :=
  match turns with
  | [] => (g, [])
  | (w, message) :: rest =>
      let '(_, g', effects) := sendMessageToGemini w g message in
      let '(final, more) := conversation g' rest in
      (final, (effects ++ more)%list)
  end.

Definition is_chat_effect (e : Effect) : bool :=
  match e with ChatCreated | ChatSent _ _ => true | _ => false end.

Definition fresh : Globals := {| chat := false; lastGeneratedImageUrl := None |}.

End Gateway.

(* ================================================================= *)
(** ** Sample worlds of the gateway *)

Module Sample3.
Import Retry Service Gateway.

(** A page without the key selection of the host, whose image service
    answers with four bytes and whose editor and chat are overloaded. *)
Definition studio_less : World :=
  {| aistudio := false;
     hasSelectedApiKey := false;
     generateImages := fun _ _ => Resolved {| imageBytes := Some "QUJD" |};
     editImage := fun _ _ _ => Rejected Sample.overloaded;
     chatSend := fun _ _ => Rejected Sample.overloaded |}.

(** A page of the host where no key has been selected. *)
Definition key_missing : World :=
  {| aistudio := true;
     hasSelectedApiKey := false;
     generateImages := fun _ _ => Resolved {| imageBytes := Some "QUJD" |};
     editImage := fun _ _ _ => Rejected Sample.overloaded;
     chatSend := fun _ _ => Rejected Sample.overloaded |}.

(** A page whose chat refuses the key. *)
Definition key_refused : World :=
  {| aistudio := true;
     hasSelectedApiKey := true;
     generateImages := fun _ _ => Resolved {| imageBytes := None |};
     editImage := fun _ _ _ => Rejected Sample.overloaded;
     chatSend := fun _ _ =>
       Rejected (mkError "ApiError"
                         (Some "Requested entity was not found.") (Some 404%Z)) |}.

Definition with_image : Globals :=
  {| chat := true;
     lastGeneratedImageUrl := Some "data:image/jpeg;base64,QUJD" |}.

(** The editor answered with a type the module cannot read back. *)
Definition with_unreadable_image : Globals :=
  {| chat := true;
     lastGeneratedImageUrl := Some "data:image/svg+xml;base64,QUJD" |}.

Definition small_talk : list (World * string) :=
  [(studio_less, "Oi"); (key_missing, "mais azul"); (studio_less, "/imagem gato")].

End Sample3.

(* ================================================================= *)
(** ** Readings of the gateway *)

Module GatewayReadings.
Import Gateway.

(** No key selection stands in the way of an image call: the page has
    none, or a key is selected. *)
Definition key_available (w : World) : bool :=
  negb (aistudio w) || hasSelectedApiKey w.

Definition is_image_call (e : Effect) : bool :=
  match e with
  | ImagesRequested _ _ | EditRequested _ _ _ => true
  | _ => false
  end.

(** The failure the chat is dropped for: an invalid key, and no quota
    marker before it. *)
Definition drops_chat (error : JsError) : bool :=
  negb (is_quota (Retry.errorMessage_of error))
  && is_invalid_key (Retry.errorMessage_of error).

End GatewayReadings.

(* ================================================================= *)
(** ** components/Message: the parts and the renderers of a message *)

Module MessageView.
Import Scan.

Inductive ParsedPart : Type :=
| TextPart (content : string)
| CodePart (lang content : string).

Definition fence : string := "```".

Definition not_space (c : ascii) : bool := negb (is_whitespace c).

(** What follows the last line feed of [blank], if it has one. *)
Fixpoint after_last_newline (blank : string) : option string :=
  match blank with
  | EmptyString => None
  | String c rest =>
      match after_last_newline rest with
      | Some indent => Some indent
      | None => if Ascii.eqb c (ascii_of_nat 10) then Some rest else None
      end
  end.

(** codeBlockRegex tried at the start of [s]: a fence, a greedy run of
    code units that are no white space (group 1), a greedy run of white
    space given back as far as its last line feed, and the shortest text
    up to the next fence (group 2).  The result is the two groups and the
    text after the match.  Giving back more of either run cannot help: the
    white space holds no fence, and after a shorter first group no white
    space and no line feed can follow. *)
Definition match_here (s : string) : option (string * string * string) :=
  match strip_prefix fence s with
  | None => None
  | Some after =>
      let '(lang, after) := span not_space after in
      let '(blank, after) := span is_whitespace after in
      match after_last_newline blank with
      | None => None
      | Some indent =>
          match split_on fence (indent ++ after) with
          | None => None
          | Some (content, rest) => Some (lang, content, rest)
          end
      end
  end.

(** [codeBlockRegex.exec(text)], [s] being the text from [lastIndex] on:
    the match at the leftmost place where there is one.  The result is the
    text between [lastIndex] and the match, the two groups, and the text
    after the match. *)
Fixpoint exec (s : string) : option (string * string * string * string) :=
  match match_here s with
  | Some (lang, content, rest) => Some (EmptyString, lang, content, rest)
  | None =>
      match s with
      | EmptyString => None
      | String c s' =>
          match exec s' with
          | Some (before, lang, content, rest) =>
              Some (String c before, lang, content, rest)
          | None => None
          end
      end
  end.

Definition code_part (lang content : string) : ParsedPart :=
  CodePart (or_else (Some (toLowerCase lang)) "plaintext") (trim content).

(** The [while] loop of the parser and the [if] after it, [s] being the
    text from [lastIndex] on.  A match is never empty, so the loop makes
    no more rounds than the text has code units. *)
Fixpoint parse_loop (rounds : nat) (s : string) : list ParsedPart :=
  match exec s with
  | Some (before, lang, content, rest) =>
      ((if String.eqb before "" then [] else [TextPart (trim before)])
       ++ code_part lang content
          :: match rounds with
             | 0 => []
             | S rounds => parse_loop rounds rest
             end)%list
  | None => if String.eqb s "" then [] else [TextPart (trim s)]
  end.

Definition parts (text : string) : list ParsedPart :=
  parse_loop (String.length text) text.

(** [parsedParts] of the memo, lines 199-223. *)
Definition parsedParts (text : string) : list ParsedPart :=
  if String.eqb text "" then []
  else match parts text with
       | [] => [TextPart text]
       | (_ :: _) as found => found
       end.

(** [allCodeParts]: the language and the content of each code part. *)
Fixpoint allCodeParts (finalParts : list ParsedPart) : list (string * string) :=
  match finalParts with
  | [] => []
  | CodePart lang content :: rest => (lang, content) :: allCodeParts rest
  | TextPart _ :: rest => allCodeParts rest
  end.

(** A unit of one of the eight numbered kinds; the field that holds the
    code has a name of its own in each kind. *)
Record RenderUnit : Type := {
  unit_id : string;
  unit_lang : string;
  unit_content : string
}.

(** The text of an index in a template literal. *)
Definition decimal (n : nat) : string :=
  NilEmpty.string_of_uint (Nat.to_uint n).

(** [.map((p, index) => ...)] with the id [tag-id-index]. *)
Fixpoint number_from (index : nat) (tag message_id : string)
    (selected : list (string * string)) : list RenderUnit :=
  match selected with
  | [] => []
  | (lang, content) :: rest =>
      {| unit_id := tag ++ "-" ++ message_id ++ "-" ++ decimal index;
         unit_lang := lang;
         unit_content := content |}
      :: number_from (S index) tag message_id rest
  end.

Definition units_of (tag : string) (select : string -> bool)
    (message_id : string) (code : list (string * string)) : list RenderUnit :=
  number_from 0 tag message_id (filter (fun p => select (fst p)) code).

Definition contents_of (select : string -> bool)
    (code : list (string * string)) : string :=
  join (nl ++ nl) (map snd (filter (fun p => select (fst p)) code)).

Record WebRenderUnit : Type := { html : string; css : string; js : string }.

Record Units : Type := {
  webUnit : option WebRenderUnit;
  jsUnit : option string;
  jsonUnits : list RenderUnit;
  pythonUnits : list RenderUnit;
  cobolUnits : list RenderUnit;
  juliaUnits : list RenderUnit;
  telnetUnits : list RenderUnit;
  frameworkUnits : list RenderUnit;
  cUnits : list RenderUnit;
  rntUnits : list RenderUnit
}.

Definition is_framework (lang : string) : bool :=
  String.eqb lang "flask" || String.eqb lang "django" || String.eqb lang "php".
Definition is_c (lang : string) : bool :=
  String.eqb lang "c" || String.eqb lang "cpp" || String.eqb lang "c++".

(** The units of the memo, lines 226-306, for a message with the id
    [message_id] and the text [text]. *)
Definition units (message_id text : string) : Units :=
  let code := allCodeParts (parsedParts text) in
  let html := contents_of (String.eqb "html") code in
  let css := contents_of (String.eqb "css") code in
  let js := contents_of (fun lang => String.eqb lang "javascript"
                                     || String.eqb lang "js") code in
  let web := negb (String.eqb html "") || negb (String.eqb css "") in
  {| webUnit := if web then Some {| html := html; css := css; js := js |}
                else None;
     jsUnit := if web then None
               else if String.eqb js "" then None else Some js;
     jsonUnits := units_of "json" (String.eqb "json") message_id code;
     pythonUnits := units_of "python" (String.eqb "python") message_id code;
     cobolUnits := units_of "cobol" (String.eqb "cobol") message_id code;
     juliaUnits := units_of "julia" (String.eqb "julia") message_id code;
     telnetUnits := units_of "telnet" (String.eqb "telnet") message_id code;
     frameworkUnits := units_of "framework" is_framework message_id code;
     cUnits := units_of "c-cpp" is_c message_id code;
     rntUnits := units_of "rnt" (String.eqb "rnt") message_id code |}.

(** The keys of [renderingState] that the buttons of a message toggle. *)
Definition button_keys (u : Units) : list string :=
  ((match webUnit u with Some _ => ["web"] | None => [] end)
   ++ (match jsUnit u with Some _ => ["js"] | None => [] end)
   ++ map unit_id (jsonUnits u) ++ map unit_id (pythonUnits u)
   ++ map unit_id (cobolUnits u) ++ map unit_id (juliaUnits u)
   ++ map unit_id (telnetUnits u) ++ map unit_id (frameworkUnits u)
   ++ map unit_id (cUnits u) ++ map unit_id (rntUnits u))%list.

(** [renderingState]: a key that is missing reads as [undefined], which
    is falsy, and only the truth of a flag is ever read. *)
Definition RenderingState : Type := string -> bool.

Definition nothing_rendered : RenderingState := fun _ => false.

Definition toggleRenderer (id : string) (prev : RenderingState)
  : RenderingState :=
  fun key => if String.eqb key id then negb (prev id) else prev key.

(** A piece of a text as it is written, and the part it is shown as. *)
Inductive Segment : Type :=
| Plain (raw : string)
| Block (lang blank content : string).

Definition written (segment : Segment) : string :=
  match segment with
  | Plain raw => raw
  | Block lang blank content => fence ++ lang ++ blank ++ content ++ fence
  end.

Definition shown (segment : Segment) : ParsedPart :=
  match segment with
  | Plain raw => TextPart (trim raw)
  | Block lang _ content => code_part lang content
  end.

Fixpoint text_of (segments : list Segment) : string :=
  match segments with
  | [] => EmptyString
  | segment :: rest => written segment ++ text_of rest
  end.

Definition ends_with_newline (blank : string) : bool :=
  match after_last_newline blank with
  | Some EmptyString => true
  | _ => false
  end.

(** A plain piece is not empty and the pattern matches nowhere in it; in
    a block the language holds no white space, white space that ends in a
    line feed follows it, and the content holds no fence. *)
Definition well_formed (segment : Segment) : bool :=
  match segment with
  | Plain raw =>
      negb (String.eqb raw "")
      && match exec raw with Some _ => false | None => true end
  | Block lang blank content =>
      all_chars not_space lang && all_chars is_whitespace blank
      && ends_with_newline blank && negb (includes content fence)
  end.

End MessageView.

(* ================================================================= *)
(** ** services/geminiService: simulateCobolExecution, simulateCExecution *)

Module Compilers.
Import Retry Service.

(** ['c' | 'cpp'] *)
Inductive Language : Type := LangC | LangCpp.

(** The contents of a request: the template of the function, with the
    code and, for C, with the language. *)
Inductive CompilerPrompt : Type :=
| CobolPrompt (cobolCode : string)
| CPrompt (language : Language) (code : string).

Definition cobol_failure_message : string :=
  "Desculpe, houve um erro ao simular a execu" ++ ch 231 ++ ch 227
  ++ "o do COBOL.".
Definition c_failure_message : string :=
  "Desculpe, houve um erro ao simular a execu" ++ ch 231 ++ ch 227
  ++ "o do c" ++ ch 243 ++ "digo C/C++.".

(** The [catch] block, the same in both functions but for its last
    text; [openSelectKey] of the host page has no effect on what is
    returned. *)
Definition execution_catch (last_resort : string) (thrown : Thrown)
  : Settled AIChatResponse :=
  match errorMessageLower thrown with
  | None => Raised (ThrownError (read_error "undefined" "message"))
  | Some lower =>
      let failure msg :=
        Fulfilled {| response_text := None;
                     errorMessage := Some msg; imageUrl := None;
                     sources := None |} in
      if includes lower "429" || includes lower "quota"
         || includes lower "resource_exhausted"
      then failure quota_message
      else if includes lower "requested entity was not found."
      then failure invalid_key_message
      else failure last_resort
  end.

Section Capabilities.

Variable generateContent
  : CompilerPrompt -> nat -> Outcome GenerateContentResponse.

Definition simulateCobolExecution (cobolCode : string)
  : Settled AIChatResponse * list Event :=
  let '(settled, events) :=
    retryOperation (generateContent (CobolPrompt cobolCode)) None None in
  (match settled with
   | Fulfilled response =>
       Fulfilled {| response_text := text response;
                    errorMessage := None; imageUrl := None;
                    sources := None |}
   | Raised thrown => execution_catch cobol_failure_message thrown
   end, events).

Definition simulateCExecution (code : string) (language : Language)
  : Settled AIChatResponse * list Event :=
  let '(settled, events) :=
    retryOperation (generateContent (CPrompt language code)) None None in
  (match settled with
   | Fulfilled response =>
       Fulfilled {| response_text := text response;
                    errorMessage := None; imageUrl := None;
                    sources := None |}
   | Raised thrown => execution_catch c_failure_message thrown
   end, events).

End Capabilities.

End Compilers.

(* ================================================================= *)
(** ** components/CRenderer *)

Module CRenderer.
Import Retry Service Compilers.

Record State : Type := {
  output : string;
  isExecuting : bool;
  editableCode : string
}.

Definition mount (code : string) : State :=
  {| output := ""; isExecuting := false; editableCode := code |}.

Definition error_heading : string :=
  "### Erro na Simula" ++ ch 231 ++ ch 227 ++ "o" ++ nl ++ nl.
Definition no_output_text : string :=
  "A simula" ++ ch 231 ++ ch 227 ++ "o n" ++ ch 227
  ++ "o produziu nenhuma sa" ++ ch 237 ++ "da.".

(** runSimulation from the moment simulateCExecution has settled; the
    state it resumes in has [output] reset. *)
Definition runSimulation (st : State) (settled : Settled AIChatResponse)
  : State :=
  let finish (output : string) :=
    {| output := output; isExecuting := false;
       editableCode := editableCode st |} in
  match settled with
  | Raised (ThrownError e) =>
      finish (error_heading
              ++ match message e with Some m => m | None => "undefined" end)
  | Raised ThrownUndefined =>
      (* reading [e.message] throws inside [catch]; [finally] still runs *)
      finish ""
  | Fulfilled response =>
      match errorMessage response with
      | Some (String _ _ as msg) => finish (error_heading ++ msg)
      | _ => finish (or_else (response_text response) no_output_text)
      end
  end.

(** A press of the button, from the call of the service to the end. *)
Definition compile_and_run
    (generateContent : CompilerPrompt -> nat -> Outcome GenerateContentResponse)
    (language : Language) (st : State) : State :=
  runSimulation st
    (fst (simulateCExecution generateContent (editableCode st) language)).

End CRenderer.

(* ================================================================= *)
(** ** components/FrameworkRenderer *)

Module FrameworkRenderer.
Import Retry Service.

Inductive Tab : Type := TabPreview | TabCode | TabLogs.

Record State : Type := {
  activeTab : Tab;
  currentPath : string;
  editableCode : string;
  serverOutput : string;
  renderedHtml : Json.value;
  isLoading : bool
}.

(** What a suspended handleRequest has called the service with: the code
    and the route of the render its closure comes from, and the framework
    of the properties. *)
Record Request : Type := {
  code_sent : string;
  framework_sent : string;
  route_sent : string
}.

(** The component and the calls of handleRequest that are suspended at
    their [await], in the order they were made. *)
Record Session : Type := {
  component : State;
  pending : list Request
}.

Definition waiting_page : string :=
  "<div style=" ++ ch 34
  ++ "display:flex;justify-content:center;align-items:center;height:100%;color:#666;"
  ++ ch 34 ++ ">Waiting for response...</div>".

(** The state of the first render. *)
Definition first_render (code : string) : State :=
  {| activeTab := TabPreview;
     currentPath := "/";
     editableCode := code;
     serverOutput := "Server started..." ++ nl ++ "Waiting for requests...";
     renderedHtml := JString waiting_page;
     isLoading := false |}.

(** handleRequest up to its [await]: the state, and what the service is
    called with. *)
Definition handleRequest (framework : string) (st : State)
  : State * Request :=
  ({| activeTab := TabPreview;
      currentPath := currentPath st;
      editableCode := editableCode st;
      serverOutput := serverOutput st;
      renderedHtml := renderedHtml st;
      isLoading := true |},
   {| code_sent := editableCode st; framework_sent := framework;
      route_sent := currentPath st |}).

(** A call of handleRequest in a session. *)
Definition call (framework : string) (s : Session) : Session :=
  let '(loading, request) := handleRequest framework (component s) in
  {| component := loading; pending := (pending s ++ [request])%list |}.

(** The component after its first render: the effect of the mount has
    called handleRequest. *)
Definition mount (framework code : string) : Session :=
  call framework {| component := first_render code; pending := [] |}.

Definition with_path (st : State) (path : string) : State :=
  {| activeTab := activeTab st;
     currentPath := path;
     editableCode := editableCode st;
     serverOutput := serverOutput st;
     renderedHtml := renderedHtml st;
     isLoading := isLoading st |}.

Definition with_code (st : State) (code : string) : State :=
  {| activeTab := activeTab st;
     currentPath := currentPath st;
     editableCode := code;
     serverOutput := serverOutput st;
     renderedHtml := renderedHtml st;
     isLoading := isLoading st |}.

Definition with_tab (st : State) (tab : Tab) : State :=
  {| activeTab := tab;
     currentPath := currentPath st;
     editableCode := editableCode st;
     serverOutput := serverOutput st;
     renderedHtml := renderedHtml st;
     isLoading := isLoading st |}.

(** What happens to the component, one event at a time: the Go button is
    clicked, which it ignores while it is disabled by [isLoading]; Enter is
    pressed in the address bar, which nothing disables; the address is
    edited; the code is edited, in the editor that the code tab shows; a
    tab is chosen; or the call number [k] among the suspended ones gets its
    answer, the generation service having behaved as [service] says. *)
Inductive Action : Type :=
| PressGo
| PressEnter
| EditPath (path : string)
| EditCode (code : string)
| ShowTab (tab : Tab)
| Settles (k : nat)
          (service : Prompt -> nat -> Outcome GenerateContentResponse).

Definition is_code_tab (tab : Tab) : bool :=
  match tab with TabCode => true | _ => false end.

Section Renderer.

(** The text that the [+] of JavaScript makes of a value. *)
Variable ToString : Json.value -> string.

(** The builtin [JSON.parse]. *)
Variable JSON_parse : string -> JsError + Json.value.

(** handleRequest after its [await]; the handler has no [catch], so that
    nothing is set when the call is rejected. *)
Definition handleRequest_resume (st : State)
    (settled : Settled FrameworkResult) : State :=
  match settled with
  | Fulfilled result =>
      {| activeTab := activeTab st;
         currentPath := currentPath st;
         editableCode := editableCode st;
         serverOutput := serverOutput st ++ nl ++ ToString (logs result);
         renderedHtml := Service.output result;
         isLoading := false |}
  | Raised _ => st
  end.

Definition step (framework : string) (s : Session) (a : Action) : Session :=
  match a with
  | PressGo => if isLoading (component s) then s else call framework s
  | PressEnter => call framework s
  | EditPath path =>
      {| component := with_path (component s) path; pending := pending s |}
  | EditCode code =>
      if is_code_tab (activeTab (component s))
      then {| component := with_code (component s) code;
              pending := pending s |}
      else s
  | ShowTab tab =>
      {| component := with_tab (component s) tab; pending := pending s |}
  | Settles k service =>
      match nth_error (pending s) k with
      | None => s
      | Some request =>
          {| component :=
               handleRequest_resume (component s)
                 (fst (simulateFrameworkExecution service JSON_parse
                         (code_sent request) (framework_sent request)
                         (route_sent request)));
             pending := (firstn k (pending s)
                         ++ skipn (S k) (pending s))%list |}
      end
  end.

Definition run (framework : string) (s : Session) (actions : list Action)
  : Session :=
  fold_left (step framework) actions s.

(** What a run keeps true: a component that shows the loading bar waits
    for an answer, the page is a truthy value, and the log starts with
    its first two lines. *)
Definition steady (s : Session) : Prop :=
  (isLoading (component s) = true -> pending s <> [])
  /\ truthy (renderedHtml (component s)) = true
  /\ exists more,
       serverOutput (component s)
       = "Server started..." ++ nl ++ "Waiting for requests..." ++ more.

End Renderer.

End FrameworkRenderer.

(* ================================================================= *)
(** ** Sample messages and pages *)

Module Sample4.
Import MessageView.

(** Two JSON documents and a script, each in a fence of its own. *)
Definition three_blocks : string :=
  "```json" ++ nl ++ "{}```" ++ "```json" ++ nl ++ "[]```"
  ++ "```JS" ++ nl ++ " x = 1 " ++ nl ++ "```".

Definition plain_text : string := "  Oi, tudo bem?  ".

End Sample4.

(* ================================================================= *)
(** ** The chat and its gateway together *)

Module ChatGateway.
Import Retry Service Gateway.

(** A call of sendMessage of the hook from the press of the button to the
    end, with the gateway in between; [asked] and [answered] are the two
    readings of the clock. *)
Definition exchange (asked answered : Z) (w : World) (g : Globals)
    (st : Chat.State) (inputText : string) : Chat.State * Globals :=
  match Chat.sendMessage asked st inputText with
  | Returned unchanged => (unchanged, g)
  | Awaiting waiting request =>
      let '(settled, g', _) := sendMessageToGemini w g request in
      (Chat.sendMessage_resume answered waiting inputText settled, g')
  end.

(** What the gateway answers [message] with when it answers with an
    image: no error message, the very image it keeps for the next edit,
    and a caption of its own, for a generated image or for an edited
    one. *)
Definition image_answer (message : string) (answer : AIChatResponse)
    (g' : Globals) : Prop :=
  match imageUrl answer with
  | Some url =>
      url <> "" /\ errorMessage answer = None
      /\ lastGeneratedImageUrl g' = Some url
      /\ response_text answer
         = Some match strip_prefix "/imagem " message with
                | Some rest => generated_caption (trim rest)
                | None => edited_caption
                end
  | None => True
  end.

End ChatGateway.

(* ================================================================= *)
(** * Properties *)

(** ** Strings *)

Module JsStringFacts.

Lemma append_assoc (a b c : string) : (a ++ b) ++ c = a ++ (b ++ c).
Proof. induction a as [|x a IH]; simpl; [reflexivity | now rewrite IH]. Qed.

Lemma append_nil_r (a : string) : a ++ "" = a.
Proof. induction a as [|x a IH]; simpl; [reflexivity | now rewrite IH]. Qed.

Lemma length_append (a b : string) :
  String.length (a ++ b) = String.length a + String.length b.
Proof. induction a as [|x a IH]; simpl; [reflexivity | now rewrite IH]. Qed.

Lemma strip_prefix_append (p rest : string) :
  strip_prefix p (p ++ rest) = Some rest.
Proof.
  induction p as [|x p IH]; simpl; [reflexivity|].
  now rewrite Ascii.eqb_refl.
Qed.

Lemma strip_prefix_sound (p s rest : string) :
  strip_prefix p s = Some rest -> s = p ++ rest.
Proof.
  revert s; induction p as [|x p IH]; intros s H; simpl in *.
  - now inversion H.
  - destruct s as [|y s]; [discriminate|].
    destruct (Ascii.eqb x y) eqn:E; [|discriminate].
    apply Ascii.eqb_eq in E; subst y.
    now rewrite (IH _ H).
Qed.

(** A longer pattern is no prefix where a shorter one is none. *)
Lemma strip_prefix_longer (p q s : string) :
  strip_prefix p s = None -> strip_prefix (p ++ q) s = None.
Proof.
  revert s; induction p as [|x p IH]; intros s H; simpl in *.
  - discriminate.
  - destruct s as [|y s]; [reflexivity|].
    destruct (Ascii.eqb x y); [now apply IH | reflexivity].
Qed.

Lemma split_on_unfold (needle s : string) :
  split_on needle s =
  match strip_prefix needle s with
  | Some rest => Some (EmptyString, rest)
  | None =>
      match s with
      | EmptyString => None
      | String c s' =>
          match split_on needle s' with
          | Some (before, rest) => Some (String c before, rest)
          | None => None
          end
      end
  end.
Proof. destruct s; reflexivity. Qed.

Lemma split_on_sound (needle s before rest : string) :
  split_on needle s = Some (before, rest) -> s = before ++ needle ++ rest.
Proof.
  revert before; induction s as [|c s IH]; intros before H;
    rewrite split_on_unfold in H;
    destruct (strip_prefix needle _) eqn:E.
  - inversion H; subst; simpl. now apply strip_prefix_sound.
  - discriminate.
  - inversion H; subst; simpl. now apply strip_prefix_sound.
  - destruct (split_on needle s) as [[b r]|] eqn:E'; [|discriminate].
    inversion H; subst; simpl. now rewrite (IH b eq_refl).
Qed.

(** The leftmost occurrence of a pattern is also the leftmost occurrence
    of the pattern followed by what follows it there. *)
Lemma split_on_extend (needle s before rest more rest' : string) :
  split_on needle s = Some (before, rest) ->
  rest = more ++ rest' ->
  split_on (needle ++ more) s = Some (before, rest').
Proof.
  intros H ->. revert before H.
  assert (here : forall t r, strip_prefix needle t = Some (more ++ r) ->
                             strip_prefix (needle ++ more) t = Some r).
  { intros t r E. apply strip_prefix_sound in E. subst t.
    rewrite <- append_assoc. apply strip_prefix_append. }
  induction s as [|c s IH]; intros before H;
    rewrite split_on_unfold in H; rewrite split_on_unfold;
    destruct (strip_prefix needle _) eqn:E.
  - inversion H; subst. now rewrite (here _ _ E).
  - discriminate.
  - inversion H; subst. now rewrite (here _ _ E).
  - destruct (split_on needle s) as [[b r]|] eqn:E'; [|discriminate].
    inversion H; subst.
    rewrite (strip_prefix_longer _ more _ E).
    now rewrite (IH b eq_refl).
Qed.

Lemma or_else_nonempty (c : ascii) (s fallback : string) :
  or_else (Some (String c s)) fallback = String c s.
Proof. reflexivity. Qed.

Lemma or_else_empty_fallback (s : string) : or_else (Some s) "" = s.
Proof. now destruct s. Qed.

Lemma strip_prefix_of_prefix (p a b r : string) :
  strip_prefix p a = Some r -> strip_prefix p (a ++ b) = Some (r ++ b).
Proof.
  revert a. induction p as [|x p IH]; intros a H; simpl in *.
  - now inversion H.
  - destruct a as [|y a]; [discriminate|]. simpl.
    destruct (Ascii.eqb x y); [now apply IH | discriminate].
Qed.

(** The text before the leftmost occurrence holds none. *)
Lemma split_on_leftmost (needle s before rest : string) :
  needle <> "" ->
  split_on needle s = Some (before, rest) -> includes before needle = false.
Proof.
  intros Hne. unfold includes.
  revert before. induction s as [|c s IH]; intros before H;
    rewrite split_on_unfold in H;
    destruct (strip_prefix needle _) as [r|] eqn:E.
  - inversion H; subst. destruct needle; [now contradiction Hne | reflexivity].
  - discriminate.
  - inversion H; subst. destruct needle; [now contradiction Hne | reflexivity].
  - destruct (split_on needle s) as [[b r]|] eqn:Es; [|discriminate].
    inversion H; subst. rewrite split_on_unfold.
    destruct (strip_prefix needle (String c b)) as [r'|] eqn:E'.
    + apply split_on_sound in Es. subst s.
      apply (strip_prefix_of_prefix _ _ (needle ++ rest)) in E'.
      simpl in E'. congruence.
    + specialize (IH b eq_refl).
      destruct (split_on needle b) as [[x y]|]; [discriminate | reflexivity].
Qed.

Lemma split_on_complete (needle a b : string) :
  includes (a ++ needle ++ b) needle = true.
Proof.
  unfold includes. induction a as [|c a IH]; simpl append.
  - rewrite split_on_unfold, strip_prefix_append. reflexivity.
  - rewrite split_on_unfold.
    destruct (strip_prefix needle _); [reflexivity|].
    destruct (split_on needle (a ++ needle ++ b)) as [[x y]|];
      [reflexivity | discriminate].
Qed.

Lemma includes_inside (a s b needle : string) :
  includes (a ++ s ++ b) needle = false -> includes s needle = false.
Proof.
  intros H. destruct (includes s needle) eqn:E; [|reflexivity].
  unfold includes in E.
  destruct (split_on needle s) as [[x y]|] eqn:Es; [|discriminate].
  apply split_on_sound in Es. subst s.
  rewrite <- H.
  replace (a ++ (x ++ needle ++ y) ++ b) with ((a ++ x) ++ needle ++ (y ++ b))
    by (now rewrite !append_assoc).
  symmetry. apply split_on_complete.
Qed.

(** Only the grave accent becomes a grave accent in lower case. *)
Lemma lower_char_grave (c : ascii) :
  Ascii.eqb "`" (lower_char c) = true -> c = "`"%char.
Proof.
  destruct c as [[] [] [] [] [] [] [] []]; vm_compute; intros H;
    try discriminate H; reflexivity.
Qed.

(** A prefix matches without regard to case where its letters are those
    of the text in lower case. *)
Lemma strip_prefix_ci_cased (p q s : string) :
  strip_prefix_ci (toLowerCase p ++ q) (p ++ s) = strip_prefix_ci q s.
Proof.
  induction p as [|c p IH]; [reflexivity|].
  cbn [toLowerCase append strip_prefix_ci]. now rewrite Ascii.eqb_refl.
Qed.

(** A text with no fence does not start with one, in any case of the
    letters after it, and does not end with one. *)
Lemma no_fence_no_opener (label s : string) :
  includes s "```" = false -> strip_prefix_ci ("```" ++ label) s = None.
Proof.
  intros H.
  destruct (strip_prefix_ci ("```" ++ label) s) as [rest|] eqn:E;
    [|reflexivity].
  exfalso. destruct s as [|a [|b [|c s]]]; cbn [append strip_prefix_ci] in E;
    try discriminate E.
  - destruct (Ascii.eqb "`" (lower_char a)); discriminate E.
  - destruct (Ascii.eqb "`" (lower_char a)); [|discriminate E].
    destruct (Ascii.eqb "`" (lower_char b)); discriminate E.
  - destruct (Ascii.eqb "`" (lower_char a)) eqn:Ea; [|discriminate E].
    destruct (Ascii.eqb "`" (lower_char b)) eqn:Eb; [|discriminate E].
    destruct (Ascii.eqb "`" (lower_char c)) eqn:Ec; [|discriminate E].
    apply lower_char_grave in Ea, Eb, Ec. subst a b c.
    assert (Hin := split_on_complete "```" "" s).
    cbn [append] in Hin. congruence.
Qed.

Lemma no_fence_no_closer (s : string) :
  includes s "```" = false -> forall body, s <> body ++ "```".
Proof.
  intros H body ->.
  assert (Hin := split_on_complete "```" body "").
  cbn [append] in Hin. congruence.
Qed.

(** Nor does a fence after it make it start with a fence line. *)
Lemma no_fence_no_fence_line (body : string) :
  includes body "```" = false ->
  strip_prefix_ci ("```" ++ nl) (body ++ "```") = None.
Proof.
  intros H.
  destruct (strip_prefix_ci ("```" ++ nl) (body ++ "```")) as [rest|] eqn:E;
    [|reflexivity].
  exfalso. destruct body as [|a [|b [|c body]]].
  - discriminate E.
  - cbn [append strip_prefix_ci nl] in E.
    destruct (Ascii.eqb "`" (lower_char a)); vm_compute in E; discriminate E.
  - cbn [append strip_prefix_ci nl] in E.
    destruct (Ascii.eqb "`" (lower_char a));
      destruct (Ascii.eqb "`" (lower_char b));
      vm_compute in E; discriminate E.
  - rewrite (no_fence_no_opener nl _) in E; [discriminate E|].
    destruct (includes (String a (String b (String c body)) ++ "```") "```")
      eqn:Hin; [|reflexivity].
    exfalso. revert E. cbn [append strip_prefix_ci].
    destruct (Ascii.eqb "`" (lower_char a)) eqn:Ea; [|discriminate].
    destruct (Ascii.eqb "`" (lower_char b)) eqn:Eb; [|discriminate].
    destruct (Ascii.eqb "`" (lower_char c)) eqn:Ec; [|discriminate].
    apply lower_char_grave in Ea, Eb, Ec. subst a b c.
    assert (Hc := split_on_complete "```" "" body).
    cbn [append] in Hc. congruence.
Qed.

End JsStringFacts.

(* ================================================================= *)
(** ** The retry executor *)

Module RetryFacts.
Import Retry.

Lemma attempts_app (l1 l2 : list Event) :
  attempts (l1 ++ l2)%list = attempts l1 + attempts l2.
Proof. unfold attempts. now rewrite filter_app, length_app. Qed.

Lemma delays_app (l1 l2 : list Event) :
  delays (l1 ++ l2)%list = (delays l1 ++ delays l2)%list.
Proof.
  induction l1 as [|e l1 IH]; simpl; [reflexivity|].
  destruct e; simpl; now rewrite IH.
Qed.

Section Run.
Context {T : Type}.
Variable operation : nat -> Outcome T.
Variable maxRetries : nat.
Variable initialDelay : Z.

(** The run of the loop from [attempt]: every attempt before the last
    one is retried, and the last one decides. *)
Lemma retry_loop_run (N : nat) :
  (forall i, i < N -> fails_retryably (operation i) = true) ->
  (N <= maxRetries -> fails_retryably (operation N) = false) ->
  forall more attempt lastError,
    attempt + more = Nat.min N maxRetries ->
    retry_loop operation maxRetries initialDelay
               (S maxRetries - attempt) attempt lastError
    = (settle_of (operation (Nat.min N maxRetries)),
       (flat_map (retried operation maxRetries initialDelay)
                 (seq attempt more)
        ++ [Called (Nat.min N maxRetries)])%list).
Proof.
  intros Hfail Hlast.
  induction more as [|more IH]; intros attempt lastError Hsum.
  - rewrite Nat.add_0_r in Hsum. rewrite <- Hsum.
    replace (S maxRetries - attempt) with (S (maxRetries - attempt)) by lia.
    simpl. destruct (operation attempt) as [value|error] eqn:Hop.
    + reflexivity.
    + assert (Hstop : negb (isRetryable error)
                      || (attempt =? maxRetries)%nat = true).
      { destruct (Nat.le_gt_cases N maxRetries) as [Hle|Hgt].
        - assert (E : N = attempt) by lia.
          specialize (Hlast Hle). rewrite E, Hop in Hlast.
          simpl in Hlast. now rewrite Hlast.
        - assert (E : attempt = maxRetries) by lia.
          apply orb_true_iff. right. apply Nat.eqb_eq. exact E. }
      now rewrite Hstop.
  - assert (HltN : attempt < N) by lia.
    assert (Hltm : attempt < maxRetries) by lia.
    replace (S maxRetries - attempt) with (S (S maxRetries - S attempt)) by lia.
    cbn [retry_loop seq flat_map].
    specialize (Hfail attempt HltN).
    unfold retried at 1.
    destruct (operation attempt) as [value|error] eqn:Hop;
      simpl in Hfail; [discriminate|].
    rewrite Hfail. simpl negb. simpl orb.
    replace (attempt =? maxRetries)%nat with false
      by (symmetry; apply Nat.eqb_neq; lia).
    rewrite (IH (S attempt) (ThrownError error)) by lia.
    reflexivity.
Qed.

Lemma retried_seq (attempt more : nat) :
  (forall i, attempt <= i < attempt + more ->
             fails_retryably (operation i) = true) ->
  attempts (flat_map (retried operation maxRetries initialDelay)
                     (seq attempt more)) = more
  /\ delays (flat_map (retried operation maxRetries initialDelay)
                      (seq attempt more))
     = map (delay_at initialDelay) (seq attempt more).
Proof.
  revert attempt.
  induction more as [|more IH]; intros attempt Hfail; [now split|].
  cbn [seq flat_map map].
  destruct (IH (S attempt)) as [IHa IHd]; [intros i Hi; apply Hfail; lia|].
  rewrite attempts_app, delays_app, IHa, IHd.
  specialize (Hfail attempt ltac:(lia)).
  unfold retried.
  destruct (operation attempt); simpl in Hfail; [discriminate|].
  now split.
Qed.

(** The loop never ends on the [throw lastError] after it. *)
Lemma retry_loop_raises_error (remaining attempt : nat) (lastError : Thrown) :
  0 < remaining \/ lastError <> ThrownUndefined ->
  fst (retry_loop operation maxRetries initialDelay
                  remaining attempt lastError) <> Raised ThrownUndefined.
Proof.
  revert attempt lastError.
  induction remaining as [|remaining IH]; intros attempt lastError H; simpl.
  - destruct H as [H|H]; [lia|]. congruence.
  - destruct (operation attempt) as [value|error]; simpl; [discriminate|].
    destruct (negb (isRetryable error) || (attempt =? maxRetries)%nat);
      simpl; [discriminate|].
    specialize (IH (S attempt) (ThrownError error)
                   ltac:(right; discriminate)).
    destruct (retry_loop _ _ _ _ _ _) as [settled events]. exact IH.
Qed.

End Run.

Lemma delays_increase (initialDelay : Z) (attempt more : nat) :
  (0 < initialDelay)%Z ->
  StronglySorted Z.lt (map (delay_at initialDelay) (seq attempt more)).
Proof.
  intros Hpos. revert attempt.
  induction more as [|more IH]; intros attempt; simpl; constructor.
  - apply IH.
  - apply Forall_forall. intros d Hd.
    apply in_map_iff in Hd. destruct Hd as [i [<- Hi]].
    apply in_seq in Hi. unfold delay_at.
    apply Z.mul_lt_mono_pos_l; [exact Hpos|].
    apply Z.pow_lt_mono_r; lia.
Qed.

Lemma isRetryable_iff (error : JsError) :
  isRetryable error = true <->
  status error = Some 429%Z \/ status error = Some 503%Z
  \/ Exists (fun needle => includes (toLowerCase (or_else (message error) ""))
                                    needle = true)
            ["429"; "503"; "quota"; "resource_exhausted"; "overloaded"].
Proof.
  unfold isRetryable, status_is, errorMessage_of.
  repeat rewrite orb_true_iff.
  repeat rewrite Exists_cons. rewrite Exists_nil.
  destruct (status error) as [s|].
  - repeat rewrite Z.eqb_eq.
    split; intros H; repeat destruct H as [H|H];
      try (left; congruence); try (right; left; congruence);
      try contradiction; try (inversion H; subst; tauto); tauto.
  - split; intros H; repeat destruct H as [H|H];
      try discriminate; try contradiction; tauto.
Qed.

(** C1.  When the first [N] attempts fail with a retryable failure (and
    attempt [N + 1], if it is reached, does not), retryOperation invokes
    the operation min(N+1, maxRetries+1) times and waits
    initialDelay * 2^attempt milliseconds after failed attempt number
    [attempt], before the next one: the run is, for each retried attempt,
    the call, the warning and the wait, and then the last call.  For a
    positive initial delay these waits increase strictly.
    A failure is retryable exactly for status 429 or 503 or a message
    that contains, in any case, one of the five markers; the defaults are
    3 retries and 2000 ms. *)
Theorem retryOperation_attempts_and_backoff :
  forall (T : Type) (operation : nat -> Outcome T)
         (maxRetries : nat) (initialDelay : Z) (N : nat),
    (forall i, i < N -> fails_retryably (operation i) = true) ->
    (N <= maxRetries -> fails_retryably (operation N) = false) ->
    let events :=
      snd (retryOperation operation (Some maxRetries) (Some initialDelay)) in
    attempts events = Nat.min (N + 1) (maxRetries + 1)
    /\ events
       = (flat_map (retried operation maxRetries initialDelay)
                   (seq 0 (attempts events - 1))
          ++ [Called (attempts events - 1)])%list
    /\ delays events
       = map (fun attempt => (initialDelay * 2 ^ Z.of_nat attempt)%Z)
             (seq 0 (attempts events - 1))
    /\ ((0 < initialDelay)%Z -> StronglySorted Z.lt (delays events))
    /\ (forall error, isRetryable error = true <->
          status error = Some 429%Z \/ status error = Some 503%Z
          \/ Exists (fun needle =>
                       includes (toLowerCase (or_else (message error) ""))
                                needle = true)
               ["429"; "503"; "quota"; "resource_exhausted"; "overloaded"])
    /\ retryOperation operation None None
       = retryOperation operation (Some 3) (Some 2000%Z).
Proof.
  intros T operation maxRetries initialDelay N Hfail Hlast events.
  assert (Hrun := retry_loop_run operation maxRetries initialDelay N
                    Hfail Hlast (Nat.min N maxRetries) 0 ThrownUndefined
                    eq_refl).
  rewrite Nat.sub_0_r in Hrun.
  assert (Hev : events
                = (flat_map (retried operation maxRetries initialDelay)
                            (seq 0 (Nat.min N maxRetries))
                   ++ [Called (Nat.min N maxRetries)])%list).
  { subst events. unfold retryOperation. now rewrite Hrun. }
  destruct (retried_seq operation maxRetries initialDelay 0
                        (Nat.min N maxRetries)) as [Ha Hd].
  { intros i Hi. apply Hfail. lia. }
  assert (Hatt : attempts events = Nat.min N maxRetries + 1).
  { rewrite Hev, attempts_app, Ha. reflexivity. }
  assert (Hdel : delays events
                 = map (delay_at initialDelay) (seq 0 (Nat.min N maxRetries))).
  { rewrite Hev, delays_app, Hd. simpl. apply app_nil_r. }
  assert (Hlast_attempt : attempts events - 1 = Nat.min N maxRetries)
    by (rewrite Hatt; lia).
  split; [rewrite Hatt; lia|].
  split; [rewrite Hlast_attempt; exact Hev|].
  split; [rewrite Hdel, Hlast_attempt; reflexivity|].
  split; [intros Hpos; rewrite Hdel; now apply delays_increase|].
  split; [intros error; apply isRetryable_iff | reflexivity].
Qed.

Lemma retryOperation_attempts_and_backoff_witness :
  let events := snd (retryOperation Sample.flaky (Some 3) (Some 2000%Z)) in
  attempts events = 3
  /\ delays events = [2000; 4000]%Z
  /\ StronglySorted Z.lt (delays events).
Proof.
  assert (H1 : forall i, i < 2 ->
                 fails_retryably (Sample.flaky i) = true).
  { intros i Hi. destruct i as [|[|i]]; [reflexivity | reflexivity | lia]. }
  assert (H2 : 2 <= 3 -> fails_retryably (Sample.flaky 2) = false).
  { intros _. reflexivity. }
  destruct (retryOperation_attempts_and_backoff
              string Sample.flaky 3 2000%Z 2 H1 H2) as [Ha [_ [Hd [Hs _]]]].
  split; [exact Ha|]. split; [|apply Hs; lia].
  rewrite Hd, Ha. reflexivity.
Defined.

(** C2.  A failure that is not retryable ends the run at once: at the
    first attempt the operation has been invoked exactly once, nothing is
    waited for, and the promise is rejected with that very failure; the
    same holds at a later attempt.  When every attempt fails retryably,
    the failure of the last attempt, number [maxRetries], is the one
    raised. *)
Theorem retryOperation_propagates_failure :
  forall (T : Type) (operation : nat -> Outcome T)
         (maxRetries : nat) (initialDelay : Z),
    let run :=
      retryOperation operation (Some maxRetries) (Some initialDelay) in
    (forall error,
        operation 0 = Rejected error -> isRetryable error = false ->
        run = (Raised (ThrownError error), [Called 0]))
    /\ (forall N error,
           N <= maxRetries ->
           (forall i, i < N -> fails_retryably (operation i) = true) ->
           operation N = Rejected error -> isRetryable error = false ->
           fst run = Raised (ThrownError error)
           /\ attempts (snd run) = N + 1)
    /\ (forall error,
           (forall i, i <= maxRetries ->
                      fails_retryably (operation i) = true) ->
           operation maxRetries = Rejected error ->
           fst run = Raised (ThrownError error)
           /\ attempts (snd run) = maxRetries + 1).
Proof.
  intros T operation maxRetries initialDelay run.
  assert (general : forall N,
             (forall i, i < N -> fails_retryably (operation i) = true) ->
             (N <= maxRetries -> fails_retryably (operation N) = false) ->
             fst run = settle_of (operation (Nat.min N maxRetries))
             /\ attempts (snd run) = Nat.min N maxRetries + 1).
  { intros N Hfail Hlast.
    assert (Hrun := retry_loop_run operation maxRetries initialDelay N
                      Hfail Hlast (Nat.min N maxRetries) 0 ThrownUndefined
                      eq_refl).
    rewrite Nat.sub_0_r in Hrun.
    subst run. unfold retryOperation. rewrite Hrun. simpl.
    split; [reflexivity|].
    destruct (retried_seq operation maxRetries initialDelay 0
                          (Nat.min N maxRetries)) as [Ha _].
    { intros i Hi. apply Hfail. lia. }
    rewrite attempts_app, Ha. reflexivity. }
  split; [|split].
  - intros error Hop Hnot.
    subst run. unfold retryOperation. simpl. rewrite Hop, Hnot. reflexivity.
  - intros N error HN Hfail Hop Hnot.
    destruct (general N Hfail) as [Hout Hatt].
    { intros _. rewrite Hop. exact Hnot. }
    rewrite Hout, Hatt.
    replace (Nat.min N maxRetries) with N by lia.
    rewrite Hop. split; reflexivity.
  - intros error Hfail Hop.
    destruct (general (S maxRetries)) as [Hout Hatt].
    { intros i Hi. apply Hfail. lia. }
    { lia. }
    rewrite Hout, Hatt.
    replace (Nat.min (S maxRetries) maxRetries) with maxRetries by lia.
    rewrite Hop. split; reflexivity.
Qed.

Lemma retryOperation_propagates_failure_witness :
  retryOperation (fun _ => @Rejected string Sample.invalid_argument)
                 (Some 3) (Some 2000%Z)
  = (Raised (ThrownError Sample.invalid_argument), [Called 0])
  /\ (fst (retryOperation Sample.refused_after_one (Some 3) (Some 2000%Z))
      = Raised (ThrownError Sample.invalid_argument)
      /\ attempts (snd (retryOperation Sample.refused_after_one
                                       (Some 3) (Some 2000%Z))) = 2)
  /\ (fst (retryOperation Sample.always_overloaded (Some 3) (Some 2000%Z))
      = Raised (ThrownError Sample.overloaded)
      /\ attempts (snd (retryOperation Sample.always_overloaded
                                       (Some 3) (Some 2000%Z))) = 4).
Proof.
  split; [|split].
  - apply (retryOperation_propagates_failure
             string (fun _ => Rejected Sample.invalid_argument) 3 2000%Z);
      reflexivity.
  - apply (proj1 (proj2 (retryOperation_propagates_failure
             string Sample.refused_after_one 3 2000%Z)) 1);
      [lia | | reflexivity | reflexivity].
    intros i Hi. destruct i as [|i]; [reflexivity | lia].
  - apply (proj2 (proj2 (retryOperation_propagates_failure
             string Sample.always_overloaded 3 2000%Z)));
      [| reflexivity].
    intros i Hi. reflexivity.
Defined.

End RetryFacts.

(* ================================================================= *)
(** ** White space *)

Module TrimFacts.

Lemma trimEnd_empty (s : string) :
  trimEnd s = "" <-> whitespace_only s = true.
Proof.
  induction s as [|c s IH]; simpl; [tauto|].
  destruct (trimEnd s) eqn:E.
  - destruct (is_whitespace c); simpl.
    + split; intros _; [now apply IH | reflexivity].
    + split; discriminate.
  - split; [discriminate|]. intros H.
    apply andb_true_iff in H. destruct H as [_ H].
    apply IH in H. discriminate.
Qed.

Lemma trimStart_whitespace_only (s : string) :
  whitespace_only (trimStart s) = whitespace_only s.
Proof.
  induction s as [|c s IH]; simpl; [reflexivity|].
  destruct (is_whitespace c) eqn:E; simpl; [exact IH | now rewrite E].
Qed.

(** [!s.trim()] holds exactly for the empty and the blank texts. *)
Lemma trim_empty (s : string) :
  String.eqb (trim s) "" = whitespace_only s.
Proof.
  unfold trim. destruct (whitespace_only s) eqn:E.
  - apply String.eqb_eq, trimEnd_empty.
    now rewrite trimStart_whitespace_only.
  - apply String.eqb_neq. intros H. apply trimEnd_empty in H.
    rewrite trimStart_whitespace_only in H. congruence.
Qed.

Lemma whitespace_is_lower (c : ascii) :
  is_whitespace c = true -> lower_char c = c.
Proof.
  destruct c as [[] [] [] [] [] [] [] []]; vm_compute;
    intros H; solve [reflexivity | discriminate H].
Qed.

(** A text that reads, in lower case, as a word without white space is
    not blank. *)
Lemma lower_word_not_blank (s : string) (c : ascii) (word : string) :
  toLowerCase s = String c word -> is_whitespace c = false ->
  whitespace_only s = false.
Proof.
  destruct s as [|x s]; simpl; [discriminate|].
  intros H Hc. inversion H; subst.
  destruct (is_whitespace x) eqn:E; [|reflexivity].
  rewrite (whitespace_is_lower _ E) in Hc. congruence.
Qed.

End TrimFacts.

(* ================================================================= *)
(** ** The RNT session store *)

Module RNTFacts.
Import RNT.

(** *** Timers *)

Lemma take_due_split (d : nat) (ts : list Timer) (due : Timer)
    (others : list Timer) :
  take_due d ts = Some (due, others) ->
  exists l1 l2, ts = (l1 ++ due :: l2)%list /\ others = (l1 ++ l2)%list.
Proof.
  revert others. induction ts as [|t ts IH]; intros others H; simpl in H.
  - discriminate.
  - destruct (delay t =? d)%nat.
    + inversion H; subst. now exists [], others.
    + destruct (take_due d ts) as [[x rest]|]; [|discriminate].
      inversion H; subst.
      destruct (IH rest eq_refl) as [l1 [l2 [-> ->]]].
      now exists (t :: l1), l2.
Qed.

Lemma min_delay_in (ts : list Timer) (d : nat) :
  min_delay ts = Some d -> exists t, In t ts /\ delay t = d.
Proof.
  revert d. induction ts as [|t ts IH]; intros d H; simpl in H.
  - discriminate.
  - destruct (min_delay ts) as [m|].
    + inversion H; subst.
      destruct (Nat.min_spec (delay t) m) as [[_ E]|[_ E]]; rewrite E.
      * exists t. split; [now left | reflexivity].
      * destruct (IH m eq_refl) as [t' [Hin Hd]].
        exists t'. split; [now right | exact Hd].
    + inversion H; subst. exists t. split; [now left | reflexivity].
Qed.

Lemma take_due_in (d : nat) (ts : list Timer) (t : Timer) :
  In t ts -> delay t = d -> take_due d ts <> None.
Proof.
  induction ts as [|x ts IH]; intros Hin Hd; simpl; [contradiction|].
  destruct (delay x =? d)%nat eqn:E; [discriminate|].
  destruct Hin as [->|Hin].
  - apply Nat.eqb_neq in E. contradiction.
  - specialize (IH Hin Hd).
    destruct (take_due d ts) as [[? ?]|]; [discriminate | contradiction].
Qed.

(** Either no timer is pending, or the earliest one runs. *)
Lemma fire_next_cases (st : State) :
  (timers st = [] /\ fire_next st = None)
  \/ exists d l1 due l2,
       timers st = (l1 ++ due :: l2)%list
       /\ fire_next st
          = Some (run_callback (action due)
                               (with_timers st (let_pass d (l1 ++ l2)%list))).
Proof.
  unfold fire_next.
  destruct (min_delay (timers st)) as [d|] eqn:Hmin.
  - right. destruct (min_delay_in _ _ Hmin) as [t [Hin Hd]].
    destruct (take_due d (timers st)) as [[due others]|] eqn:Htake.
    + destruct (take_due_split _ _ _ _ Htake) as [l1 [l2 [E ->]]].
      now exists d, l1, due, l2.
    + exfalso. now apply (take_due_in d (timers st) t).
  - left. destruct (timers st) as [|t ts]; [now split|].
    simpl in Hmin. destruct (min_delay ts); discriminate.
Qed.

Lemma pending_app (l1 l2 : list Timer) :
  pending (l1 ++ l2)%list = pending l1 + pending l2.
Proof.
  unfold pending. induction l1 as [|t l1 IH]; simpl; [reflexivity|].
  rewrite IH. lia.
Qed.

Lemma pending_let_pass (d : nat) (ts : list Timer) :
  pending (let_pass d ts) = pending ts.
Proof.
  unfold pending, let_pass.
  induction ts as [|t ts IH]; simpl; [reflexivity|]. now rewrite IH.
Qed.

Lemma pending_nil (ts : list Timer) : pending ts = 0 -> ts = [].
Proof.
  destruct ts as [|t ts]; [reflexivity|].
  unfold pending; simpl. unfold weight. destruct (action t); lia.
Qed.

Lemma in_let_pass (d : nat) (ts : list Timer) (t' : Timer) :
  In t' (let_pass d ts) ->
  exists t, In t ts /\ action t' = action t.
Proof.
  unfold let_pass. intros H. apply in_map_iff in H.
  destruct H as [t [<- Hin]]. now exists t.
Qed.

Lemma let_pass_in (d : nat) (ts : list Timer) (t : Timer) :
  In t ts -> exists t', In t' (let_pass d ts) /\ action t' = action t.
Proof.
  intros H. exists {| delay := delay t - d; action := action t |}.
  split; [|reflexivity].
  unfold let_pass. apply in_map_iff. now exists t.
Qed.

(** While only saves are pending, letting them all run changes neither
    the transcript nor the context buffer, and leaves the stored copy of
    the transcript equal to the array the saves carry. *)
Lemma run_timers_saves (saved : list string) :
  forall fuel st,
    only_saves st -> saves_history saved st ->
    pending (timers st) <= fuel ->
    timers (run_timers fuel st) = []
    /\ history (run_timers fuel st) = history st
    /\ contextMessages (run_timers fuel st) = contextMessages st
    /\ rnt_os_history (localStorage (run_timers fuel st))
       = Some (JsonOf saved).
Proof.
  assert (idle : forall st, timers st = [] -> saves_history saved st ->
            rnt_os_history (localStorage st) = Some (JsonOf saved)).
  { intros st E [_ [[t [Hin _]]|H]]; [|exact H].
    rewrite E in Hin. contradiction. }
  induction fuel as [|fuel IH]; intros st Honly Hsaves Hfuel.
  - assert (E : timers st = []) by (apply pending_nil; lia).
    simpl. auto.
  - simpl. destruct (fire_next_cases st) as [[E ->]|[d [l1 [due [l2 [E ->]]]]]].
    + auto.
    + unfold only_saves in Honly. rewrite E in Honly.
      rewrite forallb_app in Honly. simpl in Honly.
      apply andb_true_iff in Honly. destruct Honly as [Hl1 Hrest].
      apply andb_true_iff in Hrest. destruct Hrest as [Hdue Hl2].
      rewrite E, pending_app in Hfuel. simpl in Hfuel.
      assert (Hleft : forallb is_save (let_pass d (l1 ++ l2)%list) = true).
      { apply forallb_forall. intros t' Hin.
        destruct (in_let_pass _ _ _ Hin) as [t [Hint Hact]].
        assert (Hs : is_save t = true).
        { apply in_app_or in Hint. destruct Hint as [Hint|Hint].
          - now apply (proj1 (forallb_forall _ _) Hl1).
          - now apply (proj1 (forallb_forall _ _) Hl2). }
        unfold is_save, is_save_history, is_save_context in *.
        now rewrite Hact. }
      assert (Hcarry : forall t' snapshot,
                 In t' (let_pass d (l1 ++ l2)%list) ->
                 action t' = SaveHistory snapshot -> snapshot = saved).
      { intros t' snapshot Hin Hact.
        destruct (in_let_pass _ _ _ Hin) as [t [Hint Hsame]].
        apply (proj1 Hsaves t); [|congruence].
        rewrite E. apply in_or_app.
        apply in_app_or in Hint. destruct Hint; [now left | right; now right]. }
      assert (Hweight : pending (let_pass d (l1 ++ l2)%list) + weight due
                        = pending l1 + (weight due + pending l2)).
      { rewrite pending_let_pass, pending_app. lia. }
      unfold is_save, is_save_history, is_save_context, weight in Hdue, Hweight, Hfuel.
      destruct (action due) as [snapshot|snapshot|msg|] eqn:Hact;
        simpl in Hdue; try discriminate.
      * assert (snapshot = saved).
        { apply (proj1 Hsaves due); [|exact Hact].
          rewrite E. apply in_or_app. right. now left. }
        subst snapshot.
        destruct (IH (run_callback (SaveHistory saved)
                        (with_timers st (let_pass d (l1 ++ l2)%list))))
          as [H1 [H2 [H3 H4]]].
        -- exact Hleft.
        -- split; [exact Hcarry | now right].
        -- simpl. lia.
        -- auto.
      * destruct (IH (run_callback (SaveContext snapshot)
                        (with_timers st (let_pass d (l1 ++ l2)%list))))
          as [H1 [H2 [H3 H4]]].
        -- exact Hleft.
        -- split; [exact Hcarry|].
           destruct Hsaves as [_ [[t [Hin Ht]]|Hstored]]; [|now right].
           left. rewrite E in Hin.
           assert (Hin' : In t (l1 ++ l2)%list).
           { apply in_app_or in Hin. apply in_or_app.
             destruct Hin as [Hin|[Heq|Hin]]; [now left | | now right].
             subst t. unfold is_save_history in Ht. rewrite Hact in Ht.
             discriminate. }
           destruct (let_pass_in d _ _ Hin') as [t' [Hin'' Hsame]].
           exists t'. split; [exact Hin''|].
           unfold is_save_history in *. now rewrite Hsame.
        -- simpl. lia.
        -- auto.
Qed.


Lemma filter_keeps_saves (f : Timer -> bool) (ts : list Timer) :
  forallb is_save ts = true -> forallb is_save (filter f ts) = true.
Proof.
  intros H. apply forallb_forall. intros t Hin.
  apply filter_In in Hin. destruct Hin as [Hin _].
  now apply (proj1 (forallb_forall _ _) H).
Qed.

Lemma let_pass_keeps_saves (d : nat) (ts : list Timer) :
  forallb is_save ts = true -> forallb is_save (let_pass d ts) = true.
Proof.
  intros H. apply forallb_forall. intros t' Hin.
  destruct (in_let_pass _ _ _ Hin) as [t [Hint Hact]].
  assert (Hs : is_save t = true)
    by now apply (proj1 (forallb_forall _ _) H).
  unfold is_save, is_save_history, is_save_context in *.
  now rewrite Hact.
Qed.

(** A save that runs changes the storage only. *)
Lemma fire_next_only_saves (st st' : State) :
  only_saves st -> fire_next st = Some st' ->
  history st' = history st
  /\ contextMessages st' = contextMessages st
  /\ isProcessing st' = isProcessing st
  /\ only_saves st'.
Proof.
  intros Honly H.
  destruct (fire_next_cases st) as [[_ E]|[d [l1 [due [l2 [E1 E2]]]]]];
    [congruence|].
  rewrite E2 in H. inversion H; subst st'; clear H E2.
  unfold only_saves in Honly. rewrite E1, forallb_app in Honly.
  simpl in Honly. apply andb_true_iff in Honly. destruct Honly as [Hl1 Hrest].
  apply andb_true_iff in Hrest. destruct Hrest as [Hdue Hl2].
  assert (Hleft : forallb is_save (let_pass d (l1 ++ l2)%list) = true).
  { apply let_pass_keeps_saves. rewrite forallb_app.
    now apply andb_true_iff. }
  unfold is_save, is_save_history, is_save_context in Hdue.
  destruct (action due); simpl in Hdue; try discriminate;
    repeat split; exact Hleft.
Qed.

(** *** Clearing and resetting *)




(** Between the reset and the end of its timers the stored transcript is
    written once more, with the lines of the wipe. *)
Remark reset_saves_wipe_lines_meanwhile :
  match handleCommandSubmit (set_input Sample.after_one_command "sys-reset")
  with
  | Returned st1 =>
      rnt_os_history (localStorage (run_timers 1 st1))
      = Some (JsonOf (history Sample.after_one_command
                      ++ ["user@rnt:~$ sys-reset";
                          "Initiating System Wipe...";
                          "Formatting Virtual Drive...";
                          "System Halted."])%list)
  | Awaiting _ _ => False
  end.
Proof. reflexivity. Qed.

(** *** The context buffer *)

Lemma slice_last_length {A : Type} (n : nat) (l : list A) :
  List.length (slice_last n l) = Nat.min n (List.length l).
Proof. unfold slice_last. rewrite length_skipn. lia. Qed.

Lemma slice_last_suffix {A : Type} (n : nat) (l : list A) :
  l = (firstn (List.length l - n) l ++ slice_last n l)%list.
Proof. unfold slice_last. now rewrite firstn_skipn. Qed.

Lemma appendInteraction_fold (pairs : list (string * string)) :
  forall ctx,
    fold_left (fun prev p => appendInteraction prev (fst p) (snd p)) pairs ctx
    = (ctx ++ map pair_of pairs)%list.
Proof.
  induction pairs as [|p pairs IH]; intros ctx; simpl.
  - now rewrite app_nil_r.
  - rewrite IH. unfold appendInteraction. now rewrite <- app_assoc.
Qed.

(** C3, as the code has it.  appendInteraction puts the pair at the end of
    the stored buffer and removes nothing: after any number of calls the
    buffer is the former one followed by all the new pairs, in order, and
    has grown by their number.  The handler stores exactly this.  The
    window applies to the reading [slice(-15)] only, which has at most 15
    entries and is the end of the buffer. *)
Theorem appendInteraction_keeps_every_pair :
  forall (ctx : list ContextMessage) (pairs : list (string * string)),
    let stored :=
      fold_left (fun prev p => appendInteraction prev (fst p) (snd p))
                pairs ctx in
    stored = (ctx ++ map pair_of pairs)%list
    /\ List.length stored = List.length ctx + List.length pairs
    /\ (forall st request response,
           contextMessages (handleCommandSubmit_resume st request response)
           = appendInteraction (contextMessages st) (command request) response)
    /\ List.length (slice_last 15 stored) = Nat.min 15 (List.length stored)
    /\ exists older, stored = (older ++ slice_last 15 stored)%list.
Proof.
  intros ctx pairs stored.
  assert (E : stored = (ctx ++ map pair_of pairs)%list)
    by apply appendInteraction_fold.
  split; [exact E|]. split.
  - now rewrite E, length_app, length_map.
  - split; [reflexivity|]. split; [apply slice_last_length|].
    eexists. apply slice_last_suffix.
Qed.

(** The stored buffer is not bounded by the window: sixteen answered
    commands after a fresh start leave sixteen pairs in it, and the first
    of them is still there. *)
Lemma context_buffer_exceeds_window :
  let st := component (run (start (settle Sample.fresh))
                           Sample.sixteen_commands) in
  mount_default Sample.empty_storage = Rendered Sample.fresh
  /\ st = Sample.sixteen_answered
  /\ List.length (contextMessages st) = 16
  /\ ~ List.length (contextMessages st) <= 15
  /\ hd_error (contextMessages st)
     = Some {| user := "ls"; system := "projetos" |}.
Proof.
  vm_compute. do 3 (split; [reflexivity|]).
  split; [lia | reflexivity].
Qed.

(** The request of a command carries the pairs of [slice(-15)]: the last
    min(15, length) pairs of the buffer, each rendered on two lines, joined
    by line feeds; the older ones are left out. *)
Lemma recentContext_window (st st' : State) (request : Request) :
  handleCommandSubmit st = Awaiting st' request ->
  exists older recent,
    contextMessages st = (older ++ recent)%list
    /\ List.length recent = Nat.min 15 (List.length (contextMessages st))
    /\ List.length recent <= 15
    /\ recentContext request = join nl (map render_pair recent)
    /\ command request = currentInput st.
Proof.
  unfold handleCommandSubmit.
  destruct (String.eqb (trim (currentInput st)) ""); [discriminate|].
  destruct (String.eqb (toLowerCase (currentInput st)) "clear");
    [discriminate|].
  destruct (String.eqb (toLowerCase (currentInput st)) "sys-reset"
            || String.eqb (toLowerCase (currentInput st)) "rnt-reset");
    [discriminate|].
  intros H. inversion H; subst; clear H. cbn [recentContext command].
  exists (firstn (List.length (contextMessages st) - 15) (contextMessages st)),
         (slice_last 15 (contextMessages st)).
  split; [apply slice_last_suffix|].
  rewrite slice_last_length.
  split; [reflexivity|]. split; [lia|]. split; reflexivity.
Qed.

(** *** The boot sequence *)

(** C9.  With the properties of [<RNTRenderer />], the transcript at mount
    is what the storage held.  When it is empty, the six boot lines are
    scheduled 600 ms apart, in their order, and once the timers have run
    the transcript consists of them; when it is not empty, no boot line is
    scheduled and the timers leave the restored transcript as it is. *)
Theorem boot_sequence_iff_empty_transcript :
  forall (storage : LocalStorage) (st : State),
    mount_default storage = Rendered st ->
    load (rnt_os_history storage) = Some (history st)
    /\ (history st = [] ->
        map (fun t => (delay t, action t)) (filter is_boot_line (timers st))
        = [(600, BootLine "Initializing RNT Kernel v1.0.4...");
           (1200, BootLine "Loading Aesthetic Drivers... [OK]");
           (1800, BootLine
                    "Connecting to Jack Brito Neural Network... [CONNECTED]");
           (2400, BootLine "Mounting RNT-Pkg Mirror Nodes... [4 NODES FOUND]");
           (3000, BootLine "Welcome to Referring Node Transmission OS.");
           (3600, BootLine "Type 'help' to begin.")]
        /\ history (settle st)
           = ["Initializing RNT Kernel v1.0.4...";
              "Loading Aesthetic Drivers... [OK]";
              "Connecting to Jack Brito Neural Network... [CONNECTED]";
              "Mounting RNT-Pkg Mirror Nodes... [4 NODES FOUND]";
              "Welcome to Referring Node Transmission OS.";
              "Type 'help' to begin."])
    /\ (history st <> [] ->
        filter is_boot_line (timers st) = []
        /\ history (settle st) = history st).
Proof.
  intros [h c] st. unfold mount_default, mount.
  cbn [rnt_os_history rnt_os_context].
  destruct (load h) as [lines|] eqn:Eh; [|discriminate].
  destruct (load c) as [pairs|]; [|discriminate].
  intros [= <-]. cbn [history first_render].
  split; [reflexivity|].
  destruct lines as [|line lines];
    split; intros H; try discriminate H; try (now contradiction H);
    split; reflexivity.
Qed.

Lemma boot_sequence_iff_empty_transcript_witness :
  (history Sample.fresh = []
   /\ history (settle Sample.fresh)
      = ["Initializing RNT Kernel v1.0.4...";
         "Loading Aesthetic Drivers... [OK]";
         "Connecting to Jack Brito Neural Network... [CONNECTED]";
         "Mounting RNT-Pkg Mirror Nodes... [4 NODES FOUND]";
         "Welcome to Referring Node Transmission OS.";
         "Type 'help' to begin."])
  /\ (history Sample.restored <> []
      /\ filter is_boot_line (timers Sample.restored) = []
      /\ history (settle Sample.restored)
         = ["user@rnt:~$ mkdir projetos"; ""]).
Proof.
  split.
  - split; [reflexivity|].
    apply (proj1 (proj2 (boot_sequence_iff_empty_transcript
                           Sample.empty_storage Sample.fresh eq_refl))).
    reflexivity.
  - assert (Hne : history Sample.restored <> []) by discriminate.
    split; [exact Hne|].
    apply (proj2 (proj2 (boot_sequence_iff_empty_transcript
                           Sample.restored_storage Sample.restored eq_refl))).
    exact Hne.
Defined.

(** The property of the component that no instance in the repository
    sets: with [initialBoot = false] nothing is scheduled. *)
Remark no_boot_when_disabled (storage : LocalStorage) (st : State) :
  mount false storage = Rendered st -> filter is_boot_line (timers st) = [].
Proof.
  unfold mount. destruct (load _); [|discriminate].
  destruct (load _); [|discriminate]. now intros [= <-].
Qed.

End RNTFacts.

(* ================================================================= *)
(** ** The Telnet session and the context of a request *)

Module ContextFacts.
Import JsStringFacts.

Lemma telnet_submit (st st' : Telnet.State) (request : Telnet.Request) :
  Telnet.handleCommandSubmit st = Awaiting st' request ->
  Telnet.newContext request
  = Telnet.sessionContext st ++ nl ++ "User: " ++ Telnet.currentInput st ++ nl
  /\ Telnet.command request = Telnet.currentInput st
  /\ Telnet.sessionContext st' = Telnet.sessionContext st.
Proof.
  unfold Telnet.handleCommandSubmit.
  destruct (String.eqb (trim (Telnet.currentInput st)) ""
            && negb (String.eqb (Telnet.currentInput st) ""));
    [discriminate|].
  destruct (String.eqb (toLowerCase (Telnet.currentInput st)) "exit"
            || String.eqb (toLowerCase (Telnet.currentInput st)) "logout");
    [discriminate|].
  intros H. inversion H; subst. repeat split.
Qed.

Lemma telnet_reaches (st : Telnet.State) (input : string) :
  Telnet.reaches_service input = true ->
  exists st' request,
    Telnet.handleCommandSubmit (Telnet.with_input st input)
    = Awaiting st' request.
Proof.
  unfold Telnet.reaches_service, Telnet.handleCommandSubmit.
  cbn [Telnet.currentInput Telnet.with_input].
  intros H. apply andb_true_iff in H. destruct H as [H1 H2].
  apply negb_true_iff in H1. apply negb_true_iff in H2.
  rewrite H1, H2. eexists. eexists. reflexivity.
Qed.

(** Every exchange of a Telnet session stays in the session context. *)
Lemma telnet_session_context (exchanges : list (string * string)) :
  forall st,
    forallb (fun e => Telnet.reaches_service (fst e)) exchanges = true ->
    Telnet.sessionContext (fst (Telnet.session st exchanges))
    = Telnet.sessionContext st
      ++ String.concat "" (map Telnet.render_exchange exchanges)
    /\ List.length (snd (Telnet.session st exchanges))
       = List.length exchanges.
Proof.
  induction exchanges as [|[input response] rest IH]; intros st Hall.
  - simpl. now rewrite append_nil_r.
  - simpl in Hall. apply andb_true_iff in Hall. destruct Hall as [Hin Hrest].
    destruct (telnet_reaches st input Hin) as [st' [request Hsub]].
    cbn [Telnet.session]. rewrite Hsub.
    destruct (telnet_submit _ _ _ Hsub) as [Hctx [_ _]].
    cbn [Telnet.currentInput Telnet.with_input Telnet.sessionContext] in Hctx.
    specialize (IH (Telnet.handleCommandSubmit_resume st' request response)
                   Hrest).
    destruct (Telnet.session
                (Telnet.handleCommandSubmit_resume st' request response) rest)
      as [final requests].
    cbn [fst snd] in *. destruct IH as [IHc IHl].
    split; [|simpl; now rewrite IHl].
    rewrite IHc. cbn [Telnet.handleCommandSubmit_resume Telnet.sessionContext].
    rewrite Hctx.
    assert (Hconcat : String.concat "" (map Telnet.render_exchange
                                           ((input, response) :: rest))
                      = Telnet.render_exchange (input, response)
                        ++ String.concat "" (map Telnet.render_exchange rest)).
    { cbn [map String.concat]. destruct (map Telnet.render_exchange rest).
      - now rewrite append_nil_r.
      - reflexivity. }
    rewrite Hconcat. unfold Telnet.render_exchange. cbn [fst snd].
    repeat rewrite append_assoc. reflexivity.
Qed.

(** C4, as the code has it.  A request of the RNT component carries the
    last min(15, length) pairs of its context buffer, older pairs being
    left out.  A request of the Telnet component carries the whole
    session context followed by the new command, and every answered
    exchange is appended to the session context: no window applies. *)
Theorem request_context_window :
  (forall (st st' : RNT.State) (request : RNT.Request),
      RNT.handleCommandSubmit st = Awaiting st' request ->
      exists older recent,
        RNT.contextMessages st = (older ++ recent)%list
        /\ List.length recent
           = Nat.min 15 (List.length (RNT.contextMessages st))
        /\ List.length recent <= 15
        /\ RNT.recentContext request
           = join nl (map RNT.render_pair recent))
  /\ (forall (st st' : Telnet.State) (request : Telnet.Request)
             (response : string),
         Telnet.handleCommandSubmit st = Awaiting st' request ->
         Telnet.newContext request
         = Telnet.sessionContext st ++ nl ++ "User: "
           ++ Telnet.currentInput st ++ nl
         /\ Telnet.sessionContext
              (Telnet.handleCommandSubmit_resume st' request response)
            = Telnet.sessionContext st
              ++ Telnet.render_exchange (Telnet.currentInput st, response))
  /\ (forall (st : Telnet.State) (exchanges : list (string * string)),
         forallb (fun e => Telnet.reaches_service (fst e)) exchanges = true ->
         Telnet.sessionContext (fst (Telnet.session st exchanges))
         = Telnet.sessionContext st
           ++ String.concat "" (map Telnet.render_exchange exchanges)).
Proof.
  split; [|split].
  - intros st st' request H.
    destruct (RNTFacts.recentContext_window st st' request H)
      as [older [recent [H1 [H2 [H3 [H4 _]]]]]].
    now exists older, recent.
  - intros st st' request response H.
    destruct (telnet_submit st st' request H) as [Hctx _].
    split; [exact Hctx|].
    cbn [Telnet.handleCommandSubmit_resume Telnet.sessionContext].
    rewrite Hctx. unfold Telnet.render_exchange. cbn [fst snd].
    repeat rewrite append_assoc. reflexivity.
  - intros st exchanges H.
    apply (telnet_session_context exchanges st H).
Qed.

Lemma request_context_window_witness :
  (exists older recent,
      RNT.contextMessages Sample.sixteen_answered = (older ++ recent)%list
      /\ List.length recent = 15
      /\ List.length older = 1)
  /\ Telnet.sessionContext
       (fst (Telnet.session Sample.telnet_connected Sample.telnet_exchanges))
     = Telnet.sessionContext Sample.telnet_connected
       ++ String.concat ""
            (map Telnet.render_exchange Sample.telnet_exchanges).
Proof.
  split.
  - destruct (proj1 request_context_window
                (RNT.set_input Sample.sixteen_answered "pwd") _ _ eq_refl)
      as [older [recent [H1 [H2 _]]]].
    change (RNT.contextMessages (RNT.set_input Sample.sixteen_answered "pwd"))
      with (RNT.contextMessages Sample.sixteen_answered) in H1, H2.
    exists older, recent. split; [exact H1|]. split; [exact H2|].
    assert (Hlen : List.length (RNT.contextMessages Sample.sixteen_answered)
                   = 16) by reflexivity.
    rewrite H1, length_app, H2 in Hlen.
    change (Nat.min 15 (List.length
                          (RNT.contextMessages Sample.sixteen_answered)))
      with 15 in Hlen.
    lia.
  - apply (proj2 (proj2 request_context_window)). reflexivity.
Defined.

(** No window in a Telnet session: the request of the seventeenth command
    carries all sixteen exchanges before it. *)
Lemma telnet_context_exceeds_window :
  let requests :=
    snd (Telnet.session Sample.telnet_connected Sample.telnet_exchanges) in
  let sent := Telnet.newContext (last requests
                                      {| Telnet.req_host := "";
                                         Telnet.newContext := "";
                                         Telnet.command := "" |}) in
  List.length requests = 17
  /\ Telnet.occurrences "System: " sent = 16
  /\ ~ Telnet.occurrences "System: " sent <= 15.
Proof.
  vm_compute. split; [reflexivity|]. split; [reflexivity | lia].
Qed.

End ContextFacts.

(* ================================================================= *)
(** ** The chart block of a Julia reply *)

Module JuliaFacts.
Import JsStringFacts Service Julia.

(** What the regular expression finds: the text before the block, the
    block itself, and the text after it. *)
Lemma plotMatch_decompose (reply whole contents : string) :
  plotMatch reply = Some (whole, contents) ->
  whole = chart_opener ++ contents ++ chart_closer
  /\ exists before after,
       reply = before ++ whole ++ after
       /\ split_on whole reply = Some (before, after).
Proof.
  unfold plotMatch.
  destruct (split_on chart_opener reply) as [[before rest]|] eqn:Hopen;
    [|discriminate].
  destruct (split_on chart_closer rest) as [[inner after]|] eqn:Hclose;
    [|discriminate].
  intros H. inversion H; subst; clear H.
  split; [reflexivity|]. exists before, after.
  assert (Hrest := split_on_sound _ _ _ _ Hclose).
  assert (Hsplit : split_on (chart_opener ++ contents ++ chart_closer) reply
                   = Some (before, after)).
  { apply (split_on_extend _ _ _ _ _ _ Hopen).
    rewrite Hrest. now rewrite append_assoc. }
  split; [|exact Hsplit].
  now apply split_on_sound.
Qed.

Lemma plotMatch_nonempty (reply : string) (found : string * string)
    (fallback : string) :
  plotMatch reply = Some found -> or_else (Some reply) fallback = reply.
Proof.
  destruct reply; [discriminate | reflexivity].
Qed.

(** C6.  Let the reply of a successful Julia simulation contain a chart
    block, as the regular expression of runSimulation finds it.  When its
    contents fail to parse, the displayed text is the whole reply, so the
    text before and after the block with the block between them, followed
    by two line feeds and the notice of the chart failure in square
    brackets; no chart is set and the run ends normally.  When they parse, the displayed text is the reply without
    the block, and the parsed document becomes the chart data. *)
Theorem chart_block_extraction :
  forall (JSON_parse : string -> JsError + Json.value)
         (st : State) (response : AIChatResponse)
         (reply whole contents : string),
    response_text response = Some reply ->
    errorMessage response = None \/ errorMessage response = Some "" ->
    plotMatch reply = Some (whole, contents) ->
    exists before after,
      reply = before ++ whole ++ after
      /\ whole = chart_opener ++ contents ++ chart_closer
      /\ (forall error,
             JSON_parse contents = inl error ->
             let st' :=
               runSimulation JSON_parse st (Retry.Fulfilled response) in
             output st'
             = before ++ whole ++ after ++ nl ++ nl
               ++ "[Erro ao renderizar o gr" ++ ch 225 ++ "fico visualmente]"
             /\ plotData st' = JNull
             /\ isExecuting st' = false)
      /\ (forall json,
             JSON_parse contents = inr json ->
             let st' :=
               runSimulation JSON_parse st (Retry.Fulfilled response) in
             output st' = before ++ after
             /\ plotData st' = json
             /\ isExecuting st' = false).
Proof.
  intros JSON_parse st response reply whole contents Htext Herr Hmatch.
  destruct (plotMatch_decompose _ _ _ Hmatch)
    as [Hwhole [before [after [Hreply Hsplit]]]].
  exists before, after. split; [exact Hreply|]. split; [exact Hwhole|].
  assert (Hdisplay := plotMatch_nonempty reply _ no_output_text Hmatch).
  assert (Hrun : forall st',
             st' = runSimulation JSON_parse st (Retry.Fulfilled response) ->
             st' = let '(displayText, chart) :=
                     extract_chart JSON_parse (Some reply) in
                   {| output := displayText; isExecuting := false;
                      plotData := match chart with
                                  | Some json => json
                                  | None => JNull
                                  end;
                      editableJuliaCode := editableJuliaCode st |}).
  { intros st' ->. unfold runSimulation. rewrite Htext.
    destruct Herr as [-> | ->]; reflexivity. }
  split.
  - intros error Hparse st'. rewrite (Hrun st' eq_refl).
    unfold extract_chart. rewrite Hmatch, Hparse, Hdisplay. simpl.
    split; [|split; reflexivity].
    rewrite Hreply at 1. now repeat rewrite append_assoc.
  - intros json Hparse st'. rewrite (Hrun st' eq_refl).
    unfold extract_chart. rewrite Hmatch, Hparse, Hdisplay. simpl.
    split; [|split; reflexivity].
    unfold replace_first. rewrite Hsplit. reflexivity.
Qed.

Lemma chart_block_extraction_witness :
  (fst (simulateJuliaExecution (Sample.answering Sample.bad_chart_reply)
                               "plot(1:3)")
   = Retry.Fulfilled (Sample.julia_response Sample.bad_chart_reply)
   /\ output (runSimulation Sample.JSON_parse Sample.julia_editor
                (Retry.Fulfilled (Sample.julia_response
                                    Sample.bad_chart_reply)))
      = Sample.bad_chart_reply ++ nl ++ nl
        ++ "[Erro ao renderizar o gr" ++ ch 225 ++ "fico visualmente]")
  /\ exists before after,
       Sample.good_chart_reply
       = before ++ (chart_opener ++ Sample.chart_json ++ chart_closer) ++ after
       /\ output (runSimulation Sample.JSON_parse Sample.julia_editor
                    (Retry.Fulfilled (Sample.julia_response
                                        Sample.good_chart_reply)))
          = before ++ after
       /\ plotData (runSimulation Sample.JSON_parse Sample.julia_editor
                      (Retry.Fulfilled (Sample.julia_response
                                          Sample.good_chart_reply)))
          = JObject [("data", JArray []); ("layout", JObject [])].
Proof.
  split.
  - split; [reflexivity|].
    destruct (chart_block_extraction
                Sample.JSON_parse Sample.julia_editor
                (Sample.julia_response Sample.bad_chart_reply)
                Sample.bad_chart_reply _ _
                eq_refl (or_introl eq_refl) eq_refl)
      as [before [after [Hreply [_ [Hbad _]]]]].
    destruct (Hbad _ eq_refl) as [Hout _].
    rewrite Hout.
    transitivity ((before ++ (chart_opener ++ " " ++ chart_closer)
                   ++ after) ++ chart_failure_notice).
    + now repeat rewrite append_assoc.
    + now rewrite <- Hreply.
  - destruct (chart_block_extraction
                Sample.JSON_parse Sample.julia_editor
                (Sample.julia_response Sample.good_chart_reply)
                Sample.good_chart_reply _ _
                eq_refl (or_introl eq_refl) eq_refl)
      as [before [after [Hreply [_ [_ Hgood]]]]].
    destruct (Hgood _ eq_refl) as [Hout [Hplot _]].
    exists before, after. split; [exact Hreply|]. split; assumption.
Defined.

End JuliaFacts.

(* ================================================================= *)
(** ** The replies of the simulated capabilities *)

Module ServiceFacts.
Import JsStringFacts Retry Service.

Lemma default_retry_raises_error {T : Type} (operation : nat -> Outcome T) :
  fst (retryOperation operation None None) <> Raised ThrownUndefined.
Proof.
  unfold retryOperation.
  apply RetryFacts.retry_loop_raises_error. left. lia.
Qed.

Lemma framework_catch_error (error : JsError) :
  framework_catch (ThrownError error) = Fulfilled quota_result
  \/ framework_catch (ThrownError error)
     = Fulfilled (simulation_failed_result error).
Proof.
  unfold framework_catch, message_includes.
  destruct (message error) as [m|]; [|now right].
  destruct (includes m "429"); [now left | now right].
Qed.

(** The page of the [catch] block for an error object. *)
Lemma framework_catch_page (error : JsError) :
  framework_catch (ThrownError error)
  = Fulfilled
      (if match message error with
          | Some m => includes m "429"
          | None => false
          end
       then
         {| output := JString "<h1>503 Service Unavailable</h1><p>API Quota Exceeded. Please try again later.</p>";
            logs := JString "CRITICAL: API Quota Limit Reached." |}
       else
         {| output :=
              JString "<h1>500 Internal Server Error (Simulation Failed)</h1>";
            logs := JString ("CRITICAL: Simulation failed due to API error: "
                             ++ error_toString error) |}).
Proof.
  unfold framework_catch, message_includes.
  destruct (message error) as [m|]; [|reflexivity].
  destruct (includes m "429"); reflexivity.
Qed.

(** C7, as the code has it.  simulateFrameworkExecution always returns a
    result.  When the reply parses to an object, each of the fields
    responseBody and serverLogs is passed on if it is present and truthy,
    and replaced by its own notice otherwise; a reply that parses to a
    string, a number, a boolean or an array has neither field and gets
    both notices.  When the reply does not parse, or parses to [null], or
    the call has failed, the [catch] block answers: with the quota page
    when the message of the error contains 429, and otherwise with the
    simulation-failed page and a CRITICAL log line that ends with the
    error. *)
Theorem simulateFrameworkExecution_never_throws :
  forall (generateContent : Prompt -> nat -> Outcome GenerateContentResponse)
         (JSON_parse : string -> JsError + Json.value)
         (code framework route : string),
    let reply :=
      fst (retryOperation
             (generateContent (FrameworkPrompt framework code route))
             None None) in
    let settled :=
      fst (simulateFrameworkExecution generateContent JSON_parse
                                      code framework route) in
    let empty_response :=
      JString "<h1>Erro: Resposta vazia do servidor simulado.</h1>" in
    let no_logs := JString "[Error] Failed to parse simulation logs." in
    let caught (error : JsError) :=
      if match message error with
         | Some m => includes m "429"
         | None => false
         end
      then
        {| output := JString "<h1>503 Service Unavailable</h1><p>API Quota Exceeded. Please try again later.</p>";
           logs := JString "CRITICAL: API Quota Limit Reached." |}
      else
        {| output :=
             JString "<h1>500 Internal Server Error (Simulation Failed)</h1>";
           logs := JString ("CRITICAL: Simulation failed due to API error: "
                            ++ error_toString error) |} in
    (exists result, settled = Fulfilled result)
    /\ (forall response fields,
           reply = Fulfilled response ->
           JSON_parse (or_else (text response) "{}") = inr (JObject fields) ->
           settled
           = Fulfilled
               {| output := match assoc "responseBody" fields with
                            | Some body => if truthy body then body
                                           else empty_response
                            | None => empty_response
                            end;
                  logs := match assoc "serverLogs" fields with
                          | Some lines => if truthy lines then lines
                                          else no_logs
                          | None => no_logs
                          end |})
    /\ (forall response parsed,
           reply = Fulfilled response ->
           JSON_parse (or_else (text response) "{}") = inr parsed ->
           parsed <> JNull -> (forall fields, parsed <> JObject fields) ->
           settled
           = Fulfilled {| output := empty_response; logs := no_logs |})
    /\ (forall response,
           reply = Fulfilled response ->
           JSON_parse (or_else (text response) "{}") = inr JNull ->
           settled
           = Fulfilled
               {| output :=
                    JString "<h1>500 Internal Server Error (Simulation Failed)</h1>";
                  logs :=
                    JString "CRITICAL: Simulation failed due to API error: TypeError: Cannot read properties of null (reading 'responseBody')" |})
    /\ (forall response error,
           reply = Fulfilled response ->
           JSON_parse (or_else (text response) "{}") = inl error ->
           settled = Fulfilled (caught error))
    /\ (forall error,
           reply = Raised (ThrownError error) ->
           settled = Fulfilled (caught error)).
Proof.
  intros generateContent JSON_parse code framework route reply settled
         empty_response no_logs caught.
  assert (Hnot := default_retry_raises_error
                    (generateContent (FrameworkPrompt framework code route))).
  fold reply in Hnot.
  assert (Hsettled :
            settled
            = match reply with
              | Fulfilled response =>
                  match extract_framework_result JSON_parse response with
                  | inr result => Fulfilled result
                  | inl error => framework_catch (ThrownError error)
                  end
              | Raised thrown => framework_catch thrown
              end).
  { subst settled reply. unfold simulateFrameworkExecution.
    destruct (retryOperation _ None None) as [s events]. reflexivity. }
  split; [|split; [|split; [|split; [|split]]]].
  - rewrite Hsettled. destruct reply as [response|thrown].
    + destruct (extract_framework_result JSON_parse response) as [error|result].
      * rewrite framework_catch_page. eexists; reflexivity.
      * eexists; reflexivity.
    + destruct thrown as [|error]; [congruence|].
      rewrite framework_catch_page. eexists; reflexivity.
  - intros response fields Hreply Hparse.
    rewrite Hsettled, Hreply. unfold extract_framework_result.
    rewrite Hparse. reflexivity.
  - intros response parsed Hreply Hparse Hnull Hobject.
    rewrite Hsettled, Hreply. unfold extract_framework_result.
    rewrite Hparse.
    destruct parsed; try reflexivity;
      [now contradiction Hnull | now contradiction (Hobject fields)].
  - intros response Hreply Hparse.
    rewrite Hsettled, Hreply. unfold extract_framework_result.
    rewrite Hparse. reflexivity.
  - intros response error Hreply Hparse.
    rewrite Hsettled, Hreply. unfold extract_framework_result.
    rewrite Hparse. apply framework_catch_page.
  - intros error Hreply. rewrite Hsettled, Hreply.
    apply framework_catch_page.
Qed.

Lemma simulateFrameworkExecution_never_throws_witness :
  fst (simulateFrameworkExecution (Sample.answering Sample.body_only_reply)
                                  Sample.JSON_parse "app" "flask" "/")
  = Fulfilled
      {| output := JString "<p>ok</p>";
         logs := JString "[Error] Failed to parse simulation logs." |}
  /\ fst (simulateFrameworkExecution (Sample.answering " ")
                                     Sample.JSON_parse "app" "flask" "/")
     = Fulfilled
         {| output :=
              JString "<h1>500 Internal Server Error (Simulation Failed)</h1>";
            logs :=
              JString "CRITICAL: Simulation failed due to API error: SyntaxError: Unexpected end of JSON input" |}.
Proof.
  split.
  - apply (proj1 (proj2 (simulateFrameworkExecution_never_throws
                           (Sample.answering Sample.body_only_reply)
                           Sample.JSON_parse "app" "flask" "/"))
                 {| text := Some Sample.body_only_reply |}
                 [("responseBody", JString "<p>ok</p>")]);
      reflexivity.
  - apply (proj1 (proj2 (proj2 (proj2 (proj2
             (simulateFrameworkExecution_never_throws
                (Sample.answering " ")
                Sample.JSON_parse "app" "flask" "/")))))
                 {| text := Some " " |}
                 (mkError "SyntaxError"
                          (Some "Unexpected end of JSON input") None));
      reflexivity.
Defined.

(** A reply of one blank holds no JSON document, and a reply [null] has
    no fields to read.  For both the body is the simulation-failed page
    and the log the CRITICAL line with the error, not the two notices of
    the absent fields. *)
Lemma unparseable_reply_gets_the_failure_page :
  let blank :=
    fst (simulateFrameworkExecution (Sample.answering " ")
                                    Sample.JSON_parse "app" "flask" "/") in
  let null :=
    fst (simulateFrameworkExecution (Sample.answering "null")
                                    Sample.JSON_parse "app" "flask" "/") in
  let notices :=
    {| output := JString "<h1>Erro: Resposta vazia do servidor simulado.</h1>";
       logs := JString "[Error] Failed to parse simulation logs." |} in
  Sample.JSON_parse " "
  = inl (mkError "SyntaxError" (Some "Unexpected end of JSON input") None)
  /\ blank
     = Fulfilled
         {| output :=
              JString "<h1>500 Internal Server Error (Simulation Failed)</h1>";
            logs :=
              JString "CRITICAL: Simulation failed due to API error: SyntaxError: Unexpected end of JSON input" |}
  /\ blank <> Fulfilled notices
  /\ Sample.JSON_parse "null" = inr JNull
  /\ null
     = Fulfilled
         {| output :=
              JString "<h1>500 Internal Server Error (Simulation Failed)</h1>";
            logs :=
              JString "CRITICAL: Simulation failed due to API error: TypeError: Cannot read properties of null (reading 'responseBody')" |}
  /\ null <> Fulfilled notices.
Proof.
  vm_compute. split; [reflexivity|]. split; [reflexivity|].
  split; [discriminate|]. split; [reflexivity|].
  split; [reflexivity | discriminate].
Qed.

(** *** Terminal replies *)

Lemma strip_closing_fence_unfold (s : string) :
  strip_closing_fence s
  = if String.eqb s "```" then EmptyString
    else match s with
         | EmptyString => EmptyString
         | String c s' => String c (strip_closing_fence s')
         end.
Proof. destruct s; reflexivity. Qed.

(** A fence at the very end of the text is removed. *)
Lemma strip_closing_fence_append (body : string) :
  strip_closing_fence (body ++ "```") = body.
Proof.
  induction body as [|c body IH]; [reflexivity|].
  rewrite strip_closing_fence_unfold.
  destruct (String.eqb (String c body ++ "```") "```") eqn:E.
  - apply String.eqb_eq in E.
    apply (f_equal String.length) in E.
    rewrite length_append in E. simpl in E. lia.
  - cbn [append]. now rewrite IH.
Qed.

(** A text that does not end with a fence is left as it is. *)
Lemma strip_closing_fence_none (s : string) :
  (forall body, s <> body ++ "```") -> strip_closing_fence s = s.
Proof.
  induction s as [|c s IH]; intros H.
  - reflexivity.
  - rewrite strip_closing_fence_unfold.
    destruct (String.eqb (String c s) "```") eqn:E.
    + apply String.eqb_eq in E. exfalso. apply (H ""). now rewrite E.
    + f_equal. apply IH. intros body Hs. apply (H (String c body)).
      simpl. now rewrite Hs.
Qed.

(** A reply with no fence is only trimmed. *)
Lemma clean_rnt_output_plain (reply : string) :
  includes reply "```" = false -> clean_rnt_output reply = trim reply.
Proof.
  intros H. unfold clean_rnt_output.
  assert (E1 : strip_prefix_ci ("```rnt" ++ nl) reply = None)
    by exact (no_fence_no_opener ("rnt" ++ nl) reply H).
  assert (E2 : strip_prefix_ci ("```" ++ nl) reply = None)
    by exact (no_fence_no_opener nl reply H).
  rewrite E1, E2.
  now rewrite (strip_closing_fence_none reply (no_fence_no_closer reply H)).
Qed.

(** A reply that is one fenced block gives its body, trimmed. *)
Lemma clean_rnt_output_block (opener body : string) :
  opener = "```" \/ toLowerCase opener = "```rnt" ->
  includes body "```" = false ->
  clean_rnt_output (opener ++ nl ++ body ++ "```") = trim body.
Proof.
  intros [-> | Hlabel] Hbody; unfold clean_rnt_output.
  - assert (E1 : strip_prefix_ci ("```rnt" ++ nl)
                                 ("```" ++ nl ++ body ++ "```") = None)
      by reflexivity.
    assert (E2 : strip_prefix_ci ("```" ++ nl)
                                 ("```" ++ nl ++ body ++ "```")
                 = Some (body ++ "```")) by reflexivity.
    rewrite E1, E2. now rewrite strip_closing_fence_append.
  - assert (E1 : strip_prefix_ci ("```rnt" ++ nl)
                                 (opener ++ nl ++ body ++ "```")
                 = Some (body ++ "```")).
    { rewrite <- Hlabel, strip_prefix_ci_cased. reflexivity. }
    rewrite E1, (no_fence_no_fence_line body Hbody).
    now rewrite strip_closing_fence_append.
Qed.

(** C8, as the code has it.  An RNT reply that holds no fence is returned
    trimmed.  An RNT reply that is one fenced block (an opening fence,
    bare or labelled rnt in any letter case, a line feed, a body that
    holds no fence, and a fence at the very end) is returned as its body,
    trimmed.  A Telnet reply is returned as it is.  Both components append
    the returned text to the transcript unchanged. *)
Theorem terminal_reply_cleaning :
  (forall generateContent history newCommand response,
      fst (retryOperation (generateContent (RNTPrompt history newCommand))
                          None None) = Fulfilled response ->
      let reply := or_else (text response) "" in
      let returned :=
        fst (simulateRNTCommand generateContent history newCommand) in
      (includes reply "```" = false -> returned = Fulfilled (trim reply))
      /\ (forall opener body,
             opener = "```" \/ toLowerCase opener = "```rnt" ->
             includes body "```" = false ->
             reply = opener ++ nl ++ body ++ "```" ->
             returned = Fulfilled (trim body)))
  /\ (forall generateContent host history newCommand response reply,
         fst (retryOperation
                (generateContent (TelnetPrompt host history newCommand))
                None None) = Fulfilled response ->
         text response = Some reply ->
         fst (simulateTelnetCommand generateContent host history newCommand)
         = Fulfilled reply)
  /\ (forall st request response,
         RNT.history (RNT.handleCommandSubmit_resume st request response)
         = (RNT.history st ++ [response])%list)
  /\ (forall st request response,
         Telnet.history (Telnet.handleCommandSubmit_resume st request response)
         = (Telnet.history st ++ [response])%list).
Proof.
  split; [|split; [|split]].
  - intros generateContent history newCommand response H reply returned.
    assert (Hreturned : returned = Fulfilled (clean_rnt_output reply)).
    { subst returned reply. unfold simulateRNTCommand.
      destruct (retryOperation _ None None) as [settled events].
      simpl in H. subst settled. reflexivity. }
    rewrite Hreturned. split.
    + intros Hplain. now rewrite clean_rnt_output_plain.
    + intros opener body Hopener Hbody ->.
      now rewrite clean_rnt_output_block.
  - intros generateContent host history newCommand response reply H Htext.
    unfold simulateTelnetCommand.
    destruct (retryOperation _ None None) as [settled events].
    simpl in H. subst settled. cbn [fst].
    now rewrite Htext, or_else_empty_fallback.
  - reflexivity.
  - reflexivity.
Qed.

Lemma terminal_reply_cleaning_witness :
  fst (simulateRNTCommand (Sample.answering Sample.rnt_block_reply) "" "ls")
  = Fulfilled "projetos  main.py"
  /\ fst (simulateRNTCommand (Sample.answering "  projetos ") "" "ls")
     = Fulfilled "projetos"
  /\ fst (simulateTelnetCommand (Sample.answering "  projetos ")
                                "localhost" "" "ls")
     = Fulfilled "  projetos ".
Proof.
  split; [|split].
  - apply (proj2 (proj1 terminal_reply_cleaning
                        (Sample.answering Sample.rnt_block_reply) "" "ls"
                        {| text := Some Sample.rnt_block_reply |} eq_refl)
                 "```RNT" ("projetos  main.py" ++ nl));
      [right; reflexivity | reflexivity | reflexivity].
  - apply (proj1 (proj1 terminal_reply_cleaning
                        (Sample.answering "  projetos ") "" "ls"
                        {| text := Some "  projetos " |} eq_refl)).
    reflexivity.
  - apply (proj1 (proj2 terminal_reply_cleaning)
                 (Sample.answering "  projetos ") "localhost" "" "ls"
                 {| text := Some "  projetos " |} "  projetos " eq_refl).
    reflexivity.
Defined.

(** A Telnet reply keeps its fences and the blanks around it, and so does
    the line the transcript gets. *)
Lemma telnet_reply_keeps_fences :
  let returned :=
    fst (simulateTelnetCommand (Sample.answering Sample.fenced_reply)
                               "localhost" "" "ls") in
  returned = Fulfilled Sample.fenced_reply
  /\ includes Sample.fenced_reply "```" = true
  /\ trim Sample.fenced_reply <> Sample.fenced_reply.
Proof.
  vm_compute. split; [reflexivity|]. split; [reflexivity | discriminate].
Qed.

(** The three patterns are anchored: a closing fence that a line feed
    follows is not at the end of the text. *)
Remark rnt_fence_before_newline_stays :
  clean_rnt_output Sample.fence_then_newline = "projetos" ++ nl ++ "```".
Proof. reflexivity. Qed.

End ServiceFacts.

(* ================================================================= *)
(** ** The chat hook *)

Module ChatFacts.
Import Chat.

(** C10.  sendMessage called with an empty or blank text, or while
    [isLoading] holds, returns at once: the state, and so the list of
    messages, is the one it was called in, and no request to the
    generation service is made.  In every other case the user message is
    appended and exactly the text is sent. *)
Theorem sendMessage_guard :
  forall (now : Z) (st : State) (inputText : string),
    (whitespace_only inputText = true \/ isLoading st = true ->
     sendMessage now st inputText = Returned st)
    /\ (whitespace_only inputText = false -> isLoading st = false ->
        exists st',
          sendMessage now st inputText = Awaiting st' inputText
          /\ messages st'
             = (messages st
                ++ [{| id := IdOfTime now; text := inputText;
                       sender := USER; imageUrl := None;
                       sources := None |}])%list
          /\ isLoading st' = true).
Proof.
  intros now st inputText. unfold sendMessage.
  rewrite TrimFacts.trim_empty. split.
  - intros [H|H]; rewrite H; [reflexivity | now rewrite orb_true_r].
  - intros H1 H2. rewrite H1, H2. simpl.
    eexists. split; [reflexivity|]. split; reflexivity.
Qed.

Lemma sendMessage_guard_witness :
  sendMessage 1700000000000 initial ("  " ++ nl) = Returned initial
  /\ sendMessage 1700000000000 initial "" = Returned initial
  /\ sendMessage 1700000000000 Sample.loading_chat "Oi"
     = Returned Sample.loading_chat.
Proof.
  split; [|split].
  - apply (proj1 (sendMessage_guard 1700000000000 initial ("  " ++ nl))).
    left. reflexivity.
  - apply (proj1 (sendMessage_guard 1700000000000 initial "")).
    left. reflexivity.
  - apply (proj1 (sendMessage_guard 1700000000000 Sample.loading_chat "Oi")).
    right. reflexivity.
Defined.

End ChatFacts.

(* ================================================================= *)
(** ** The RNT store across reloads *)

Module RNTSyncFacts.
Import RNT RNTSync RNTFacts.

Lemma pending_filter_le (f : Timer -> bool) (ts : list Timer) :
  pending (filter f ts) <= pending ts.
Proof.
  unfold pending. induction ts as [|t ts IH]; simpl; [lia|].
  destruct (f t); simpl; lia.
Qed.

Lemma weight_positive (t : Timer) : 1 <= weight t.
Proof. unfold weight. destruct (action t); lia. Qed.

(** Every callback leaves less to run than there was. *)
Lemma fire_next_decreases (st st' : State) :
  fire_next st = Some st' -> pending (timers st') < pending (timers st).
Proof.
  intros H.
  destruct (fire_next_cases st) as [[_ E]|[d [l1 [due [l2 [E1 E2]]]]]];
    [congruence|].
  rewrite E2 in H. inversion H; subst st'; clear H.
  rewrite E1, pending_app. cbn [pending fold_right].
  fold (pending l2).
  assert (Hrest : pending (let_pass d (l1 ++ l2)%list) = pending l1 + pending l2)
    by (now rewrite pending_let_pass, pending_app).
  unfold weight.
  destruct (action due) as [snapshot|snapshot|msg|]; cbn [run_callback].
  - cbn [timers with_storage with_timers]. lia.
  - cbn [timers with_storage with_timers]. lia.
  - cbn [timers history_effect with_history with_timers].
    rewrite pending_app.
    assert (Hle := pending_filter_le (fun t => negb (is_save_history t))
                                     (let_pass d (l1 ++ l2)%list)).
    cbn [pending fold_right weight action]. lia.
  - cbn [timers history_effect with_history with_timers].
    rewrite pending_app.
    assert (Hle := pending_filter_le (fun t => negb (is_save_history t))
                                     (let_pass d (l1 ++ l2)%list)).
    cbn [pending fold_right weight action]. lia.
Qed.

(** Letting the timers run ends: after [settle] none is pending. *)
Lemma run_timers_quiescent :
  forall fuel st, pending (timers st) <= fuel ->
                  timers (run_timers fuel st) = [].
Proof.
  induction fuel as [|fuel IH]; intros st Hfuel.
  - simpl. apply pending_nil. lia.
  - simpl. destruct (fire_next st) as [st'|] eqn:E.
    + apply IH. apply fire_next_decreases in E. lia.
    + destruct (fire_next_cases st) as [[Hnil _]|[d [l1 [due [l2 [_ E2]]]]]];
        [exact Hnil | congruence].
Qed.

Lemma settle_quiescent (st : State) : timers (settle st) = [].
Proof. unfold settle. now apply run_timers_quiescent. Qed.

(** *** The guard of a key *)

Section Guard.
Context {A : Type}.
Variable snapshot_of : TimerAction -> option A.

Lemma guarded_removal (saved : A) (stored : option (Stored A))
    (l1 l2 : list Timer) (due : Timer) (d : nat) :
  guarded snapshot_of saved stored (l1 ++ due :: l2)%list ->
  snapshot_of (action due) = None ->
  guarded snapshot_of saved stored (let_pass d (l1 ++ l2)%list).
Proof.
  intros [Hcarry Hkept] Hdue. split.
  - intros t' snapshot Hin Hsnap.
    destruct (in_let_pass _ _ _ Hin) as [t [Hint Hsame]].
    apply (Hcarry t); [|congruence].
    apply in_or_app. apply in_app_or in Hint.
    destruct Hint; [now left | right; now right].
  - destruct Hkept as [[t [snapshot [Hin Hsnap]]]|Hstored]; [|now right].
    left.
    assert (Hin' : In t (l1 ++ l2)%list).
    { apply in_app_or in Hin. apply in_or_app.
      destruct Hin as [Hin|[Heq|Hin]]; [now left | | now right].
      subst t. congruence. }
    destruct (let_pass_in d _ _ Hin') as [t' [Hin'' Hsame]].
    exists t', snapshot. split; [exact Hin'' | congruence].
Qed.

Lemma guarded_fired (saved : A) (stored : option (Stored A))
    (l1 l2 : list Timer) (due : Timer) (d : nat) (snapshot : A) :
  guarded snapshot_of saved stored (l1 ++ due :: l2)%list ->
  snapshot_of (action due) = Some snapshot ->
  snapshot = saved
  /\ guarded snapshot_of saved (Some (JsonOf snapshot))
             (let_pass d (l1 ++ l2)%list).
Proof.
  intros [Hcarry _] Hdue.
  assert (E : snapshot = saved).
  { apply (Hcarry due); [|exact Hdue]. apply in_or_app. right. now left. }
  split; [exact E|]. split; [|right; now rewrite E].
  intros t' s Hin Hsnap.
  destruct (in_let_pass _ _ _ Hin) as [t [Hint Hsame]].
  apply (Hcarry t); [|congruence].
  apply in_or_app. apply in_app_or in Hint.
  destruct Hint; [now left | right; now right].
Qed.

(** Time that passes leaves the guard alone. *)
Lemma guarded_let_pass (saved : A) (stored : option (Stored A))
    (ts : list Timer) (d : nat) :
  guarded snapshot_of saved stored ts ->
  guarded snapshot_of saved stored (let_pass d ts).
Proof.
  intros [Hcarry Hkept]. split.
  - intros t' snapshot Hin Hsnap.
    destruct (in_let_pass _ _ _ Hin) as [t [Hint Hsame]].
    apply (Hcarry t); [exact Hint | congruence].
  - destruct Hkept as [[t [snapshot [Hin Hsnap]]]|Hstored]; [|now right].
    left. destruct (let_pass_in d _ _ Hin) as [t' [Hin' Hsame]].
    exists t', snapshot. split; [exact Hin' | congruence].
Qed.

(** An effect that runs again replaces the save of its key. *)
Lemma guarded_rescheduled (saved : A) (stored : option (Stored A))
    (keep : Timer -> bool) (ts : list Timer) (a : TimerAction) :
  (forall t, keep t = true -> snapshot_of (action t) = None) ->
  snapshot_of a = Some saved ->
  guarded snapshot_of saved stored
          (filter keep ts ++ [{| delay := 300; action := a |}])%list.
Proof.
  intros Hkeep Ha. split.
  - intros t snapshot Hin Hsnap.
    apply in_app_or in Hin. destruct Hin as [Hin|[<-|[]]].
    + apply filter_In in Hin. destruct Hin as [_ Hk].
      rewrite (Hkeep t Hk) in Hsnap. discriminate.
    + simpl in Hsnap. congruence.
  - left. exists {| delay := 300; action := a |}, saved.
    split; [apply in_or_app; right; now left | exact Ha].
Qed.

(** The effect of the other key leaves the guard alone. *)
Lemma guarded_other_effect (saved : A) (stored : option (Stored A))
    (keep : Timer -> bool) (ts : list Timer) (a : TimerAction) :
  (forall t, snapshot_of (action t) <> None -> keep t = true) ->
  snapshot_of a = None ->
  guarded snapshot_of saved stored ts ->
  guarded snapshot_of saved stored
          (filter keep ts ++ [{| delay := 300; action := a |}])%list.
Proof.
  intros Hkeep Ha [Hcarry Hkept]. split.
  - intros t snapshot Hin Hsnap.
    apply in_app_or in Hin. destruct Hin as [Hin|[<-|[]]].
    + apply filter_In in Hin. destruct Hin as [Hin _].
      now apply (Hcarry t).
    + simpl in Hsnap. congruence.
  - destruct Hkept as [[t [snapshot [Hin Hsnap]]]|Hstored]; [|now right].
    left. exists t, snapshot. split; [|exact Hsnap].
    apply in_or_app. left. apply filter_In. split; [exact Hin|].
    apply Hkeep. congruence.
Qed.

End Guard.

Lemma keeps_no_history_save (t : Timer) :
  negb (is_save_history t) = true -> history_snapshot (action t) = None.
Proof. unfold is_save_history. now destruct (action t). Qed.

Lemma keeps_no_context_save (t : Timer) :
  negb (is_save_context t) = true -> context_snapshot (action t) = None.
Proof. unfold is_save_context. now destruct (action t). Qed.

Lemma history_filter_keeps_context (t : Timer) :
  context_snapshot (action t) <> None -> negb (is_save_history t) = true.
Proof.
  unfold is_save_history.
  destruct (action t); simpl; intros H; try reflexivity; now contradiction H.
Qed.

Lemma context_filter_keeps_history (t : Timer) :
  history_snapshot (action t) <> None -> negb (is_save_context t) = true.
Proof.
  unfold is_save_context.
  destruct (action t); simpl; intros H; try reflexivity; now contradiction H.
Qed.

(** After the effect of the transcript has run, the transcript is guarded;
    the guard of the context buffer is as before. *)
Lemma history_effect_in_sync (st : State) :
  guarded context_snapshot (contextMessages st)
          (rnt_os_context (localStorage st)) (timers st) ->
  in_sync (history_effect st).
Proof.
  intros Hctx. split; cbn [history_effect history contextMessages
                            localStorage timers].
  - apply guarded_rescheduled; [apply keeps_no_history_save | reflexivity].
  - apply guarded_other_effect;
      [apply history_filter_keeps_context | reflexivity | exact Hctx].
Qed.

Lemma both_effects_in_sync (st : State) :
  in_sync (context_effect (history_effect st)).
Proof.
  split; cbn [context_effect history_effect history contextMessages
              localStorage timers].
  - apply guarded_other_effect;
      [apply context_filter_keeps_history | reflexivity |].
    apply guarded_rescheduled; [apply keeps_no_history_save | reflexivity].
  - apply guarded_rescheduled; [apply keeps_no_context_save | reflexivity].
Qed.

Lemma first_render_in_sync (initialBoot : bool) (storage : LocalStorage)
    (lines : list string) (pairs : list ContextMessage) :
  in_sync (first_render initialBoot storage lines pairs).
Proof.
  assert (boot : forall a delay msgs t,
             In t (schedule_boot delay msgs) ->
             history_snapshot (action t) = Some a -> False).
  { intros a delay msgs. revert delay.
    induction msgs as [|m msgs IH]; intros delay t Hin Hs; [contradiction|].
    destruct Hin as [<-|Hin]; [discriminate | exact (IH _ _ Hin Hs)]. }
  assert (boot' : forall a delay msgs t,
             In t (schedule_boot delay msgs) ->
             context_snapshot (action t) = Some a -> False).
  { intros a delay msgs. revert delay.
    induction msgs as [|m msgs IH]; intros delay t Hin Hs; [contradiction|].
    destruct Hin as [<-|Hin]; [discriminate | exact (IH _ _ Hin Hs)]. }
  split; cbn [first_render history contextMessages localStorage timers];
    split.
  - intros t snapshot Hin Hsnap.
    destruct Hin as [<-|[<-|Hin]]; [now inversion Hsnap | discriminate |].
    destruct (initialBoot && _); [|contradiction].
    exfalso. exact (boot _ _ _ _ Hin Hsnap).
  - left. eexists. eexists. split; [now left | reflexivity].
  - intros t snapshot Hin Hsnap.
    destruct Hin as [<-|[<-|Hin]]; [discriminate | now inversion Hsnap |].
    destruct (initialBoot && _); [|contradiction].
    exfalso. exact (boot' _ _ _ _ Hin Hsnap).
  - left. eexists. eexists. split; [right; now left | reflexivity].
Qed.

Lemma mount_in_sync (initialBoot : bool) (storage : LocalStorage)
    (st : State) :
  mount initialBoot storage = Rendered st -> in_sync st.
Proof.
  unfold mount. destruct (load _); [|discriminate].
  destruct (load _); [|discriminate].
  intros [= <-]. apply first_render_in_sync.
Qed.

(** A callback keeps the component in sync with its storage. *)
Lemma fire_next_in_sync (st st' : State) :
  in_sync st -> fire_next st = Some st' -> in_sync st'.
Proof.
  intros [Hh Hc] H.
  destruct (fire_next_cases st) as [[_ E]|[d [l1 [due [l2 [E1 E2]]]]]];
    [congruence|].
  rewrite E2 in H. inversion H; subst st'; clear H E2.
  rewrite E1 in Hh, Hc.
  destruct (action due) as [snapshot|snapshot|msg|] eqn:Hact;
    cbn [run_callback].
  - destruct (guarded_fired history_snapshot _ _ l1 l2 due d snapshot Hh)
      as [Heq Hh']; [now rewrite Hact|].
    split; cbn [with_storage with_timers history contextMessages
                localStorage timers rnt_os_history rnt_os_context].
    + exact Hh'.
    + apply (guarded_removal _ _ _ l1 l2 due); [exact Hc | now rewrite Hact].
  - destruct (guarded_fired context_snapshot _ _ l1 l2 due d snapshot Hc)
      as [Heq Hc']; [now rewrite Hact|].
    split; cbn [with_storage with_timers history contextMessages
                localStorage timers rnt_os_history rnt_os_context].
    + apply (guarded_removal _ _ _ l1 l2 due); [exact Hh | now rewrite Hact].
    + exact Hc'.
  - apply history_effect_in_sync.
    cbn [with_history with_timers contextMessages localStorage timers].
    apply (guarded_removal _ _ _ l1 l2 due); [exact Hc | now rewrite Hact].
  - apply history_effect_in_sync.
    cbn [with_history with_timers contextMessages localStorage timers].
    apply (guarded_removal _ _ _ l1 l2 due); [exact Hc | now rewrite Hact].
Qed.

Lemma run_timers_in_sync :
  forall fuel st, in_sync st -> in_sync (run_timers fuel st).
Proof.
  induction fuel as [|fuel IH]; intros st H; simpl; [exact H|].
  destruct (fire_next st) as [st'|] eqn:E; [|exact H].
  apply IH. now apply (fire_next_in_sync st).
Qed.

(** So does the handler, up to its [await] and after it. *)
Lemma submit_in_sync (st : State) :
  in_sync st ->
  match handleCommandSubmit st with
  | Returned st' => in_sync st'
  | Awaiting st' _ => in_sync st'
  end.
Proof.
  intros Hsync. unfold handleCommandSubmit.
  destruct (String.eqb (trim (currentInput st)) ""); [exact Hsync|].
  destruct (String.eqb (toLowerCase (currentInput st)) "clear").
  - apply history_effect_in_sync. exact (proj2 Hsync).
  - destruct (String.eqb (toLowerCase (currentInput st)) "sys-reset"
              || String.eqb (toLowerCase (currentInput st)) "rnt-reset").
    + apply both_effects_in_sync.
    + apply history_effect_in_sync. exact (proj2 Hsync).
Qed.

Lemma resume_in_sync (st : State) (request : Request) (response : string) :
  in_sync (handleCommandSubmit_resume st request response).
Proof. apply both_effects_in_sync. Qed.

Lemma step_in_sync (s : Session) (a : Action) :
  in_sync (component s) -> in_sync (component (step s a)).
Proof.
  intros Hsync. destruct a as [input|response| |ms]; cbn [step].
  - destruct (isProcessing (component s)); [exact Hsync|].
    assert (H := submit_in_sync (set_input (component s) input) Hsync).
    now destruct (handleCommandSubmit (set_input (component s) input)).
  - destruct (suspended s); [apply resume_in_sync | exact Hsync].
  - destruct (fire_next (component s)) as [st'|] eqn:E; [|exact Hsync].
    now apply (fire_next_in_sync (component s)).
  - destruct (min_delay (timers (component s))) as [d|]; [|exact Hsync].
    destruct (ms <=? d)%nat; [|exact Hsync].
    destruct Hsync as [Hh Hc].
    split; cbn [component with_timers history contextMessages localStorage
                timers]; now apply guarded_let_pass.
Qed.

Lemma run_in_sync (actions : list Action) :
  forall s, in_sync (component s) -> in_sync (component (run s actions)).
Proof.
  unfold run. induction actions as [|a actions IH]; intros s H; simpl;
    [exact H|].
  apply IH. now apply step_in_sync.
Qed.

(** Once its timers have run, a component in sync holds in its storage
    what it shows, and a reload starts from that. *)
Lemma settled_in_sync (st : State) :
  in_sync st ->
  timers (settle st) = []
  /\ localStorage (settle st)
     = {| rnt_os_history := Some (JsonOf (history (settle st)));
          rnt_os_context := Some (JsonOf (contextMessages (settle st))) |}
  /\ reload (settle st)
     = Rendered (first_render true (localStorage (settle st))
                              (history (settle st))
                              (contextMessages (settle st))).
Proof.
  intros Hsync0.
  assert (Hquiet : timers (settle st) = []) by apply settle_quiescent.
  assert (Hsync : in_sync (settle st)) by now apply run_timers_in_sync.
  destruct Hsync as [[_ Hh] [_ Hc]]. rewrite Hquiet in Hh, Hc.
  assert (Eh : rnt_os_history (localStorage (settle st))
               = Some (JsonOf (history (settle st)))).
  { destruct Hh as [[t [s [[] _]]]|Hh]. exact Hh. }
  assert (Ec : rnt_os_context (localStorage (settle st))
               = Some (JsonOf (contextMessages (settle st)))).
  { destruct Hc as [[t [s [[] _]]]|Hc]. exact Hc. }
  split; [exact Hquiet|]. split.
  - destruct (localStorage (settle st)) as [h c]. simpl in Eh, Ec.
    now rewrite Eh, Ec.
  - unfold reload, mount_default, mount. now rewrite Eh, Ec.
Qed.

(** X1.  Take a storage the component mounts from, and any session on it:
    commands entered, answers of the service arriving, time passing and
    timers running as they fall due, also while a command waits for its
    answer.  Once the pending timers have run, the storage holds exactly
    the transcript and the context buffer that are shown, and a reload
    mounts a component that shows both unchanged. *)
Theorem reload_restores_the_session :
  forall (storage : LocalStorage) (mounted : State) (actions : list Action),
    mount_default storage = Rendered mounted ->
    let st := settle (component (run (start mounted) actions)) in
    timers st = []
    /\ localStorage st
       = {| rnt_os_history := Some (JsonOf (history st));
            rnt_os_context := Some (JsonOf (contextMessages st)) |}
    /\ exists reloaded,
         reload st = Rendered reloaded
         /\ history reloaded = history st
         /\ contextMessages reloaded = contextMessages st.
Proof.
  intros storage mounted actions Hmount st.
  destruct (settled_in_sync (component (run (start mounted) actions)))
    as [Hquiet [Hstored Hreload]].
  { apply run_in_sync. exact (mount_in_sync true storage mounted Hmount). }
  split; [exact Hquiet|]. split; [exact Hstored|].
  eexists. split; [exact Hreload|]. split; reflexivity.
Qed.

Lemma reload_restores_the_session_witness :
  let st := settle (component (run (start Sample.fresh)
                                   Sample2.answered_during_boot)) in
  timers st = []
  /\ localStorage st
     = {| rnt_os_history := Some (JsonOf (history st));
          rnt_os_context := Some (JsonOf (contextMessages st)) |}
  /\ exists reloaded,
       reload st = Rendered reloaded
       /\ history reloaded = history st
       /\ contextMessages reloaded = contextMessages st.
Proof.
  apply (reload_restores_the_session
           Sample.empty_storage Sample.fresh Sample2.answered_during_boot).
  reflexivity.
Defined.

End RNTSyncFacts.

(* ================================================================= *)
(** ** An RNT session, command by command *)

Module RNTSessionFacts.
Import RNT RNTSync RNTFacts RNTSyncFacts.

Lemma reaches_service_submit (st : State) (input : string) :
  reaches_service input = true ->
  handleCommandSubmit (set_input st input)
  = Awaiting
      (history_effect
         {| history := (history st ++ [prompt_line input])%list;
            contextMessages := contextMessages st;
            currentInput := "";
            isProcessing := true;
            localStorage := localStorage st;
            timers := timers st |})
      {| recentContext := build_recentContext (contextMessages st);
         command := input |}.
Proof.
  unfold reaches_service. intros H.
  apply andb_true_iff in H. destruct H as [H Hreset].
  apply andb_true_iff in H. destruct H as [Hblank Hclear].
  apply negb_true_iff in Hblank, Hclear, Hreset.
  unfold handleCommandSubmit. cbn [currentInput set_input].
  rewrite TrimFacts.trim_empty, Hblank, Hclear, Hreset. reflexivity.
Qed.

Lemma history_effect_only_saves (st : State) :
  only_saves st -> only_saves (history_effect st).
Proof.
  intros H. unfold only_saves. cbn [timers history_effect].
  rewrite forallb_app. apply andb_true_iff. split; [|reflexivity].
  now apply filter_keeps_saves.
Qed.

Lemma context_effect_only_saves (st : State) :
  only_saves st -> only_saves (context_effect st).
Proof.
  intros H. unfold only_saves. cbn [timers context_effect].
  rewrite forallb_app. apply andb_true_iff. split; [|reflexivity].
  now apply filter_keeps_saves.
Qed.

(** While only saves are pending, the clock changes neither the
    transcript nor the context buffer, and it is left out of what the
    user and the service do. *)
Lemma clock_only_saves (a : Action) :
  is_timer a = true ->
  (forall s,
      only_saves (component s) ->
      history (component (step s a)) = history (component s)
      /\ contextMessages (component (step s a))
         = contextMessages (component s)
      /\ isProcessing (component (step s a)) = isProcessing (component s)
      /\ only_saves (component (step s a))
      /\ suspended (step s a) = suspended s)
  /\ (forall schedule,
         without_timers (a :: schedule) = without_timers schedule).
Proof.
  intros Ha. split.
  - intros s Honly. destruct a as [input|response| |ms]; try discriminate Ha;
      cbn [step].
    + destruct (fire_next (component s)) as [st'|] eqn:E;
        [|repeat split; exact Honly].
      destruct (fire_next_only_saves _ _ Honly E) as [H1 [H2 [H3 H4]]].
      cbn [component suspended]. repeat split; assumption.
    + destruct (min_delay (timers (component s))) as [d|];
        [|repeat split; exact Honly].
      destruct (ms <=? d)%nat; [|repeat split; exact Honly].
      cbn [component suspended with_timers history contextMessages
           isProcessing].
      repeat split. now apply let_pass_keeps_saves.
  - intros schedule. unfold without_timers. cbn [filter]. now rewrite Ha.
Qed.

(** What a schedule comes to when only saves are pending: from an idle
    component, for the commands it enters and their answers; from a
    component that waits for the answer to [input], for that answer and
    what follows. *)
Lemma schedule_accumulates (schedule : list Action) :
  (forall (exchanges : list (string * string)) (s : Session),
      suspended s = None ->
      isProcessing (component s) = false ->
      only_saves (component s) ->
      forallb (fun e => reaches_service (fst e)) exchanges = true ->
      without_timers schedule = flat_map answered exchanges ->
      let s' := run s schedule in
      history (component s')
      = (history (component s) ++ flat_map exchange_lines exchanges)%list
      /\ contextMessages (component s')
         = (contextMessages (component s) ++ map pair_of exchanges)%list
      /\ isProcessing (component s') = false
      /\ suspended s' = None)
  /\ (forall (request : Request) (response : string)
             (exchanges : list (string * string)) (s : Session),
         suspended s = Some request ->
         only_saves (component s) ->
         forallb (fun e => reaches_service (fst e)) exchanges = true ->
         without_timers schedule
         = (Answer response :: flat_map answered exchanges)%list ->
         let s' := run s schedule in
         history (component s')
         = (history (component s)
            ++ response :: flat_map exchange_lines exchanges)%list
         /\ contextMessages (component s')
            = (contextMessages (component s)
               ++ {| user := command request; system := response |}
                  :: map pair_of exchanges)%list
         /\ isProcessing (component s') = false
         /\ suspended s' = None).
Proof.
  unfold run.
  induction schedule as [|a schedule [IHidle IHwait]].
  - split.
    + intros [|e rest] s Hnone Hidle _ _ H; [|discriminate H].
      simpl. rewrite !app_nil_r. repeat split; assumption.
    + intros request response exchanges s _ _ _ H. discriminate H.
  - destruct a as [input|response'| |ms].
    + (* a command is entered *)
      split.
      * intros [|[input' response] rest] s Hnone Hidle Honly Hall H;
          [discriminate H|].
        cbn [without_timers filter is_timer negb flat_map answered fst snd
             app] in H.
        injection H as <- H.
        simpl in Hall. apply andb_true_iff in Hall.
        destruct Hall as [Hin Hrest].
        cbn [fold_left step]. rewrite Hidle.
        rewrite (reaches_service_submit (component s) input Hin).
        match goal with
        | |- context [fold_left step _ ?x] => set (next := x)
        end.
        destruct (IHwait {| recentContext :=
                             build_recentContext (contextMessages (component s));
                           command := input |} response rest next)
          as [Hh [Hc [Hp Hs]]];
          [reflexivity
          | apply history_effect_only_saves; exact Honly
          | exact Hrest | exact H |].
        cbv zeta in Hh, Hc, Hp, Hs. cbv zeta. rewrite Hh, Hc, Hp, Hs.
        subst next.
        cbn [component history_effect history contextMessages command
             flat_map exchange_lines fst snd map pair_of app].
        unfold pair_of. cbn [fst snd].
        rewrite <- app_assoc. repeat split.
      * intros request response exchanges s _ _ _ H. discriminate H.
    + (* an answer arrives *)
      split.
      * intros [|e rest] s _ _ _ _ H; discriminate H.
      * intros request response exchanges s Hsome Honly Hall H.
        cbn [without_timers filter is_timer negb] in H.
        injection H as <- H.
        cbn [fold_left step]. rewrite Hsome.
        match goal with
        | |- context [fold_left step _ ?x] => set (next := x)
        end.
        destruct (IHidle exchanges next) as [Hh [Hc [Hp Hs]]];
          [reflexivity | reflexivity
          | apply context_effect_only_saves, history_effect_only_saves;
            exact Honly
          | exact Hall | exact H |].
        cbv zeta in Hh, Hc, Hp, Hs. cbv zeta. rewrite Hh, Hc, Hp, Hs.
        subst next.
        cbn [component handleCommandSubmit_resume context_effect
             history_effect history contextMessages appendInteraction].
        unfold appendInteraction.
        rewrite <- !app_assoc. repeat split.
    + (* a timer runs *)
      destruct (clock_only_saves TimerFires eq_refl) as [Hkeep Hskip].
      split.
      * intros exchanges s Hnone Hidle Honly Hall H.
        rewrite Hskip in H.
        destruct (Hkeep s Honly) as [H1 [H2 [H3 [H4 H5]]]].
        cbn [fold_left].
        destruct (IHidle exchanges (step s TimerFires)) as [Hh [Hc Hp]];
          [congruence | congruence | exact H4 | exact Hall | exact H |].
        cbv zeta in Hh, Hc, Hp. cbv zeta.
        rewrite Hh, Hc, H1, H2. split; [reflexivity|].
        split; [reflexivity | exact Hp].
      * intros request response exchanges s Hsome Honly Hall H.
        rewrite Hskip in H.
        destruct (Hkeep s Honly) as [H1 [H2 [H3 [H4 H5]]]].
        cbn [fold_left].
        destruct (IHwait request response exchanges (step s TimerFires))
          as [Hh [Hc Hp]];
          [congruence | exact H4 | exact Hall | exact H |].
        cbv zeta in Hh, Hc, Hp. cbv zeta.
        rewrite Hh, Hc, H1, H2. split; [reflexivity|].
        split; [reflexivity | exact Hp].
    + (* time passes *)
      destruct (clock_only_saves (TimePasses ms) eq_refl) as [Hkeep Hskip].
      split.
      * intros exchanges s Hnone Hidle Honly Hall H.
        rewrite Hskip in H.
        destruct (Hkeep s Honly) as [H1 [H2 [H3 [H4 H5]]]].
        cbn [fold_left].
        destruct (IHidle exchanges (step s (TimePasses ms)))
          as [Hh [Hc Hp]];
          [congruence | congruence | exact H4 | exact Hall | exact H |].
        cbv zeta in Hh, Hc, Hp. cbv zeta.
        rewrite Hh, Hc, H1, H2. split; [reflexivity|].
        split; [reflexivity | exact Hp].
      * intros request response exchanges s Hsome Honly Hall H.
        rewrite Hskip in H.
        destruct (Hkeep s Honly) as [H1 [H2 [H3 [H4 H5]]]].
        cbn [fold_left].
        destruct (IHwait request response exchanges
                         (step s (TimePasses ms)))
          as [Hh [Hc Hp]];
          [congruence | exact H4 | exact Hall | exact H |].
        cbv zeta in Hh, Hc, Hp. cbv zeta.
        rewrite Hh, Hc, H1, H2. split; [reflexivity|].
        split; [reflexivity | exact Hp].
Qed.

(** X2.  Take a component that is ready for input and has no boot line
    and no screen clear pending, and a schedule in which commands that
    reach the service are entered and answered one after the other while
    time passes and the pending saves run as they fall due, also between
    a command and its answer.  Each command adds its prompt line and its answer to the
    transcript and the pair to the context buffer, and nothing else of the
    two changes: at the end the transcript has grown by two lines per
    command and the context buffer by one pair per command, in the order
    given, and the component is ready for input again. *)
Theorem answered_commands_accumulate :
  forall (exchanges : list (string * string)) (schedule : list Action)
         (st : State),
    isProcessing st = false ->
    only_saves st ->
    forallb (fun e => reaches_service (fst e)) exchanges = true ->
    without_timers schedule = flat_map answered exchanges ->
    let st' := component (run (start st) schedule) in
    history st' = (history st ++ flat_map exchange_lines exchanges)%list
    /\ contextMessages st'
       = (contextMessages st ++ map pair_of exchanges)%list
    /\ isProcessing st' = false.
Proof.
  intros exchanges schedule st Hidle Honly Hall Hschedule.
  destruct (proj1 (schedule_accumulates schedule) exchanges (start st))
    as [Hh [Hc [Hp _]]]; try assumption; [reflexivity|].
  cbv zeta. now rewrite Hh, Hc, Hp.
Qed.

Lemma answered_commands_accumulate_witness :
  let st' := component (run (start Sample.after_one_command)
                            Sample2.saves_in_between) in
  history st'
  = (history Sample.after_one_command
     ++ flat_map exchange_lines Sample2.two_exchanges)%list
  /\ contextMessages st'
     = (contextMessages Sample.after_one_command
        ++ map pair_of Sample2.two_exchanges)%list
  /\ isProcessing st' = false.
Proof.
  apply (answered_commands_accumulate
           Sample2.two_exchanges Sample2.saves_in_between
           Sample.after_one_command);
    vm_compute; reflexivity.
Defined.

Lemma clear_submit (st : State) (input : string) :
  toLowerCase input = "clear" ->
  handleCommandSubmit (set_input st input)
  = Returned
      (history_effect
         {| history := [];
            contextMessages := contextMessages st;
            currentInput := "";
            isProcessing := isProcessing st;
            localStorage := localStorage st;
            timers := timers st |}).
Proof.
  intros Hclear.
  assert (Hblank : String.eqb (trim input) "" = false).
  { rewrite TrimFacts.trim_empty.
    now apply (TrimFacts.lower_word_not_blank input _ _ Hclear). }
  unfold handleCommandSubmit. cbn [currentInput set_input].
  now rewrite Hblank, Hclear.
Qed.

(** X3.  Take a storage the component mounts from and a session on it
    that has come to a point where the component is ready for input and
    no boot line and no screen clear is pending.  [clear], in any letter
    case, empties the transcript; a reload after the pending saves then
    mounts a component with the context buffer of before and an empty
    transcript, and therefore with the six boot lines scheduled once
    more, 600 ms apart. *)
Theorem clear_then_reload_boots_again :
  forall (storage : LocalStorage) (mounted : State) (actions : list Action)
         (input : string),
    mount_default storage = Rendered mounted ->
    let s := run (start mounted) actions in
    isProcessing (component s) = false ->
    only_saves (component s) ->
    toLowerCase input = "clear" ->
    let cleared := component (step s (Submit input)) in
    history cleared = []
    /\ exists reloaded,
         reload (settle cleared) = Rendered reloaded
         /\ contextMessages reloaded = contextMessages (component s)
         /\ history reloaded = []
         /\ map (fun t => (delay t, action t))
                (filter is_boot_line (timers reloaded))
            = [(600, BootLine "Initializing RNT Kernel v1.0.4...");
               (1200, BootLine "Loading Aesthetic Drivers... [OK]");
               (1800, BootLine
                  "Connecting to Jack Brito Neural Network... [CONNECTED]");
               (2400, BootLine
                  "Mounting RNT-Pkg Mirror Nodes... [4 NODES FOUND]");
               (3000, BootLine "Welcome to Referring Node Transmission OS.");
               (3600, BootLine "Type 'help' to begin.")].
Proof.
  intros storage mounted actions input Hmount s Hidle Honly Hclear.
  cbn [step]. rewrite Hidle, (clear_submit (component s) input Hclear).
  cbn [component].
  match goal with |- context [settle ?x] => set (cleared := x) end.
  split; [reflexivity|].
  assert (Hsync : in_sync (component s)).
  { apply run_in_sync. exact (mount_in_sync true storage mounted Hmount). }
  assert (Hsync1 : in_sync cleared).
  { apply history_effect_in_sync. exact (proj2 Hsync). }
  assert (Hsaves : only_saves cleared).
  { apply history_effect_only_saves. exact Honly. }
  destruct (run_timers_saves [] (pending (timers cleared)) cleared)
    as [_ [Hh [Hc _]]].
  - exact Hsaves.
  - destruct Hsync1 as [[Hcarry Hkept] _]. split.
    + intros t snapshot Hin Hact. apply (Hcarry t snapshot Hin).
      now rewrite Hact.
    + left. eexists. split; [apply in_or_app; right; now left | reflexivity].
  - apply le_n.
  - fold (settle cleared) in Hh, Hc.
    destruct (settled_in_sync cleared Hsync1) as [_ [_ Hreload]].
    rewrite Hh, Hc in Hreload.
    eexists. split; [exact Hreload|].
    split; [reflexivity|]. split; reflexivity.
Qed.

Lemma clear_then_reload_boots_again_witness :
  let s := run (start Sample.fresh) Sample2.first_session in
  let cleared := component (step s (Submit "Clear")) in
  history cleared = []
  /\ exists reloaded,
       reload (settle cleared) = Rendered reloaded
       /\ contextMessages reloaded
          = [{| user := "mkdir projetos"; system := "" |}]
       /\ history reloaded = []
       /\ map (fun t => (delay t, action t))
              (filter is_boot_line (timers reloaded))
          = [(600, BootLine "Initializing RNT Kernel v1.0.4...");
             (1200, BootLine "Loading Aesthetic Drivers... [OK]");
             (1800, BootLine
                "Connecting to Jack Brito Neural Network... [CONNECTED]");
             (2400, BootLine
                "Mounting RNT-Pkg Mirror Nodes... [4 NODES FOUND]");
             (3000, BootLine "Welcome to Referring Node Transmission OS.");
             (3600, BootLine "Type 'help' to begin.")].
Proof.
  apply (clear_then_reload_boots_again
           Sample.empty_storage Sample.fresh Sample2.first_session "Clear");
    vm_compute; reflexivity.
Defined.

End RNTSessionFacts.

(* ================================================================= *)
(** ** A Telnet session *)

Module TelnetFacts.
Import JsStringFacts Telnet TelnetSession.

Lemma exit_not_blank (input : string) :
  is_exit input = true -> whitespace_only input = false.
Proof.
  unfold is_exit. intros H. apply orb_true_iff in H.
  destruct H as [H|H]; apply String.eqb_eq in H;
    now apply (TrimFacts.lower_word_not_blank input _ _ H).
Qed.

(** X4.  [exit] and [logout], in any case, are answered by the component
    alone: no request is sent, the session is closed with its context
    emptied, and the transcript gets the command and the closing line.  A
    connection made afterwards starts from its banner, so the first request
    of the new session carries nothing of the old one. *)
Theorem exit_closes_and_reconnect_forgets :
  forall (st : State) (input banner : string),
    is_exit input = true ->
    exists closed,
      handleCommandSubmit (with_input st input) = Returned closed
      /\ isConnected closed = false
      /\ sessionContext closed = ""
      /\ history closed
         = (history st ++ [("> " ++ input)%string;
                           "Connection closed by foreign host."])%list
      /\ sessionContext (handleConnect closed banner) = banner
      /\ forall next st' request,
           handleCommandSubmit (with_input (handleConnect closed banner) next)
           = Awaiting st' request ->
           newContext request = banner ++ nl ++ "User: " ++ next ++ nl.
Proof.
  intros st input banner Hexit.
  assert (Hblank := exit_not_blank input Hexit).
  unfold handleCommandSubmit at 1. cbn [currentInput with_input].
  rewrite TrimFacts.trim_empty, Hblank. cbn [andb].
  unfold is_exit in Hexit. rewrite Hexit.
  eexists. split; [reflexivity|].
  cbn [handleDisconnect isConnected sessionContext history].
  split; [reflexivity|]. split; [reflexivity|].
  split; [now rewrite <- app_assoc|]. split; [reflexivity|].
  intros next st' request H.
  destruct (ContextFacts.telnet_submit _ _ _ H) as [Hctx _].
  exact Hctx.
Qed.

Lemma exit_closes_and_reconnect_forgets_witness :
  exists closed,
    handleCommandSubmit (with_input Sample.telnet_connected "LogOut")
    = Returned closed
    /\ isConnected closed = false
    /\ sessionContext closed = "".
Proof.
  destruct (exit_closes_and_reconnect_forgets
              Sample.telnet_connected "LogOut" "login: " eq_refl)
    as [closed [H1 [H2 [H3 _]]]].
  now exists closed.
Defined.

Lemma step_extends_history (st : State) (a : Action) :
  exists added, history (step st a) = (history st ++ added)%list.
Proof.
  destruct a as [banner|input response]; cbn [step].
  - eexists. reflexivity.
  - unfold handleCommandSubmit. cbn [currentInput with_input].
    destruct (String.eqb (trim input) "" && negb (String.eqb input "")).
    + exists []. cbn [history with_input]. now rewrite app_nil_r.
    + destruct (String.eqb (toLowerCase input) "exit"
                || String.eqb (toLowerCase input) "logout").
      * eexists. cbn [handleDisconnect history with_input].
        rewrite <- app_assoc. reflexivity.
      * eexists. cbn [handleCommandSubmit_resume history with_input].
        rewrite <- app_assoc. reflexivity.
Qed.

(** X5.  The transcript of the Telnet component only grows: whatever is
    connected, submitted, answered or closed, what it showed before is the
    beginning of what it shows after. *)
Theorem telnet_transcript_only_grows :
  forall (actions : list Action) (st : State),
    exists added, history (run st actions) = (history st ++ added)%list.
Proof.
  unfold run. induction actions as [|a actions IH]; intros st; simpl.
  - exists []. now rewrite app_nil_r.
  - destruct (IH (step st a)) as [more Hmore].
    destruct (step_extends_history st a) as [added Hadded].
    exists (added ++ more)%list. rewrite Hmore, Hadded.
    now rewrite <- app_assoc.
Qed.

(** X6.  An empty line is a command for the Telnet component: it is shown
    and sent to the host; a line of blanks only is dropped without a trace.
    The RNT component drops both. *)
Theorem empty_line_is_sent_by_telnet_only :
  forall (st : State) (rnt : RNT.State),
    (exists st' request,
        handleCommandSubmit (with_input st "") = Awaiting st' request
        /\ command request = ""
        /\ history st' = (history st ++ ["> "])%list)
    /\ (forall input,
           whitespace_only input = true -> input <> "" ->
           handleCommandSubmit (with_input st input)
           = Returned (with_input st input))
    /\ (forall input,
           whitespace_only input = true ->
           RNT.handleCommandSubmit (RNT.set_input rnt input)
           = Returned (RNT.set_input rnt input)).
Proof.
  intros st rnt. split; [|split].
  - eexists. eexists. split; [reflexivity|]. split; reflexivity.
  - intros input Hblank Hne.
    unfold handleCommandSubmit. cbn [currentInput with_input].
    rewrite TrimFacts.trim_empty, Hblank.
    apply String.eqb_neq in Hne. now rewrite Hne.
  - intros input Hblank.
    unfold RNT.handleCommandSubmit. cbn [RNT.currentInput RNT.set_input].
    now rewrite TrimFacts.trim_empty, Hblank.
Qed.

Lemma empty_line_is_sent_by_telnet_only_witness :
  handleCommandSubmit (with_input Sample.telnet_connected "   ")
  = Returned (with_input Sample.telnet_connected "   ")
  /\ RNT.handleCommandSubmit (RNT.set_input Sample.sixteen_answered "")
     = Returned (RNT.set_input Sample.sixteen_answered "").
Proof.
  split.
  - apply (proj1 (proj2 (empty_line_is_sent_by_telnet_only
                           Sample.telnet_connected Sample.sixteen_answered)));
      [reflexivity | discriminate].
  - apply (proj2 (proj2 (empty_line_is_sent_by_telnet_only
                           Sample.telnet_connected Sample.sixteen_answered))).
    reflexivity.
Defined.

End TelnetFacts.

(* ================================================================= *)
(** ** Every run of the retry executor *)

Module RetryRunFacts.
Import Retry RetryRun RetryFacts.

Lemma leading_failures_spec {T : Type} (operation : nat -> Outcome T) :
  forall budget attempt,
    let n := leading_failures operation attempt budget in
    n <= budget
    /\ (forall i, attempt <= i < attempt + n ->
                  fails_retryably (operation i) = true)
    /\ (n < budget -> fails_retryably (operation (attempt + n)) = false).
Proof.
  induction budget as [|budget IH]; intros attempt; cbn [leading_failures].
  - split; [lia|]. split; [intros i Hi; lia | lia].
  - destruct (fails_retryably (operation attempt)) eqn:E.
    + destruct (IH (S attempt)) as [H1 [H2 H3]].
      split; [simpl; lia|]. split.
      * intros i Hi. destruct (Nat.eq_dec i attempt) as [->|Hne];
          [exact E | apply H2; lia].
      * intros Hlt.
        replace (attempt + S (leading_failures operation (S attempt) budget))
          with (S attempt + leading_failures operation (S attempt) budget)
          by lia.
        apply H3. lia.
    + split; [lia|]. split; [intros i Hi; lia|].
      intros _. now rewrite Nat.add_0_r.
Qed.

(** The run of any operation, read off its leading failures. *)
Lemma retryOperation_run {T : Type} (operation : nat -> Outcome T)
    (maxRetries : nat) (initialDelay : Z) :
  let last :=
    Nat.min (leading_failures operation 0 (S maxRetries)) maxRetries in
  retryOperation operation (Some maxRetries) (Some initialDelay)
  = (settle_of (operation last),
     (flat_map (retried operation maxRetries initialDelay) (seq 0 last)
      ++ [Called last])%list)
  /\ (forall i, i < last -> fails_retryably (operation i) = true).
Proof.
  intros last.
  destruct (leading_failures_spec operation (S maxRetries) 0) as [H1 [H2 H3]].
  cbv zeta in H1, H2, H3.
  set (n := leading_failures operation 0 (S maxRetries)) in *.
  assert (Hrun := retry_loop_run operation maxRetries initialDelay n).
  split.
  - unfold retryOperation.
    rewrite <- (Nat.sub_0_r (S maxRetries)).
    apply Hrun; [intros i Hi; apply H2; lia | intros Hle; apply H3; lia | lia].
  - intros i Hi. apply H2. subst last. lia.
Qed.

Lemma total_wait_geometric (initialDelay : Z) (more attempt : nat) :
  fold_right Z.add 0%Z (map (delay_at initialDelay) (seq attempt more))
  = (initialDelay * 2 ^ Z.of_nat attempt * (2 ^ Z.of_nat more - 1))%Z.
Proof.
  revert attempt. induction more as [|more IH]; intros attempt.
  - simpl. lia.
  - cbn [seq map fold_right]. rewrite IH. unfold delay_at.
    replace (Z.of_nat (S attempt)) with (Z.of_nat attempt + 1)%Z by lia.
    replace (Z.of_nat (S more)) with (Z.of_nat more + 1)%Z by lia.
    rewrite !Z.pow_add_r by lia. lia.
Qed.

(** X7.  Whatever the operation does, retryOperation invokes it at least
    once and at most maxRetries + 1 times, and the time it spends waiting
    is initialDelay * (2^(attempts - 1) - 1): never more than
    initialDelay * (2^maxRetries - 1), which is 14 seconds over at most four
    calls with the defaults. *)
Theorem retryOperation_is_bounded :
  forall (T : Type) (operation : nat -> Outcome T)
         (maxRetries : nat) (initialDelay : Z),
    let events :=
      snd (retryOperation operation (Some maxRetries) (Some initialDelay)) in
    let by_default := snd (retryOperation operation None None) in
    1 <= attempts events <= maxRetries + 1
    /\ total_wait events
       = (initialDelay * (2 ^ Z.of_nat (attempts events - 1) - 1))%Z
    /\ ((0 <= initialDelay)%Z ->
        (total_wait events
         <= initialDelay * (2 ^ Z.of_nat maxRetries - 1))%Z)
    /\ attempts by_default <= 4
    /\ (total_wait by_default <= 14000)%Z.
Proof.
  assert (main : forall (T : Type) (operation : nat -> Outcome T)
                        (maxRetries : nat) (initialDelay : Z),
             let events :=
               snd (retryOperation operation (Some maxRetries)
                                   (Some initialDelay)) in
             1 <= attempts events <= maxRetries + 1
             /\ total_wait events
                = (initialDelay * (2 ^ Z.of_nat (attempts events - 1) - 1))%Z
             /\ ((0 <= initialDelay)%Z ->
                 (total_wait events
                  <= initialDelay * (2 ^ Z.of_nat maxRetries - 1))%Z)).
  { intros T operation maxRetries initialDelay events.
    destruct (retryOperation_run operation maxRetries initialDelay)
      as [Hrun Hfail].
    set (last := Nat.min (leading_failures operation 0 (S maxRetries))
                         maxRetries) in *.
    destruct (retried_seq operation maxRetries initialDelay 0 last)
      as [Ha Hd]; [intros i Hi; apply Hfail; lia|].
    assert (Hatt : attempts events = last + 1).
    { subst events. rewrite Hrun. cbn [snd].
      rewrite attempts_app, Ha. reflexivity. }
    assert (Hwait : total_wait events
                    = (initialDelay * (2 ^ Z.of_nat last - 1))%Z).
    { subst events. rewrite Hrun. cbn [snd]. unfold total_wait.
      rewrite delays_app, Hd. cbn [delays]. rewrite app_nil_r.
      rewrite total_wait_geometric. simpl Z.of_nat. lia. }
    split; [subst last; lia|]. split.
    - rewrite Hatt. replace (last + 1 - 1) with last by lia. exact Hwait.
    - intros Hpos. rewrite Hwait.
      apply Z.mul_le_mono_nonneg_l; [exact Hpos|].
      assert (2 ^ Z.of_nat last <= 2 ^ Z.of_nat maxRetries)%Z
        by (apply Z.pow_le_mono_r; subst last; lia).
      lia. }
  intros T operation maxRetries initialDelay events by_default.
  destruct (main T operation maxRetries initialDelay) as [H1 [H2 H3]].
  destruct (main T operation 3 2000%Z) as [D1 [_ D3]].
  split; [exact H1|]. split; [exact H2|]. split; [exact H3|].
  split; [exact (proj2 D1)|].
  apply (D3 ltac:(lia)).
Qed.

Lemma retryOperation_is_bounded_witness :
  (total_wait (snd (retryOperation Sample.always_overloaded
                                   (Some 3%nat) (Some 2000)))
   <= 2000 * (2 ^ Z.of_nat 3 - 1))%Z.
Proof.
  apply (proj1 (proj2 (proj2 (retryOperation_is_bounded
                                string Sample.always_overloaded 3 2000%Z)))).
  lia.
Defined.

(** X8.  retryOperation fulfils its promise exactly when some attempt
    within the budget resolves after nothing but retryable failures, and
    then with the very value of that attempt. *)
Theorem retryOperation_succeeds_iff :
  forall (T : Type) (operation : nat -> Outcome T)
         (maxRetries : nat) (initialDelay : Z) (value : T),
    fst (retryOperation operation (Some maxRetries) (Some initialDelay))
    = Fulfilled value
    <-> exists k,
          k <= maxRetries
          /\ operation k = Resolved value
          /\ forall i, i < k -> fails_retryably (operation i) = true.
Proof.
  intros T operation maxRetries initialDelay value. split.
  - destruct (retryOperation_run operation maxRetries initialDelay)
      as [Hrun Hfail].
    set (last := Nat.min (leading_failures operation 0 (S maxRetries))
                         maxRetries) in *.
    rewrite Hrun. cbn [fst]. intros H.
    exists last. split; [subst last; lia|]. split; [|exact Hfail].
    destruct (operation last); simpl in H; [now inversion H | discriminate].
  - intros [k [Hk [Hop Hfail]]].
    assert (Hrun := retry_loop_run operation maxRetries initialDelay k
                      Hfail).
    unfold retryOperation.
    rewrite <- (Nat.sub_0_r (S maxRetries)).
    rewrite (Hrun ltac:(intros _; now rewrite Hop)
                  (Nat.min k maxRetries) 0 ThrownUndefined eq_refl).
    cbn [fst]. replace (Nat.min k maxRetries) with k by lia.
    now rewrite Hop.
Qed.

Lemma retryOperation_succeeds_iff_witness :
  fst (retryOperation Sample.flaky (Some 3) (Some 2000%Z)) = Fulfilled "done".
Proof.
  apply (proj2 (retryOperation_succeeds_iff
                  string Sample.flaky 3 2000%Z "done")).
  exists 2. split; [lia|]. split; [reflexivity|].
  intros i Hi. destruct i as [|[|i]]; [reflexivity | reflexivity | lia].
Defined.

End RetryRunFacts.

(* ================================================================= *)
(** ** Failures of the service at the call sites *)

Module FailureFacts.
Import JsStringFacts Retry Service ServiceTexts.

(** X9.  A failure of the generation service never reaches the terminal
    components as an exception: simulateTelnetCommand and
    simulateRNTCommand always fulfil their promise with a line.  When the
    call has failed after its retries, the line is the quota notice if the
    message of the failure contains 429, and the connection notice
    otherwise, whatever its status. *)
Theorem terminal_calls_never_reject :
  forall (generateContent : Prompt -> nat -> Outcome GenerateContentResponse)
         (host history newCommand : string),
    let telnet :=
      fst (simulateTelnetCommand generateContent host history newCommand) in
    let rnt := fst (simulateRNTCommand generateContent history newCommand) in
    (exists line, telnet = Fulfilled line)
    /\ (exists line, rnt = Fulfilled line)
    /\ (forall error,
           fst (retryOperation
                  (generateContent (TelnetPrompt host history newCommand))
                  None None) = Raised (ThrownError error) ->
           telnet = Fulfilled (if mentions_429 error then telnet_quota_line
                               else telnet_connection_line))
    /\ (forall error,
           fst (retryOperation
                  (generateContent (RNTPrompt history newCommand))
                  None None) = Raised (ThrownError error) ->
           rnt = Fulfilled (if mentions_429 error then rnt_quota_line
                            else rnt_connection_line)).
Proof.
  intros generateContent host history newCommand telnet rnt.
  assert (Ht := ServiceFacts.default_retry_raises_error
                  (generateContent (TelnetPrompt host history newCommand))).
  assert (Hr := ServiceFacts.default_retry_raises_error
                  (generateContent (RNTPrompt history newCommand))).
  subst telnet rnt. unfold simulateTelnetCommand, simulateRNTCommand.
  destruct (retryOperation (generateContent (TelnetPrompt _ _ _)) None None)
    as [t_settled t_events].
  destruct (retryOperation (generateContent (RNTPrompt _ _)) None None)
    as [r_settled r_events].
  cbn [fst] in *. unfold mentions_429.
  split; [|split; [|split]].
  - destruct t_settled as [response|[|error]]; [eexists; reflexivity
                                               | congruence |].
    cbn [message_includes]. destruct (message error) as [m|];
      [destruct (includes m "429")|]; eexists; reflexivity.
  - destruct r_settled as [response|[|error]]; [eexists; reflexivity
                                               | congruence |].
    cbn [message_includes]. destruct (message error) as [m|];
      [destruct (includes m "429")|]; eexists; reflexivity.
  - intros error ->. cbn [message_includes].
    destruct (message error) as [m|]; [destruct (includes m "429")|];
      reflexivity.
  - intros error ->. cbn [message_includes].
    destruct (message error) as [m|]; [destruct (includes m "429")|];
      reflexivity.
Qed.

Lemma terminal_calls_never_reject_witness :
  fst (simulateRNTCommand (fun _ _ => Rejected Sample.rate_limited) "" "ls")
  = Fulfilled rnt_quota_line
  /\ fst (simulateTelnetCommand (fun _ _ => Rejected Sample.overloaded)
                                "localhost" "" "ls")
     = Fulfilled telnet_connection_line.
Proof.
  split.
  - apply (proj2 (proj2 (proj2 (terminal_calls_never_reject
                                  (fun _ _ => Rejected Sample.rate_limited)
                                  "localhost" "" "ls")))
                 Sample.rate_limited).
    vm_compute. reflexivity.
  - apply (proj1 (proj2 (proj2 (terminal_calls_never_reject
                                  (fun _ _ => Rejected Sample.overloaded)
                                  "localhost" "" "ls")))
                 Sample.overloaded).
    vm_compute. reflexivity.
Defined.

Lemma or_value_truthy (x : option Json.value) (notice : string) :
  notice <> "" -> truthy (or_value x (JString notice)) = true.
Proof.
  intros Hne.
  assert (Hnotice : truthy (JString notice) = true).
  { simpl. apply negb_true_iff. now apply String.eqb_neq. }
  unfold or_value. destruct x as [v|]; [|exact Hnotice].
  destruct (truthy v) eqn:E; [exact E | exact Hnotice].
Qed.

Lemma framework_result_truthy
    (generateContent : Prompt -> nat -> Outcome GenerateContentResponse)
    (JSON_parse : string -> JsError + Json.value)
    (code framework route : string) :
  exists result,
    fst (simulateFrameworkExecution generateContent JSON_parse
                                    code framework route) = Fulfilled result
    /\ truthy (output result) = true
    /\ truthy (logs result) = true.
Proof.
  assert (Hnot := ServiceFacts.default_retry_raises_error
                    (generateContent (FrameworkPrompt framework code route))).
  assert (caught : forall error,
             exists result,
               framework_catch (ThrownError error) = Fulfilled result
               /\ truthy (output result) = true
               /\ truthy (logs result) = true).
  { intros error.
    destruct (ServiceFacts.framework_catch_error error) as [-> | ->];
      eexists; (split; [reflexivity|]); split; reflexivity. }
  unfold simulateFrameworkExecution.
  destruct (retryOperation _ None None) as [settled events].
  cbn [fst] in *.
  destruct settled as [response|[|error]]; [|congruence | apply caught].
  unfold extract_framework_result.
  destruct (JSON_parse _) as [error|parsed]; [apply caught|].
  destruct (get_field parsed "responseBody") as [error|body];
    [apply caught|].
  destruct (get_field parsed "serverLogs") as [error|log];
    [apply caught|].
  eexists. split; [reflexivity|]. cbn [output logs].
  split; apply or_value_truthy; discriminate.
Qed.

(** X10.  Whatever the service answers or fails with, the page and the log
    that simulateFrameworkExecution returns are never empty: each is a
    truthy field of the reply or a text of the function itself. *)
Theorem framework_result_is_never_empty :
  forall (generateContent : Prompt -> nat -> Outcome GenerateContentResponse)
         (JSON_parse : string -> JsError + Json.value)
         (code framework route : string),
  exists result,
    fst (simulateFrameworkExecution generateContent JSON_parse
                                    code framework route) = Fulfilled result
    /\ truthy (output result) = true
    /\ truthy (logs result) = true.
Proof. exact framework_result_truthy. Qed.

End FailureFacts.

(* ================================================================= *)
(** ** Every run of the Julia editor *)

Module JuliaRunFacts.
Import JsStringFacts Service Julia.

(** X11.  However a run of the Julia editor ends, the editor is enabled
    again and its code is untouched, and no chart of an earlier run
    survives: the chart data is null, or it is the document parsed from the
    chart block of this very reply. *)
Theorem julia_run_leaves_no_stale_chart :
  forall (JSON_parse : string -> JsError + Json.value)
         (st : State) (settled : Retry.Settled AIChatResponse),
    let st' := runSimulation JSON_parse st settled in
    isExecuting st' = false
    /\ editableJuliaCode st' = editableJuliaCode st
    /\ (plotData st' = JNull
        \/ exists response reply whole contents,
             settled = Retry.Fulfilled response
             /\ response_text response = Some reply
             /\ plotMatch reply = Some (whole, contents)
             /\ JSON_parse contents = inr (plotData st')).
Proof.
  intros JSON_parse st settled st'. subst st'. unfold runSimulation.
  destruct settled as [response|[|error]];
    [|repeat split; now left | repeat split; now left].
  destruct (errorMessage response) as [[|c msg]|] eqn:Herr;
    try (repeat split; now left).
  - unfold extract_chart.
    destruct (response_text response) as [reply|] eqn:Htext;
      [|repeat split; now left].
    destruct (plotMatch reply) as [[whole contents]|] eqn:Hmatch;
      [|repeat split; now left].
    destruct (JSON_parse contents) as [error|json] eqn:Hparse;
      [repeat split; now left|].
    repeat split. right. now exists response, reply, whole, contents.
  - unfold extract_chart.
    destruct (response_text response) as [reply|] eqn:Htext;
      [|repeat split; now left].
    destruct (plotMatch reply) as [[whole contents]|] eqn:Hmatch;
      [|repeat split; now left].
    destruct (JSON_parse contents) as [error|json] eqn:Hparse;
      [repeat split; now left|].
    repeat split. right. now exists response, reply, whole, contents.
Qed.

End JuliaRunFacts.

(* ================================================================= *)
(** ** An exchange of the chat *)

Module ChatRunFacts.
Import JsStringFacts Service Chat.

Lemma or_else_not_empty (x : option string) (fallback : string) :
  fallback <> "" -> or_else x fallback <> "".
Proof.
  intros H. destruct x as [[|c s]|]; simpl; try exact H. discriminate.
Qed.

Lemma image_caption_not_empty (inputText : string) :
  image_caption inputText <> "".
Proof.
  unfold image_caption.
  destruct (strip_prefix "/imagem" inputText); discriminate.
Qed.

(** X12.  However the call to the service ends, the chat gets exactly one
    more message, from the AI, with a text that is never empty, and stops
    loading.  A whole exchange therefore adds the message of the user and
    then one answer. *)
Theorem chat_exchange_adds_question_and_answer :
  forall (asked answered : Z) (st : State) (inputText : string)
         (settled : Retry.Settled AIChatResponse),
    (exists reply,
        messages (sendMessage_resume answered st inputText settled)
        = (messages st ++ [reply])%list
        /\ sender reply = AI
        /\ id reply = IdOfTime (answered + 1)
        /\ text reply <> ""
        /\ isLoading (sendMessage_resume answered st inputText settled)
           = false)
    /\ (whitespace_only inputText = false -> isLoading st = false ->
        exists waiting reply,
          sendMessage asked st inputText = Awaiting waiting inputText
          /\ messages (sendMessage_resume answered waiting inputText settled)
             = (messages st
                ++ [{| id := IdOfTime asked; text := inputText;
                       sender := USER; imageUrl := None; sources := None |};
                    reply])%list
          /\ sender reply = AI).
Proof.
  intros asked answered st inputText settled.
  assert (answer : forall st0,
             exists reply,
               messages (sendMessage_resume answered st0 inputText settled)
               = (messages st0 ++ [reply])%list
               /\ sender reply = AI
               /\ id reply = IdOfTime (answered + 1)
               /\ text reply <> ""
               /\ isLoading (sendMessage_resume answered st0 inputText settled)
                  = false).
  { intros st0. unfold sendMessage_resume.
    destruct settled as [aiResponse|thrown].
    - destruct (errorMessage aiResponse) as [[|c msg]|].
      + destruct (Service.imageUrl aiResponse) as [[|u url]|];
          eexists; (split; [reflexivity|]); cbn [sender id text isLoading];
          repeat split; apply or_else_not_empty;
          try apply image_caption_not_empty; discriminate.
      + eexists. split; [reflexivity|]. cbn [sender id text isLoading].
        repeat split. discriminate.
      + destruct (Service.imageUrl aiResponse) as [[|u url]|];
          eexists; (split; [reflexivity|]); cbn [sender id text isLoading];
          repeat split; apply or_else_not_empty;
          try apply image_caption_not_empty; discriminate.
    - eexists. split; [reflexivity|]. cbn [sender id text isLoading].
      repeat split. discriminate. }
  split; [apply answer|].
  intros Hblank Hidle.
  unfold sendMessage. rewrite TrimFacts.trim_empty, Hblank, Hidle.
  cbn [orb].
  match goal with
  | |- context [Awaiting ?w inputText] =>
      destruct (answer w) as [reply [Hm [Hs _]]]; exists w, reply
  end.
  split; [reflexivity|]. split; [|exact Hs].
  rewrite Hm. cbn [messages]. now rewrite <- app_assoc.
Qed.

Lemma chat_exchange_adds_question_and_answer_witness :
  exists waiting reply,
    sendMessage 1700000000000 initial "Oi" = Awaiting waiting "Oi"
    /\ messages (sendMessage_resume 1700000000500 waiting "Oi"
                   (Retry.Raised (Retry.ThrownError Sample.overloaded)))
       = (messages initial
          ++ [{| id := IdOfTime 1700000000000; text := "Oi"; sender := USER;
                 imageUrl := None; sources := None |};
              reply])%list
    /\ sender reply = AI.
Proof.
  apply (proj2 (chat_exchange_adds_question_and_answer
                  1700000000000 1700000000500 initial "Oi"
                  (Retry.Raised (Retry.ThrownError Sample.overloaded))));
    reflexivity.
Defined.

End ChatRunFacts.

(* ================================================================= *)
(** ** The gateway of the chat *)

Module GatewayFacts.
Import JsStringFacts Retry Service Scan Gateway.

Lemma span_sound (p : ascii -> bool) (s taken rest : string) :
  span p s = (taken, rest) ->
  s = taken ++ rest /\ all_chars p taken = true.
Proof.
  revert taken rest. induction s as [|c s IH]; intros taken rest H; simpl in H.
  - inversion H; subst. now split.
  - destruct (p c) eqn:E.
    + destruct (span p s) as [t r]. inversion H; subst.
      destruct (IH t rest eq_refl) as [-> Hall].
      split; [reflexivity|]. simpl. now rewrite E.
    + inversion H; subst. now split.
Qed.

Lemma span_stops (p : ascii -> bool) (taken : string) (c : ascii)
    (rest : string) :
  all_chars p taken = true -> p c = false ->
  span p (taken ++ String c rest) = (taken, String c rest).
Proof.
  intros Hall Hc. induction taken as [|x taken IH]; simpl.
  - now rewrite Hc.
  - simpl in Hall. apply andb_true_iff in Hall. destruct Hall as [Hx Hall].
    now rewrite Hx, (IH Hall).
Qed.

Lemma dataUri_reads_back (subtype payload : string) :
  subtype <> "" ->
  all_chars mime_char subtype = true ->
  all_chars (fun c => negb (is_line_terminator c)) payload = true ->
  dataUriToBase64 ("data:" ++ ("image/" ++ subtype) ++ ";base64," ++ payload)
  = Some {| data := payload; mimeType := "image/" ++ subtype |}.
Proof.
  intros Hne Hclass Hpayload.
  unfold dataUriToBase64.
  change ("data:" ++ ("image/" ++ subtype) ++ ";base64," ++ payload)
    with ("data:image/" ++ (subtype ++ String ";" ("base64," ++ payload))).
  rewrite strip_prefix_append.
  rewrite (span_stops mime_char subtype ";" _ Hclass eq_refl).
  apply String.eqb_neq in Hne. rewrite Hne.
  change (String ";" ("base64," ++ payload)) with (";base64," ++ payload).
  rewrite strip_prefix_append, Hpayload. reflexivity.
Qed.

(** X13.  dataUriToBase64 undoes the way the module builds its data URIs:
    for a type [image/...] written in letters, digits, dashes and dots and
    a payload without line terminators, the URI [data:<type>;base64,<payload>]
    is read back as that type and that payload; and whatever it reads from
    a text, that text is the URI built from it. *)
Theorem dataUri_round_trip :
  (forall subtype payload,
      subtype <> "" ->
      all_chars mime_char subtype = true ->
      all_chars (fun c => negb (is_line_terminator c)) payload = true ->
      dataUriToBase64 ("data:" ++ ("image/" ++ subtype) ++ ";base64," ++ payload)
      = Some {| data := payload; mimeType := "image/" ++ subtype |})
  /\ (forall dataUri image,
         dataUriToBase64 dataUri = Some image ->
         dataUri = "data:" ++ mimeType image ++ ";base64," ++ data image).
Proof.
  split.
  - exact dataUri_reads_back.
  - intros dataUri image. unfold dataUriToBase64.
    destruct (strip_prefix "data:image/" dataUri) as [rest|] eqn:E1;
      [|discriminate].
    destruct (span mime_char rest) as [subtype rest'] eqn:E2.
    destruct (String.eqb subtype ""); [discriminate|].
    destruct (strip_prefix ";base64," rest') as [payload|] eqn:E3;
      [|discriminate].
    destruct (all_chars _ payload); [|discriminate].
    intros H. inversion H; subst; clear H. cbn [mimeType data].
    apply strip_prefix_sound in E1, E3.
    apply span_sound in E2. destruct E2 as [E2 _].
    rewrite E1, E2, E3. reflexivity.
Qed.

Lemma dataUri_round_trip_witness :
  dataUriToBase64 "data:image/svg+xml;base64,AAAA" = None
  /\ dataUriToBase64 "data:image/x-icon;base64,AAAA"
     = Some {| data := "AAAA"; mimeType := "image/x-icon" |}.
Proof.
  split; [reflexivity|].
  apply (proj1 dataUri_round_trip "x-icon" "AAAA");
    [discriminate | reflexivity | reflexivity].
Defined.

Lemma key_check_effects (w : World) (msg : string) :
  forallb (fun e => negb (is_chat_effect e)) (snd (key_check w msg)) = true.
Proof.
  unfold key_check. destruct (aistudio w); [destruct (hasSelectedApiKey w)|];
    reflexivity.
Qed.

Lemma image_catch_effects (w : World) (a b c : string) (thrown : Thrown) :
  forallb (fun e => negb (is_chat_effect e)) (snd (image_catch w a b c thrown))
  = true.
Proof.
  unfold image_catch, open_key_selection. destruct thrown as [|error];
    [reflexivity|].
  destruct (is_quota _); [reflexivity|].
  destruct (is_invalid_key _); [destruct (aistudio w); reflexivity|].
  destruct (is_blocked _); [reflexivity|].
  destruct (is_billing _); reflexivity.
Qed.

(** With an image stored, a call keeps an image stored and stays away from
    the chat. *)
Lemma image_mode_is_kept (w : World) (g : Globals) (message : string)
    (c : ascii) (last : string) :
  lastGeneratedImageUrl g = Some (String c last) ->
  (exists c' last',
      lastGeneratedImageUrl (snd (fst (sendMessageToGemini w g message)))
      = Some (String c' last'))
  /\ forallb (fun e => negb (is_chat_effect e))
             (snd (sendMessageToGemini w g message)) = true.
Proof.
  intros Hlast.
  assert (Hkept : exists c' last',
             lastGeneratedImageUrl g = Some (String c' last'))
    by (now exists c, last).
  unfold sendMessageToGemini.
  destruct (strip_prefix "/imagem " message) as [rest|].
  - destruct (String.eqb (trim rest) ""); [now split|].
    assert (Hk := key_check_effects w select_key_to_generate).
    destruct (key_check w select_key_to_generate) as [[given_up|] effects];
      cbn [snd] in Hk; [now split|].
    destruct (retryOperation _ None None) as [settled events].
    destruct settled as [imageResponse|thrown].
    + destruct (imageBytes imageResponse) as [[|b bytes]|]; cbn [fst snd];
        (split; [|rewrite forallb_app, Hk; reflexivity]);
        try exact Hkept.
      eexists. eexists. reflexivity.
    + assert (Hc := image_catch_effects w "imagem"
                      ("gera" ++ ch 231 ++ ch 227 ++ "o") "gerar" thrown).
      destruct (image_catch _ _ _ _ thrown) as [answer more].
      cbn [fst snd] in *. split; [exact Hkept|].
      rewrite !forallb_app, Hk, Hc. reflexivity.
  - rewrite Hlast.
    destruct (dataUriToBase64 (String c last)) as [imagePart|]; [|now split].
    assert (Hk := key_check_effects w select_key_to_edit).
    destruct (key_check w select_key_to_edit) as [[given_up|] effects];
      cbn [snd] in Hk; [now split|].
    destruct (retryOperation _ None None) as [settled events].
    destruct settled as [response|thrown].
    + destruct (find _ (parts response)) as [[inline|]|]; cbn [fst snd];
        (split; [|rewrite forallb_app, Hk; reflexivity]);
        try exact Hkept.
      eexists. eexists. reflexivity.
    + assert (Hc := image_catch_effects w
                      ("edi" ++ ch 231 ++ ch 227 ++ "o de imagem")
                      ("edi" ++ ch 231 ++ ch 227 ++ "o") "editar" thrown).
      destruct (image_catch _ _ _ _ thrown) as [answer more].
      cbn [fst snd] in *. split; [exact Hkept|].
      rewrite !forallb_app, Hk, Hc. reflexivity.
Qed.

(** X14.  Once an image has been made, the module never forgets one and
    never talks to the chat again: in every later conversation, each
    message is a new image, an edit, or an error, and no chat is created or
    sent to. *)
Theorem chat_is_unreachable_after_an_image :
  forall (turns : list (World * string)) (g : Globals) (c : ascii)
         (last : string),
    lastGeneratedImageUrl g = Some (String c last) ->
    (exists c' last',
        lastGeneratedImageUrl (fst (conversation g turns))
        = Some (String c' last'))
    /\ forallb (fun e => negb (is_chat_effect e))
               (snd (conversation g turns)) = true.
Proof.
  induction turns as [|[w message] rest IH]; intros g c last Hlast.
  - simpl. split; [now exists c, last | reflexivity].
  - cbn [conversation].
    destruct (image_mode_is_kept w g message c last Hlast)
      as [[c' [last' Hnext]] Heff].
    destruct (sendMessageToGemini w g message) as [[answer g'] effects].
    cbn [fst snd] in Hnext, Heff.
    destruct (IH g' c' last' Hnext) as [Hfinal Hmore].
    destruct (conversation g' rest) as [final more].
    cbn [fst snd] in *. split; [exact Hfinal|].
    now rewrite forallb_app, Heff, Hmore.
Qed.

Lemma chat_is_unreachable_after_an_image_witness :
  forallb (fun e => negb (is_chat_effect e))
          (snd (conversation Sample3.with_image Sample3.small_talk)) = true.
Proof.
  apply (proj2 (chat_is_unreachable_after_an_image
                  Sample3.small_talk Sample3.with_image "d"
                  "ata:image/jpeg;base64,QUJD" eq_refl)).
Defined.

Import GatewayReadings.

Lemma key_check_available (w : World) (msg : string) :
  key_available w = true ->
  key_check w msg = (None, if aistudio w then [KeyChecked] else []).
Proof.
  unfold key_available, key_check.
  destruct (aistudio w), (hasSelectedApiKey w); simpl; intros H;
    try reflexivity; discriminate.
Qed.

Lemma image_is_generated (w : World) (g : Globals) (request : string)
    (b : ascii) (bytes : string) :
  whitespace_only request = false ->
  key_available w = true ->
  fst (retryOperation (generateImages w (trim request)) None None)
  = Fulfilled {| imageBytes := Some (String b bytes) |} ->
  fst (sendMessageToGemini w g ("/imagem " ++ request))
  = (Fulfilled {| response_text := Some (generated_caption (trim request));
                  errorMessage := None;
                  imageUrl := Some ("data:image/jpeg;base64," ++ String b bytes);
                  sources := None |},
     {| chat := chat g;
        lastGeneratedImageUrl :=
          Some ("data:image/jpeg;base64," ++ String b bytes) |}).
Proof.
  intros Hrequest Hkey Hreply.
  unfold sendMessageToGemini.
  rewrite strip_prefix_append, TrimFacts.trim_empty, Hrequest.
  rewrite (key_check_available w _ Hkey).
  destruct (retryOperation (generateImages w (trim request)) None None)
    as [settled events].
  cbn [fst] in Hreply. subst settled. reflexivity.
Qed.

Lemma edit_is_requested (w : World) (g : Globals) (next : string)
    (c : ascii) (last : string) (image : InlineData) :
  strip_prefix "/imagem " next = None ->
  lastGeneratedImageUrl g = Some (String c last) ->
  dataUriToBase64 (String c last) = Some image ->
  key_available w = true ->
  exists calls more,
    snd (sendMessageToGemini w g next)
    = ((if aistudio w then [KeyChecked] else [])
       ++ [EditRequested image next calls] ++ more)%list.
Proof.
  intros Hnext Hlast Hread Hkey.
  unfold sendMessageToGemini.
  rewrite Hnext, Hlast, Hread, (key_check_available w _ Hkey).
  destruct (retryOperation (editImage w image next) None None)
    as [settled events].
  destruct settled as [response|thrown].
  - destruct (find _ (parts response)) as [[inline|]|]; cbn [snd];
      exists (attempts events), []; reflexivity.
  - destruct (image_catch w _ _ _ thrown) as [answer more]. cbn [snd].
    exists (attempts events), more. now rewrite <- app_assoc.
Qed.

(** X15.  An image that has been generated can be edited: after a
    successful [/imagem] command, whose bytes hold no line terminator, the
    next message that is no such command goes to the editor with exactly
    those bytes, as image/jpeg, and with the text of the message. *)
Theorem generated_image_reaches_the_editor :
  forall (w w' : World) (g : Globals) (request bytes next : string),
    whitespace_only request = false ->
    key_available w = true -> key_available w' = true ->
    fst (retryOperation (generateImages w (trim request)) None None)
    = Fulfilled {| imageBytes := Some bytes |} ->
    bytes <> "" ->
    all_chars (fun c => negb (is_line_terminator c)) bytes = true ->
    strip_prefix "/imagem " next = None ->
    let first := sendMessageToGemini w g ("/imagem " ++ request) in
    let second := sendMessageToGemini w' (snd (fst first)) next in
    lastGeneratedImageUrl (snd (fst first))
    = Some ("data:image/jpeg;base64," ++ bytes)
    /\ fst (fst first)
       = Fulfilled {| response_text := Some (generated_caption (trim request));
                      errorMessage := None;
                      imageUrl := Some ("data:image/jpeg;base64," ++ bytes);
                      sources := None |}
    /\ exists calls more,
         snd second
         = ((if aistudio w' then [KeyChecked] else [])
            ++ [EditRequested {| data := bytes; mimeType := "image/jpeg" |}
                              next calls] ++ more)%list.
Proof.
  intros w w' g request bytes next Hrequest Hkey Hkey' Hreply Hne Hbytes Hnext
         first second.
  assert (Hread : dataUriToBase64 ("data:image/jpeg;base64," ++ bytes)
                  = Some {| data := bytes; mimeType := "image/jpeg" |}).
  { apply (dataUri_reads_back "jpeg" bytes);
      [discriminate | reflexivity | exact Hbytes]. }
  destruct bytes as [|b bytes]; [now contradiction Hne|].
  assert (Hfirst := image_is_generated w g request b bytes Hrequest Hkey Hreply).
  fold first in Hfirst.
  destruct first as [[answer g1] effects]. cbn [fst snd] in *.
  inversion Hfirst; subst answer g1. cbn [lastGeneratedImageUrl].
  split; [reflexivity|]. split; [reflexivity|].
  subst second.
  apply (edit_is_requested w' _ next "d"
           ("ata:image/jpeg;base64," ++ String b bytes));
    [exact Hnext | reflexivity | exact Hread | exact Hkey'].
Qed.

Lemma generated_image_reaches_the_editor_witness :
  exists calls more,
    snd (sendMessageToGemini Sample3.studio_less
           (snd (fst (sendMessageToGemini Sample3.studio_less fresh
                                          ("/imagem " ++ "um gato "))))
           "mais azul")
    = ((if aistudio Sample3.studio_less then [KeyChecked] else [])
       ++ [EditRequested {| data := "QUJD"; mimeType := "image/jpeg" |}
                         "mais azul" calls] ++ more)%list.
Proof.
  apply (proj2 (proj2 (generated_image_reaches_the_editor
                         Sample3.studio_less Sample3.studio_less fresh
                         "um gato " "QUJD" "mais azul"
                         eq_refl eq_refl eq_refl eq_refl
                         ltac:(discriminate) eq_refl eq_refl))).
Defined.

(** X16.  A stored image that the module cannot read back blocks every
    message that is no [/imagem] command: each is answered with the same
    error, nothing is called and nothing changes, for as long as no new
    image is generated. *)
Theorem unreadable_image_blocks_plain_messages :
  forall (turns : list (World * string)) (g : Globals) (c : ascii)
         (last : string),
    lastGeneratedImageUrl g = Some (String c last) ->
    dataUriToBase64 (String c last) = None ->
    forallb (fun turn => match strip_prefix "/imagem " (snd turn) with
                         | Some _ => false | None => true end) turns = true ->
    conversation g turns = (g, [])
    /\ forall w message,
         In (w, message) turns ->
         sendMessageToGemini w g message
         = (Fulfilled (failure unreadable_image_message), g, []).
Proof.
  intros turns g c last Hlast Hread.
  assert (one : forall w message,
             strip_prefix "/imagem " message = None ->
             sendMessageToGemini w g message
             = (Fulfilled (failure unreadable_image_message), g, [])).
  { intros w message Hplain. unfold sendMessageToGemini.
    now rewrite Hplain, Hlast, Hread. }
  induction turns as [|[w message] rest IH]; intros Hall.
  - split; [reflexivity | intros w message []].
  - cbn [forallb snd] in Hall. apply andb_true_iff in Hall.
    destruct Hall as [Hplain Hrest].
    assert (Hp : strip_prefix "/imagem " message = None)
      by (destruct (strip_prefix "/imagem " message); [discriminate|reflexivity]).
    destruct (IH Hrest) as [Hconv Heach]. split.
    + cbn [conversation]. rewrite (one w message Hp), Hconv. reflexivity.
    + intros w0 m0 [Heq|Hin]; [inversion Heq; subst; now apply one|].
      now apply Heach.
Qed.

Lemma unreadable_image_blocks_plain_messages_witness :
  conversation Sample3.with_unreadable_image
               [(Sample3.studio_less, "Oi"); (Sample3.key_missing, "mais azul")]
  = (Sample3.with_unreadable_image, []).
Proof.
  apply (proj1 (unreadable_image_blocks_plain_messages
                  [(Sample3.studio_less, "Oi");
                   (Sample3.key_missing, "mais azul")]
                  Sample3.with_unreadable_image "d"
                  "ata:image/svg+xml;base64,QUJD" eq_refl eq_refl eq_refl)).
Defined.

Local Ltac chat_branch g Hstudio :=
  let settled := fresh "settled" in
  let events := fresh "events" in
  match goal with
  | |- context [retryOperation ?op None None] =>
      destruct (retryOperation op None None) as [settled events]
  end;
  destruct settled as [?|[|?]]; cbn [fst snd];
  [ | | destruct (is_quota _); [|destruct (is_invalid_key _)]; cbn [fst snd] ];
  (split; [|reflexivity]);
  unfold open_key_selection; rewrite ?Hstudio;
  rewrite ?forallb_app; destruct (chat g); reflexivity.

(** X17.  No image is asked for without a key: on a page of the host where
    no key is selected, no call generates or edits an image or changes the
    stored one; and a [/imagem] command without a prompt is refused before
    any check. *)
Theorem image_calls_need_a_selected_key :
  forall (w : World) (g : Globals) (message : string),
    (aistudio w = true -> hasSelectedApiKey w = false ->
     forallb (fun e => negb (is_image_call e))
             (snd (sendMessageToGemini w g message)) = true
     /\ lastGeneratedImageUrl (snd (fst (sendMessageToGemini w g message)))
        = lastGeneratedImageUrl g)
    /\ (forall request,
           whitespace_only request = true ->
           sendMessageToGemini w g ("/imagem " ++ request)
           = (Fulfilled (failure no_prompt_message), g, [])).
Proof.
  intros w g message. split.
  - intros Hstudio Hkey. unfold sendMessageToGemini, key_check.
    rewrite Hstudio, Hkey.
    destruct (strip_prefix "/imagem " message) as [rest|].
    + destruct (String.eqb (trim rest) ""); now split.
    + destruct (lastGeneratedImageUrl g) as [[|c last]|] eqn:Hlast.
      * chat_branch g Hstudio.
      * destruct (dataUriToBase64 (String c last)); now split.
      * chat_branch g Hstudio.
  - intros request Hblank. unfold sendMessageToGemini.
    now rewrite strip_prefix_append, TrimFacts.trim_empty, Hblank.
Qed.

Lemma image_calls_need_a_selected_key_witness :
  forallb (fun e => negb (is_image_call e))
          (snd (sendMessageToGemini Sample3.key_missing Sample3.with_image
                                    "mais azul")) = true
  /\ sendMessageToGemini Sample3.key_missing fresh ("/imagem " ++ "  ")
     = (Fulfilled (failure no_prompt_message), fresh, []).
Proof.
  split.
  - apply (proj1 (image_calls_need_a_selected_key
                    Sample3.key_missing Sample3.with_image "mais azul"));
      reflexivity.
  - apply (proj2 (image_calls_need_a_selected_key
                    Sample3.key_missing fresh "")).
    reflexivity.
Defined.

(** X18.  The chat of the module is made once and made again only after it
    was dropped.  For a message that goes to the chat: a chat is created
    exactly when there is none; the message is sent to it; and afterwards
    there is none exactly when the call failed with an invalid key and no
    quota marker, in which case the key selection of the host is opened.
    A quota failure that also names the missing entity drops nothing. *)
Theorem chat_is_created_once_and_dropped_on_invalid_key :
  forall (w : World) (g : Globals) (message : string),
    strip_prefix "/imagem " message = None ->
    lastGeneratedImageUrl g = None ->
    let reply := fst (retryOperation (chatSend w message) None None) in
    let result := sendMessageToGemini w g message in
    (In ChatCreated (snd result) <-> chat g = false)
    /\ (exists calls, In (ChatSent message calls) (snd result))
    /\ (chat (snd (fst result)) = false
        <-> exists error,
              reply = Raised (ThrownError error) /\ drops_chat error = true)
    /\ (In KeySelectionOpened (snd result)
        <-> aistudio w = true /\ chat (snd (fst result)) = false)
    /\ lastGeneratedImageUrl (snd (fst result)) = None.
Proof.
  intros w g message Hplain Hnone reply result.
  subst result reply. unfold sendMessageToGemini. rewrite Hplain, Hnone.
  assert (created : forall rest : list Effect,
             ~ In ChatCreated rest ->
             (In ChatCreated ((if chat g then [] else [ChatCreated]) ++ rest)%list
              <-> chat g = false)).
  { intros rest Hrest. destruct (chat g); simpl.
    - split; [intros H; contradiction | discriminate].
    - split; [reflexivity | intros _; now left]. }
  assert (Hnot := ServiceFacts.default_retry_raises_error (chatSend w message)).
  destruct (retryOperation (chatSend w message) None None) as [settled events].
  cbn [fst] in *.
  assert (sent : forall rest : list Effect,
             exists calls,
               In (ChatSent message calls)
                  ((if chat g then [] else [ChatCreated])
                   ++ ChatSent message (attempts events) :: rest)%list).
  { intros rest. exists (attempts events). apply in_or_app. right. now left. }
  assert (quiet : forall pre : list Effect,
             (forall e, In e pre -> e = ChatCreated) ->
             ~ In KeySelectionOpened
                  (pre ++ [ChatSent message (attempts events)])%list).
  { intros pre Hpre Hin. apply in_app_or in Hin.
    destruct Hin as [Hin|[Hin|[]]]; [|discriminate].
    specialize (Hpre _ Hin). discriminate. }
  assert (pre_created : forall e,
             In e (if chat g then [] else [ChatCreated]) -> e = ChatCreated).
  { intros e. destruct (chat g); [intros [] | intros [<-|[]]; reflexivity]. }
  assert (kept : forall (answer : Settled AIChatResponse),
             let result :=
               (answer,
                {| chat := true;
                   lastGeneratedImageUrl := @None string |},
                ((if chat g then [] else [ChatCreated])
                 ++ [ChatSent message (attempts events)])%list) in
             (forall error, settled = Raised (ThrownError error) ->
                            drops_chat error = false) ->
             (In ChatCreated (snd result) <-> chat g = false)
             /\ (exists calls, In (ChatSent message calls) (snd result))
             /\ (chat (snd (fst result)) = false
                 <-> exists error,
                       settled = Raised (ThrownError error)
                       /\ drops_chat error = true)
             /\ (In KeySelectionOpened (snd result)
                 <-> aistudio w = true /\ chat (snd (fst result)) = false)
             /\ lastGeneratedImageUrl (snd (fst result)) = None).
  { intros answer result Hkeep. subst result. cbn [fst snd chat
                                                  lastGeneratedImageUrl].
    split; [apply created; intros [H|[]]; discriminate|].
    split; [apply sent|]. split.
    - split; [discriminate|]. intros [error [E D]].
      rewrite (Hkeep error E) in D. discriminate.
    - split; [|reflexivity]. split.
      + intros H. exfalso. exact (quiet _ pre_created H).
      + intros [_ H]. discriminate. }
  destruct settled as [response|[|error]]; [| congruence |].
  - apply kept. intros error H. discriminate.
  - unfold drops_chat in *.
    destruct (is_quota (errorMessage_of error)) eqn:Hq.
    + apply kept. intros e H. inversion H; subst. now rewrite Hq.
    + destruct (is_invalid_key (errorMessage_of error)) eqn:Hi.
      * cbn [fst snd chat lastGeneratedImageUrl].
        split.
        { rewrite <- app_assoc. apply created.
          unfold open_key_selection. destruct (aistudio w); simpl;
            intuition discriminate. }
        split; [rewrite <- app_assoc; apply sent|].
        split.
        { split; [|reflexivity]. intros _. exists error.
          split; [reflexivity|]. now rewrite Hq, Hi. }
        split; [|reflexivity].
        unfold open_key_selection. destruct (aistudio w).
        -- split; [now split|]. intros _.
           apply in_or_app. right. now left.
        -- rewrite app_nil_r. split.
           ++ intros H. exfalso. exact (quiet _ pre_created H).
           ++ intros [H _]. discriminate.
      * apply kept. intros e H. inversion H; subst. now rewrite Hq, Hi.
Qed.

Lemma chat_is_created_once_and_dropped_on_invalid_key_witness :
  chat (snd (fst (sendMessageToGemini Sample3.key_refused fresh "Oi"))) = false
  /\ In ChatCreated (snd (sendMessageToGemini Sample3.key_refused fresh "Oi")).
Proof.
  destruct (chat_is_created_once_and_dropped_on_invalid_key
              Sample3.key_refused fresh "Oi" eq_refl eq_refl)
    as [Hcreated [_ [Hdropped _]]].
  split.
  - apply (proj2 Hdropped). eexists. split; [vm_compute; reflexivity|].
    vm_compute. reflexivity.
  - apply (proj2 Hcreated). reflexivity.
Defined.

End GatewayFacts.

(* ================================================================= *)
(** ** The parts and the renderers of a message *)

Module MessageFacts.
Import JsStringFacts TrimFacts Scan MessageView.

Lemma all_chars_append (p : ascii -> bool) (a b : string) :
  all_chars p (a ++ b) = all_chars p a && all_chars p b.
Proof.
  induction a as [|c a IH]; simpl; [reflexivity|].
  now rewrite IH, andb_assoc.
Qed.

Lemma after_last_newline_sound (blank indent : string) :
  after_last_newline blank = Some indent ->
  exists pre, blank = pre ++ nl ++ indent /\ ends_with_newline (pre ++ nl) = true.
Proof.
  unfold ends_with_newline.
  revert indent. induction blank as [|c blank IH]; intros indent H; simpl in H.
  - discriminate.
  - destruct (after_last_newline blank) as [found|] eqn:E.
    + inversion H; subst. destruct (IH indent eq_refl) as [pre [-> Hpre]].
      exists (String c pre). split; [reflexivity|].
      simpl. destruct (after_last_newline (pre ++ nl)) as [[|]|];
        try discriminate. reflexivity.
    + destruct (Ascii.eqb c (ascii_of_nat 10)) eqn:Ec; [|discriminate].
      inversion H; subst. apply Ascii.eqb_eq in Ec. subst c.
      exists "". split; reflexivity.
Qed.

Lemma match_here_sound (s lang content rest : string) :
  match_here s = Some (lang, content, rest) ->
  exists blank,
    s = written (Block lang blank content) ++ rest
    /\ well_formed (Block lang blank content) = true.
Proof.
  unfold match_here. intros H.
  destruct (strip_prefix fence s) as [after|] eqn:E1; [|discriminate].
  destruct (span not_space after) as [lang' after2] eqn:E2.
  destruct (span is_whitespace after2) as [blank after3] eqn:E3.
  destruct (after_last_newline blank) as [indent|] eqn:E4; [|discriminate].
  destruct (split_on fence (indent ++ after3)) as [[content' rest']|] eqn:E5;
    [|discriminate].
  inversion H; subst; clear H.
  apply strip_prefix_sound in E1.
  apply GatewayFacts.span_sound in E2, E3.
  destruct E2 as [E2 Hlang], E3 as [E3 Hblank].
  destruct (after_last_newline_sound _ _ E4) as [pre [E4' Hpre]].
  assert (Hfree := split_on_leftmost fence _ _ _ ltac:(discriminate) E5).
  apply split_on_sound in E5.
  exists (pre ++ nl). split.
  - unfold written. rewrite E1, E2, E3, E4'.
    rewrite !append_assoc. now rewrite E5.
  - unfold well_formed. rewrite Hlang, Hpre, Hfree.
    rewrite E4', <- append_assoc, all_chars_append in Hblank.
    apply andb_true_iff in Hblank. now rewrite (proj1 Hblank).
Qed.

Lemma exec_sound (s before lang content rest : string) :
  exec s = Some (before, lang, content, rest) ->
  exists blank,
    s = before ++ written (Block lang blank content) ++ rest
    /\ well_formed (Block lang blank content) = true.
Proof.
  revert before. induction s as [|c s IH]; intros before H; cbn [exec] in H.
  - destruct (match_here "") as [[[l ct] r]|] eqn:E; [|discriminate].
    inversion H; subst. now apply match_here_sound.
  - destruct (match_here (String c s)) as [[[l ct] r]|] eqn:E.
    + inversion H; subst. now apply match_here_sound.
    + destruct (exec s) as [[[[b l] ct] r]|]; [|discriminate].
      inversion H; subst.
      destruct (IH b eq_refl) as [blank [-> Hwf]].
      exists blank. now split.
Qed.

Lemma exec_shortens (s before lang content rest : string) :
  exec s = Some (before, lang, content, rest) ->
  String.length rest < String.length s.
Proof.
  intros H. destruct (exec_sound _ _ _ _ _ H) as [blank [-> _]].
  unfold written, fence. rewrite !length_append. simpl. lia.
Qed.

Lemma span_append (p : ascii -> bool) (a taken : string) (c : ascii)
    (rest b : string) :
  span p a = (taken, String c rest) ->
  span p (a ++ b) = (taken, String c rest ++ b).
Proof.
  revert taken. induction a as [|x a IH]; intros taken H; simpl in H.
  - discriminate.
  - cbn [append span]. destruct (p x) eqn:E.
    + destruct (span p a) as [t r]. injection H as <- ->.
      now rewrite (IH t eq_refl).
    + injection H as <- -> ->. reflexivity.
Qed.

Lemma span_rest_head (p : ascii -> bool) (s taken : string) (c : ascii)
    (rest : string) :
  span p s = (taken, String c rest) -> p c = false.
Proof.
  revert taken. induction s as [|x s IH]; intros taken H; simpl in H.
  - discriminate.
  - destruct (p x) eqn:E.
    + destruct (span p s) as [t r]. injection H as <- ->. now apply (IH t).
    + now injection H as <- -> ->.
Qed.

Lemma span_takes_nothing (p : ascii -> bool) (s rest : string) (c : ascii)
    (taken : string) :
  span p s = (String c taken, rest) -> exists s', s = String c s' /\ p c = true.
Proof.
  destruct s as [|x s]; simpl; [discriminate|].
  destruct (p x) eqn:E; [|discriminate].
  destruct (span p s) as [t r]. intros H. injection H as -> _ _.
  now exists s.
Qed.

(** A match at the start of a text is still one when the text goes on. *)
Lemma match_here_extends (a b : string) :
  match_here a <> None -> match_here (a ++ b) <> None.
Proof.
  unfold match_here.
  destruct (strip_prefix fence a) as [after|] eqn:E1; [|congruence].
  rewrite (strip_prefix_of_prefix _ _ b _ E1).
  destruct (span not_space after) as [lang after2] eqn:E2.
  destruct (span is_whitespace after2) as [blank after3] eqn:E3.
  destruct (after_last_newline blank) as [indent|] eqn:E4; [|congruence].
  destruct (split_on fence (indent ++ after3)) as [[content rest]|] eqn:E5;
    [|congruence].
  intros _.
  destruct blank as [|w blank]; [discriminate|].
  destruct (span_takes_nothing _ _ _ _ _ E3) as [tail [-> Hw]].
  assert (Hnot : not_space w = false) by (unfold not_space; now rewrite Hw).
  rewrite (span_append _ _ _ _ _ b E2).
  apply split_on_sound in E5.
  destruct (GatewayFacts.span_sound _ _ _ _ E3) as [_ Hblank].
  destruct (after_last_newline_sound _ _ E4) as [pre [Hpre _]].
  rewrite Hpre, <- append_assoc, all_chars_append in Hblank.
  apply andb_true_iff in Hblank. destruct Hblank as [_ Hindent].
  destruct after3 as [|d after3].
  { rewrite append_nil_r in E5. rewrite E5 in Hindent.
    rewrite !all_chars_append in Hindent.
    apply andb_true_iff in Hindent. destruct Hindent as [_ Hindent].
    discriminate. }
  rewrite (span_append _ _ _ _ _ b E3), E4.
  assert (Hin : includes (indent ++ String d after3 ++ b) fence = true).
  { rewrite <- append_assoc, E5, !append_assoc. apply split_on_complete. }
  unfold includes in Hin.
  destruct (split_on fence (indent ++ String d after3 ++ b)) as [[x y]|];
    [congruence | discriminate].
Qed.

(** The text before a match holds no match. *)
Lemma exec_before (s before lang content rest : string) :
  exec s = Some (before, lang, content, rest) -> exec before = None.
Proof.
  revert before. induction s as [|c s IH]; intros before H; cbn [exec] in H.
  - destruct (match_here "") as [[[l ct] r]|]; [|discriminate].
    injection H as <- _ _ _. reflexivity.
  - destruct (match_here (String c s)) as [[[l ct] r]|] eqn:E.
    + injection H as <- _ _ _. reflexivity.
    + destruct (exec s) as [[[[b l] ct] r]|] eqn:Es; [|discriminate].
      injection H as <- <- <- <-.
      destruct (exec_sound _ _ _ _ _ Es) as [blank [Hs _]].
      cbn [exec]. rewrite (IH b eq_refl).
      destruct (match_here (String c b)) as [found|] eqn:Eb; [|reflexivity].
      exfalso.
      apply (match_here_extends (String c b)
               (written (Block l blank ct) ++ r)); [congruence|].
      cbn [append]. now rewrite <- Hs.
Qed.

Lemma parse_loop_covers (rounds : nat) :
  forall s, String.length s <= rounds ->
    exists segments,
      s = text_of segments
      /\ parse_loop rounds s = map shown segments
      /\ forallb well_formed segments = true.
Proof.
  induction rounds as [|rounds IH]; intros s Hlen.
  - destruct s; [|simpl in Hlen; lia].
    exists []. repeat split.
  - cbn [parse_loop].
    destruct (exec s) as [[[[before lang] content] rest]|] eqn:E.
    + assert (Hshort := exec_shortens _ _ _ _ _ E).
      destruct (exec_sound _ _ _ _ _ E) as [blank [Hs Hwf]].
      destruct (IH rest ltac:(lia)) as [segments [Hrest [Hparts Hall]]].
      destruct (String.eqb before "") eqn:Eb.
      * apply String.eqb_eq in Eb. subst before.
        exists (Block lang blank content :: segments).
        split; [|split].
        -- cbn [text_of]. rewrite <- Hrest. exact Hs.
        -- cbn [map shown app]. now rewrite Hparts.
        -- cbn [forallb]. now rewrite Hwf, Hall.
      * exists (Plain before :: Block lang blank content :: segments).
        split; [|split].
        -- cbn [text_of]. rewrite <- Hrest. exact Hs.
        -- cbn [map shown app]. now rewrite Hparts.
        -- cbn [forallb]. rewrite Hwf, Hall. cbn [well_formed].
           now rewrite Eb, (exec_before _ _ _ _ _ E).
    + destruct (String.eqb s "") eqn:Es.
      * apply String.eqb_eq in Es. subst s. exists []. repeat split.
      * exists [Plain s]. split; [|split].
        -- cbn [text_of written]. now rewrite append_nil_r.
        -- reflexivity.
        -- cbn [forallb well_formed]. now rewrite Es, E.
Qed.

Lemma parts_cover (text : string) :
  exists segments,
    text = text_of segments
    /\ parts text = map shown segments
    /\ forallb well_formed segments = true.
Proof. exact (parse_loop_covers (String.length text) text (le_n _)). Qed.

(** The fallback for an empty list of parts is never taken. *)
Lemma parsedParts_parts (text : string) : parsedParts text = parts text.
Proof.
  unfold parsedParts. destruct (String.eqb text "") eqn:E.
  - apply String.eqb_eq in E. now subst.
  - destruct (parts_cover text) as [segments [Htext [Hparts _]]].
    rewrite Hparts. destruct segments as [|segment segments]; [|reflexivity].
    simpl in Htext. subst text. discriminate.
Qed.

Lemma parsedParts_cover (text : string) :
  exists segments,
    text = text_of segments
    /\ parsedParts text = map shown segments
    /\ forallb well_formed segments = true.
Proof. rewrite parsedParts_parts. apply parts_cover. Qed.

(** X19.  The parts of a message are its text, piece by piece and in
    order: the text is a sequence of plain pieces and fenced blocks, a
    plain piece is shown as a text part with its white space trimmed, a
    block as a code part with its language in lower case (plaintext when
    there is none) and its content trimmed.  No plain piece is empty or
    holds a block of its own, the language of a block holds no white
    space, and its content no fence.  The parts are those the loop of the
    parser has found: its fallback for an empty list is never taken. *)
Theorem message_parts_cover_the_text :
  forall text : string,
    parsedParts text = parts text
    /\ exists segments,
         text = text_of segments
         /\ parsedParts text = map shown segments
         /\ forallb well_formed segments = true.
Proof.
  intros text. split; [apply parsedParts_parts | apply parsedParts_cover].
Qed.

(** *** Normal forms of the parts *)

Lemma lower_char_idempotent (c : ascii) :
  lower_char (lower_char c) = lower_char c.
Proof. destruct c as [[] [] [] [] [] [] [] []]; vm_compute; reflexivity. Qed.

Lemma lower_char_space (c : ascii) :
  is_whitespace (lower_char c) = is_whitespace c.
Proof. destruct c as [[] [] [] [] [] [] [] []]; vm_compute; reflexivity. Qed.

Lemma toLowerCase_idempotent (s : string) :
  toLowerCase (toLowerCase s) = toLowerCase s.
Proof.
  induction s as [|c s IH]; simpl; [reflexivity|].
  now rewrite lower_char_idempotent, IH.
Qed.

Lemma toLowerCase_not_space (s : string) :
  all_chars not_space (toLowerCase s) = all_chars not_space s.
Proof.
  induction s as [|c s IH]; simpl; [reflexivity|].
  unfold not_space at 1 3. now rewrite lower_char_space, IH.
Qed.

Lemma trimStart_suffix (s : string) : exists blank, s = blank ++ trimStart s.
Proof.
  induction s as [|c s [blank IH]]; simpl.
  - now exists "".
  - destruct (is_whitespace c).
    + exists (String c blank). simpl. now rewrite <- IH.
    + now exists "".
Qed.

Lemma trimEnd_prefix (s : string) : exists blank, s = trimEnd s ++ blank.
Proof.
  induction s as [|c s [blank IH]]; simpl.
  - now exists "".
  - destruct (trimEnd s) as [|k kept] eqn:E.
    + destruct (is_whitespace c).
      * exists (String c s). reflexivity.
      * exists blank. simpl in *. now f_equal.
    + exists blank. simpl in *. now f_equal.
Qed.

Lemma trim_inside (s : string) :
  exists before after, s = before ++ trim s ++ after.
Proof.
  unfold trim. destruct (trimStart_suffix s) as [before Hs].
  destruct (trimEnd_prefix (trimStart s)) as [after Ht].
  exists before, after. now rewrite <- Ht.
Qed.

Lemma trimEnd_idempotent (s : string) : trimEnd (trimEnd s) = trimEnd s.
Proof.
  induction s as [|c s IH]; simpl; [reflexivity|].
  destruct (trimEnd s) as [|k kept] eqn:E.
  - destruct (is_whitespace c) eqn:Ec; simpl; [reflexivity|].
    now rewrite Ec.
  - simpl in *. now rewrite IH.
Qed.

Lemma trimEnd_head (c : ascii) (s : string) :
  is_whitespace c = false -> exists kept, trimEnd (String c s) = String c kept.
Proof.
  intros Hc. simpl. destruct (trimEnd s) as [|k kept].
  - rewrite Hc. now exists "".
  - now exists (String k kept).
Qed.

Lemma trimStart_head (s : string) :
  trimStart s = "" \/ exists c rest, trimStart s = String c rest
                                     /\ is_whitespace c = false.
Proof.
  induction s as [|c s IH]; simpl; [now left|].
  destruct (is_whitespace c) eqn:E; [exact IH|].
  right. now exists c, s.
Qed.

Lemma trim_idempotent (s : string) : trim (trim s) = trim s.
Proof.
  unfold trim. destruct (trimStart_head s) as [-> | [c [rest [-> Hc]]]].
  - reflexivity.
  - destruct (trimEnd_head c rest Hc) as [kept E].
    rewrite E. cbn [trimStart]. rewrite Hc, <- E.
    apply trimEnd_idempotent.
Qed.

Lemma exec_needs_a_fence (s : string) :
  includes s fence = false -> exec s = None.
Proof.
  intros H. destruct (exec s) as [[[[before lang] content] rest]|] eqn:E;
    [|reflexivity].
  destruct (exec_sound _ _ _ _ _ E) as [blank [Hs _]].
  rewrite Hs in H. unfold written in H. rewrite !append_assoc in H.
  rewrite (split_on_complete fence before _) in H. discriminate.
Qed.

Lemma code_part_fields (l c lang content : string) :
  code_part l c = CodePart lang content ->
  ((lang = "plaintext" /\ toLowerCase l = "")
   \/ (lang = toLowerCase l /\ toLowerCase l <> ""))
  /\ content = trim c.
Proof.
  unfold code_part, or_else. intros H.
  destruct (toLowerCase l) as [|x low]; injection H as <- <-;
    (split; [|reflexivity]); [left | right]; now split.
Qed.

(** X20.  Every code part of a message is in normal form: its language
    is not empty, holds no white space and is in lower case, and its
    content is trimmed and holds no fence.  A text without any fence is
    one text part, trimmed. *)
Theorem code_parts_are_normalised :
  forall text : string,
    (forall lang content,
        In (CodePart lang content) (parsedParts text) ->
        lang <> "" /\ all_chars not_space lang = true
        /\ toLowerCase lang = lang
        /\ trim content = content /\ includes content fence = false)
    /\ (text <> "" -> includes text fence = false ->
        parsedParts text = [TextPart (trim text)]).
Proof.
  intros text. split.
  - intros lang content Hin.
    destruct (parsedParts_cover text) as [segments [_ [Hparts Hall]]].
    rewrite Hparts in Hin. apply in_map_iff in Hin.
    destruct Hin as [segment [Hshown Hin]].
    rewrite forallb_forall in Hall. specialize (Hall _ Hin).
    destruct segment as [raw|l blank c]; [discriminate|].
    cbn [shown] in Hshown.
    destruct (code_part_fields _ _ _ _ Hshown) as [Hl Hc]. clear Hshown.
    subst content.
    cbn [well_formed] in Hall.
    apply andb_true_iff in Hall. destruct Hall as [Hall Hfree].
    apply andb_true_iff in Hall. destruct Hall as [Hall _].
    apply andb_true_iff in Hall. destruct Hall as [Hlang _].
    apply negb_true_iff in Hfree.
    destruct Hl as [[-> _] | [-> Hl]].
    { repeat split; [discriminate | apply trim_idempotent |].
      destruct (trim_inside c) as [before [after Hc]].
      rewrite Hc in Hfree. exact (includes_inside _ _ _ _ Hfree). }
    split; [exact Hl|].
    split; [|split; [|split]].
    + now rewrite toLowerCase_not_space.
    + apply toLowerCase_idempotent.
    + apply trim_idempotent.
    + destruct (trim_inside c) as [before [after Hc]].
      rewrite Hc in Hfree. exact (includes_inside _ _ _ _ Hfree).
  - intros Hne Hfree. unfold parsedParts, parts.
    apply String.eqb_neq in Hne. rewrite Hne.
    destruct text as [|c text]; [discriminate|].
    cbn [String.length parse_loop].
    now rewrite (exec_needs_a_fence _ Hfree).
Qed.


(** *** The keys of the renderers *)

Lemma decimal_injective (n m : nat) : decimal n = decimal m -> n = m.
Proof.
  unfold decimal. intros H.
  apply (f_equal NilEmpty.uint_of_string) in H.
  rewrite !NilEmpty.usu in H. injection H as H.
  apply (f_equal Nat.of_uint) in H. now rewrite !Unsigned.of_to in H.
Qed.

Lemma append_injective (a x y : string) : a ++ x = a ++ y -> x = y.
Proof.
  induction a as [|c a IH]; simpl; intros H; [exact H|].
  injection H as H. now apply IH.
Qed.

Lemma number_from_ids (tag message_id : string)
    (selected : list (string * string)) :
  forall index key,
    In key (map unit_id (number_from index tag message_id selected)) ->
    exists n, index <= n
              /\ key = tag ++ "-" ++ message_id ++ "-" ++ decimal n.
Proof.
  induction selected as [|[lang content] rest IH]; intros index key H.
  - contradiction.
  - destruct H as [<- | H].
    + exists index. now split.
    + destruct (IH _ _ H) as [n [Hle ->]]. exists n. split; [lia|reflexivity].
Qed.

Lemma number_from_NoDup (tag message_id : string)
    (selected : list (string * string)) :
  forall index,
    NoDup (map unit_id (number_from index tag message_id selected)).
Proof.
  induction selected as [|[lang content] rest IH]; intros index;
    cbn [number_from map]; constructor; [|apply IH].
  intros H. destruct (number_from_ids _ _ _ _ _ H) as [n [Hle Heq]].
  cbn [unit_id] in Heq.
  do 4 apply append_injective in Heq.
  apply decimal_injective in Heq. lia.
Qed.

Lemma units_of_keyed (tag : string) (select : string -> bool)
    (message_id : string) (code : list (string * string)) (key : string) :
  In key (map unit_id (units_of tag select message_id code)) ->
  exists rest, key = tag ++ "-" ++ rest.
Proof.
  intros H. destruct (number_from_ids _ _ _ _ _ H) as [n [_ ->]].
  now eexists.
Qed.

Local Ltac keyed H :=
  first
    [ apply units_of_keyed in H; destruct H as [? H]
    | match type of H with
      | In _ (match ?x with Some _ => _ | None => _ end) =>
          destruct x; [destruct H as [H|[]]; symmetry in H | destruct H]
      end ].

Local Ltac split_keys H :=
  repeat (apply in_app_or in H; destruct H as [H|H]).

Lemma NoDup_option_key {A : Type} (x : option A) (key : string) :
  NoDup (match x with Some _ => [key] | None => [] end).
Proof. destruct x; repeat constructor. intros []. Qed.

Lemma button_keys_NoDup (message_id text : string) :
  NoDup (button_keys (units message_id text)).
Proof.
  unfold button_keys. cbn [jsonUnits pythonUnits cobolUnits juliaUnits
                           telnetUnits frameworkUnits cUnits rntUnits units].
  repeat (apply NoDup_app;
          [ first [apply NoDup_option_key | apply number_from_NoDup]
          |
          | let a := fresh "key" in
            let H1 := fresh "H1" in
            let H2 := fresh "H2" in
            intros a H1 H2; split_keys H2; keyed H1; keyed H2;
            subst; simpl in *; discriminate ]).
  apply number_from_NoDup.
Qed.

(** X21.  The buttons of a message have keys of their own: the keys web
    and js and the ids of the units of all kinds are pairwise distinct, so
    that a press of one button inverts the flag of its renderer and leaves
    the flag of every other renderer of the message as it is. *)
Theorem renderers_toggle_independently :
  forall (message_id text : string),
    let keys := button_keys (units message_id text) in
    NoDup keys
    /\ forall (st : RenderingState) (i j : nat) (pressed other : string),
         nth_error keys i = Some pressed ->
         nth_error keys j = Some other ->
         i <> j ->
         toggleRenderer pressed st pressed = negb (st pressed)
         /\ toggleRenderer pressed st other = st other.
Proof.
  intros message_id text keys.
  assert (Hkeys := button_keys_NoDup message_id text). fold keys in Hkeys.
  split; [exact Hkeys|].
  intros st i j pressed other Hi Hj Hne. unfold toggleRenderer.
  rewrite String.eqb_refl. split; [reflexivity|].
  destruct (String.eqb other pressed) eqn:E; [|reflexivity].
  apply String.eqb_eq in E. subst other. exfalso. apply Hne.
  apply (proj1 (NoDup_nth_error keys) Hkeys).
  - apply nth_error_Some. congruence.
  - congruence.
Qed.

Lemma code_parts_are_normalised_witness :
  trim "x = 1" = "x = 1"
  /\ parsedParts Sample4.plain_text = [TextPart (trim Sample4.plain_text)].
Proof.
  split.
  - apply (proj1 (code_parts_are_normalised Sample4.three_blocks) "js" "x = 1").
    vm_compute. do 2 right. left. reflexivity.
  - apply (proj2 (code_parts_are_normalised Sample4.plain_text));
      [discriminate | reflexivity].
Defined.

Lemma renderers_toggle_independently_witness :
  toggleRenderer "json-17-0" nothing_rendered "json-17-0" = true
  /\ toggleRenderer "json-17-0" nothing_rendered "json-17-1" = false.
Proof.
  apply (proj2 (renderers_toggle_independently "17" Sample4.three_blocks)
               nothing_rendered 1 2 "json-17-0" "json-17-1"
               eq_refl eq_refl).
  discriminate.
Defined.

End MessageFacts.

(* ================================================================= *)
(** ** The simulated compilers and the C editor *)

Module CompilerFacts.
Import JsStringFacts Retry Service Compilers.

Lemma execution_catch_error (last_resort : string) (error : JsError) :
  exists msg,
    execution_catch last_resort (ThrownError error)
    = Fulfilled {| response_text := None; errorMessage := Some msg;
                   imageUrl := None; sources := None |}
    /\ In msg [quota_message; invalid_key_message; last_resort].
Proof.
  unfold execution_catch. cbn [errorMessageLower].
  destruct (_ || _ || _).
  - exists quota_message. split; [reflexivity | now left].
  - destruct (includes _ "requested entity was not found.").
    + exists invalid_key_message. split; [reflexivity | right; now left].
    + exists last_resort. split; [reflexivity | right; right; now left].
Qed.

(** X22.  The simulated compilers never reject a call: simulateCobolExecution
    and simulateCExecution pass the text of the reply on without an error
    message, and answer a call that failed after its retries with an error
    message and no text; the message is the quota notice, the notice of an
    invalid key, or the apology of the function. *)
Theorem compilers_never_reject :
  forall (generateContent
            : CompilerPrompt -> nat -> Outcome GenerateContentResponse)
         (cobolCode code : string) (language : Language),
    let answered (prompt : CompilerPrompt) (last_resort : string)
                 (answer : Settled AIChatResponse) :=
      (forall response,
          fst (retryOperation (generateContent prompt) None None)
          = Fulfilled response ->
          answer = Fulfilled {| response_text := text response;
                                errorMessage := None; imageUrl := None;
                                sources := None |})
      /\ (forall thrown,
             fst (retryOperation (generateContent prompt) None None)
             = Raised thrown ->
             exists msg,
               answer = Fulfilled {| response_text := None;
                                     errorMessage := Some msg;
                                     imageUrl := None; sources := None |}
               /\ In msg [quota_message; invalid_key_message; last_resort]) in
    answered (CobolPrompt cobolCode) cobol_failure_message
             (fst (simulateCobolExecution generateContent cobolCode))
    /\ answered (CPrompt language code) c_failure_message
                (fst (simulateCExecution generateContent code language)).
Proof.
  intros generateContent cobolCode code language answered. subst answered.
  cbv beta.
  assert (Hcobol := ServiceFacts.default_retry_raises_error
                      (generateContent (CobolPrompt cobolCode))).
  assert (Hc := ServiceFacts.default_retry_raises_error
                  (generateContent (CPrompt language code))).
  unfold simulateCobolExecution, simulateCExecution.
  destruct (retryOperation (generateContent (CobolPrompt cobolCode)) None None)
    as [cobol_settled cobol_events].
  destruct (retryOperation (generateContent (CPrompt language code)) None None)
    as [c_settled c_events].
  cbn [fst] in *.
  repeat split.
  - now intros response ->.
  - intros [|error] ->; [congruence | apply execution_catch_error].
  - now intros response ->.
  - intros [|error] ->; [congruence | apply execution_catch_error].
Qed.

Lemma compilers_never_reject_witness :
  exists msg,
    fst (simulateCobolExecution (fun _ _ => Rejected Sample.rate_limited)
                                "DISPLAY 'OI'.")
    = Fulfilled {| response_text := None; errorMessage := Some msg;
                   imageUrl := None; sources := None |}
    /\ In msg [quota_message; invalid_key_message; cobol_failure_message].
Proof.
  apply (proj2 (proj1 (compilers_never_reject
                         (fun _ _ => Rejected Sample.rate_limited)
                         "DISPLAY 'OI'." "" LangC))
               (ThrownError Sample.rate_limited)).
  vm_compute. reflexivity.
Defined.

Import CRenderer.

Lemma heading_not_empty (msg : string) : error_heading ++ msg <> "".
Proof. discriminate. Qed.

(** X23.  A press of the button of the C editor always ends with the
    button enabled, the code untouched and something to read: the text of
    the reply, the notice that there was no output when the reply has no
    text, or, under the heading of an error, the message the service
    function made of the failure.  The placeholder of the empty output is
    never shown again. *)
Theorem c_run_always_shows_something :
  forall (generateContent
            : CompilerPrompt -> nat -> Outcome GenerateContentResponse)
         (language : Language) (st : State),
    let call :=
      fst (retryOperation
             (generateContent (CPrompt language (editableCode st)))
             None None) in
    let st' := compile_and_run generateContent language st in
    isExecuting st' = false
    /\ editableCode st' = editableCode st
    /\ output st' <> ""
    /\ (forall response,
           call = Fulfilled response ->
           output st' = or_else (text response) no_output_text)
    /\ (forall thrown,
           call = Raised thrown ->
           exists msg,
             output st' = error_heading ++ msg
             /\ In msg [quota_message; invalid_key_message;
                        c_failure_message]).
Proof.
  intros generateContent language st call st'. subst call st'.
  unfold compile_and_run, simulateCExecution.
  assert (Hc := ServiceFacts.default_retry_raises_error
                  (generateContent (CPrompt language (editableCode st)))).
  destruct (retryOperation _ None None) as [settled events].
  cbn [fst] in *.
  destruct settled as [response|[|error]]; [| congruence |].
  - cbn [runSimulation errorMessage response_text isExecuting editableCode
         output].
    repeat split.
    + unfold or_else. destruct (text response) as [[|x reply]|];
        discriminate.
    + now intros r [= <-].
    + discriminate.
  - destruct (execution_catch_error c_failure_message error)
      as [msg [-> Hmsg]].
    assert (Hne : exists x rest, msg = String x rest).
    { destruct Hmsg as [<-|[<-|[<-|[]]]]; eexists; eexists; reflexivity. }
    destruct Hne as [x [rest ->]].
    cbn [runSimulation errorMessage isExecuting editableCode output].
    repeat split.
    + discriminate.
    + discriminate.
    + intros thrown _. now exists (String x rest).
Qed.

Lemma c_run_always_shows_something_witness :
  output (compile_and_run (fun _ _ => Resolved {| text := None |})
                          LangCpp (mount "int main() {}"))
  = or_else None no_output_text.
Proof.
  apply (proj1 (proj2 (proj2 (proj2
           (c_run_always_shows_something
              (fun _ _ => Resolved {| text := None |})
              LangCpp (mount "int main() {}")))))
           {| text := None |}).
  vm_compute. reflexivity.
Defined.

End CompilerFacts.

(* ================================================================= *)
(** ** The simulated server *)

Module FrameworkFacts.
Import JsStringFacts Retry Service FrameworkRenderer.

Section Renderer.

Variable ToString : Json.value -> string.
Variable JSON_parse : string -> JsError + Json.value.

Lemma call_steady (framework : string) (s : Session) :
  steady s -> steady (call framework s).
Proof.
  intros [_ [Hpage Hlog]]. unfold call, handleRequest.
  split; [|split].
  - intros _. cbn [pending]. now destruct (pending s).
  - exact Hpage.
  - exact Hlog.
Qed.

(** An answer is always a result, with a truthy page and a truthy log. *)
Lemma settles_with_a_result (s : Session) (k : nat)
    (service : Prompt -> nat -> Outcome GenerateContentResponse)
    (request : Request) (framework : string) :
  nth_error (pending s) k = Some request ->
  exists result,
    fst (simulateFrameworkExecution service JSON_parse
           (code_sent request) (framework_sent request)
           (route_sent request)) = Fulfilled result
    /\ truthy (Service.output result) = true
    /\ truthy (logs result) = true
    /\ step ToString JSON_parse framework s (Settles k service)
       = {| component :=
              {| activeTab := activeTab (component s);
                 currentPath := currentPath (component s);
                 editableCode := editableCode (component s);
                 serverOutput := serverOutput (component s) ++ nl
                                 ++ ToString (logs result);
                 renderedHtml := Service.output result;
                 isLoading := false |};
            pending := (firstn k (pending s)
                        ++ skipn (S k) (pending s))%list |}.
Proof.
  intros Hk.
  destruct (FailureFacts.framework_result_truthy
              service JSON_parse (code_sent request)
              (framework_sent request) (route_sent request))
    as [result [Hresult [Hpage Hlog]]].
  exists result. split; [exact Hresult|].
  split; [exact Hpage|]. split; [exact Hlog|].
  cbn [step]. rewrite Hk, Hresult. reflexivity.
Qed.

Lemma step_steady (framework : string) (s : Session) (a : Action) :
  steady s -> steady (step ToString JSON_parse framework s a).
Proof.
  intros Hs. destruct a as [| |path|code|tab|k service]; cbn [step].
  - destruct (isLoading (component s)); [exact Hs | now apply call_steady].
  - now apply call_steady.
  - exact Hs.
  - destruct (is_code_tab _); exact Hs.
  - exact Hs.
  - destruct (nth_error (pending s) k) as [request|] eqn:Hk; [|exact Hs].
    destruct (settles_with_a_result s k service request framework Hk)
      as [result [Hresult [Hpage [_ _]]]].
    rewrite Hresult. destruct Hs as [_ [_ [more Hlog]]].
    split; [|split].
    + discriminate.
    + exact Hpage.
    + exists (more ++ nl ++ ToString (logs result)).
      cbn [handleRequest_resume component serverOutput]. rewrite Hlog.
      now rewrite !append_assoc.
Qed.

Lemma run_steady (framework : string) (actions : list Action) :
  forall s, steady s -> steady (run ToString JSON_parse framework s actions).
Proof.
  unfold run. induction actions as [|a actions IH]; intros s Hs; simpl;
    [exact Hs|].
  apply IH. now apply step_steady.
Qed.

Lemma mount_steady (framework code : string) :
  steady (mount framework code).
Proof.
  apply call_steady. split; [discriminate|].
  split; [reflexivity|]. exists "". cbn [component first_render serverOutput].
  now rewrite !append_nil_r.
Qed.

End Renderer.

(** X24.  Take the component from its mount, whose effect sends the first
    request, through any events: the Go button, which is ignored while
    loading; Enter in the address bar, which sends a request also while
    one is under way; edits of the address and of the code; changes of
    tab; and answers arriving for the suspended requests, in any order.
    Although the handler catches nothing, every suspended request that is
    answered gets a result: the page becomes the truthy output that the
    service function returned for the code and the route of that request,
    the log grows by a line feed and the text of the truthy logs, loading
    is over, and the tab, the address and the code stay as they are.  At
    every moment the page is a truthy value and the log starts with its
    two first lines, and once no request is suspended the component is
    not loading. *)
Theorem framework_request_always_ends :
  forall (ToString : Json.value -> string)
         (JSON_parse : string -> JsError + Json.value)
         (framework code : string) (actions : list Action),
    let s := run ToString JSON_parse framework (mount framework code)
                 actions in
    (pending s = [] -> isLoading (component s) = false)
    /\ truthy (renderedHtml (component s)) = true
    /\ (exists more,
           serverOutput (component s)
           = "Server started..." ++ nl ++ "Waiting for requests..." ++ more)
    /\ forall k request service,
         nth_error (pending s) k = Some request ->
         exists result,
           fst (simulateFrameworkExecution service JSON_parse
                  (code_sent request) (framework_sent request)
                  (route_sent request)) = Fulfilled result
           /\ truthy (Service.output result) = true
           /\ truthy (logs result) = true
           /\ step ToString JSON_parse framework s (Settles k service)
              = {| component :=
                     {| activeTab := activeTab (component s);
                        currentPath := currentPath (component s);
                        editableCode := editableCode (component s);
                        serverOutput := serverOutput (component s) ++ nl
                                        ++ ToString (logs result);
                        renderedHtml := Service.output result;
                        isLoading := false |};
                   pending := (firstn k (pending s)
                               ++ skipn (S k) (pending s))%list |}.
Proof.
  intros ToString JSON_parse framework code actions s.
  destruct (run_steady ToString JSON_parse framework actions
              (mount framework code) (mount_steady framework code))
    as [Hloading [Hpage Hlog]].
  fold s in Hloading, Hpage, Hlog.
  split; [|split; [exact Hpage | split; [exact Hlog|]]].
  - intros Hnone. destruct (isLoading (component s)); [|reflexivity].
    now contradiction (Hloading eq_refl).
  - intros k request service Hk.
    exact (settles_with_a_result ToString JSON_parse s k service request
                                 framework Hk).
Qed.

End FrameworkFacts.

(* ================================================================= *)
(** ** The chat and its gateway together *)

Module ChatGatewayFacts.
Import JsStringFacts Retry Service Gateway ChatGateway.

Lemma image_catch_fulfils (w : World) (a b c : string) (error : JsError) :
  exists msg,
    fst (image_catch w a b c (ThrownError error)) = Fulfilled (failure msg).
Proof.
  unfold image_catch.
  destruct (is_quota _); [now eexists|].
  destruct (is_invalid_key _); [now eexists|].
  destruct (is_blocked _); [now eexists|].
  destruct (is_billing _); now eexists.
Qed.

Lemma gateway_fulfils (w : World) (g : Globals) (message : string) :
  exists answer,
    fst (fst (sendMessageToGemini w g message)) = Fulfilled answer
    /\ image_answer message answer
                    (snd (fst (sendMessageToGemini w g message))).
Proof.
  unfold sendMessageToGemini, image_answer.
  destruct (strip_prefix "/imagem " message) as [rest|].
  - destruct (String.eqb (trim rest) ""); [now eexists|].
    destruct (key_check w select_key_to_generate) as [[given_up|] effects] eqn:Ek.
    + unfold key_check in Ek.
      destruct (aistudio w); [destruct (hasSelectedApiKey w)|];
        inversion Ek; subst. now eexists.
    + assert (Hr := ServiceFacts.default_retry_raises_error
                      (generateImages w (trim rest))).
      destruct (retryOperation (generateImages w (trim rest)) None None)
        as [settled events].
      cbn [fst] in Hr.
      destruct settled as [imageResponse|[|error]]; [| congruence |].
      * destruct (imageBytes imageResponse) as [[|b bytes]|];
          try (now eexists);
          eexists; (split; [reflexivity|]); cbn [imageUrl fst snd];
          repeat split; discriminate.
      * destruct (image_catch_fulfils w "imagem"
                    ("gera" ++ ch 231 ++ ch 227 ++ "o") "gerar" error)
          as [msg Hmsg].
        destruct (image_catch _ _ _ _ _) as [answer more].
        cbn [fst] in Hmsg. subst answer. now eexists.
  - destruct (lastGeneratedImageUrl g) as [[|c last]|] eqn:Elast.
    + assert (Hr := ServiceFacts.default_retry_raises_error (chatSend w message)).
      destruct (retryOperation (chatSend w message) None None)
        as [settled events].
      cbn [fst] in Hr.
      destruct settled as [response|[|error]]; [| congruence |];
        [now eexists|].
      destruct (is_quota _); [now eexists|].
      destruct (is_invalid_key _); now eexists.
    + destruct (dataUriToBase64 (String c last)) as [imagePart|];
        [|now eexists].
      destruct (key_check w select_key_to_edit) as [[given_up|] effects] eqn:Ek.
      * unfold key_check in Ek.
        destruct (aistudio w); [destruct (hasSelectedApiKey w)|];
          inversion Ek; subst. now eexists.
      * assert (Hr := ServiceFacts.default_retry_raises_error
                        (editImage w imagePart message)).
        destruct (retryOperation (editImage w imagePart message) None None)
          as [settled events].
        cbn [fst] in Hr.
        destruct settled as [response|[|error]]; [| congruence |].
        -- destruct (find _ (parts response)) as [[inline|]|];
             try (now eexists);
             eexists; (split; [reflexivity|]); cbn [imageUrl fst snd];
             repeat split; discriminate.
        -- destruct (image_catch_fulfils w
                       ("edi" ++ ch 231 ++ ch 227 ++ "o de imagem")
                       ("edi" ++ ch 231 ++ ch 227 ++ "o") "editar" error)
             as [msg Hmsg].
           destruct (image_catch _ _ _ _ _) as [answer more].
           cbn [fst] in Hmsg. subst answer. now eexists.
    + assert (Hr := ServiceFacts.default_retry_raises_error (chatSend w message)).
      destruct (retryOperation (chatSend w message) None None)
        as [settled events].
      cbn [fst] in Hr.
      destruct settled as [response|[|error]]; [| congruence |];
        [now eexists|].
      destruct (is_quota _); [now eexists|].
      destruct (is_invalid_key _); now eexists.
Qed.

(** The caption of the gateway for an edited image is neither of the
    captions the hook would fall back to. *)
Lemma edited_caption_is_no_fallback (inputText : string) :
  "Aqui est" ++ ch 225 ++ " a sua imagem editada!"
  <> Chat.image_caption inputText.
Proof.
  unfold Chat.image_caption.
  destruct (strip_prefix "/imagem" inputText); intros H;
    cbn [append ch] in H; discriminate H.
Qed.

Local Ltac no_image :=
  eexists; cbv beta zeta; cbn [Chat.messages Chat.isLoading];
  rewrite <- app_assoc; (split; [reflexivity|]);
  repeat split; discriminate.

(** X25.  The chat and its gateway together, with a client that can be
    constructed and a host page that answers.  The gateway fulfils every
    call, so that the hook resumes in its [try] block and its [catch]
    block, with the apology for an unexpected error, does not run.  The
    chat gets the message of the user and one answer, and stops loading.
    When the answer shows an image, it is the image of the gateway's
    answer and the one the gateway keeps for the next edit, and its
    caption is the text of the gateway's answer: for a request that
    starts with [/imagem ] the sentence with the trimmed prompt in
    quotes, and otherwise the sentence of an edited image, which is
    neither of the captions the hook would fall back to. *)
Theorem chat_shows_the_image_the_gateway_keeps :
  forall (asked answered : Z) (w : World) (g : Globals) (st : Chat.State)
         (inputText : string),
    whitespace_only inputText = false ->
    Chat.isLoading st = false ->
    let st' := fst (exchange asked answered w g st inputText) in
    let g' := snd (exchange asked answered w g st inputText) in
    let userMessage :=
      {| Chat.id := Chat.IdOfTime asked; Chat.text := inputText;
         Chat.sender := Chat.USER; Chat.imageUrl := None;
         Chat.sources := None |} in
    exists answer reply,
      fst (fst (sendMessageToGemini w g inputText)) = Fulfilled answer
      /\ st'
         = Chat.sendMessage_resume answered
             {| Chat.messages := (Chat.messages st ++ [userMessage])%list;
                Chat.isLoading := true |}
             inputText (Fulfilled answer)
      /\ Chat.messages st'
         = (Chat.messages st ++ [userMessage; reply])%list
      /\ Chat.isLoading st' = false
      /\ Chat.sender reply = Chat.AI
      /\ forall url,
           Chat.imageUrl reply = Some url ->
           imageUrl answer = Some url
           /\ lastGeneratedImageUrl g' = Some url
           /\ response_text answer = Some (Chat.text reply)
           /\ Chat.text reply
              = match strip_prefix "/imagem " inputText with
                | Some rest =>
                    "Aqui est" ++ ch 225 ++ " a imagem que criei para voc"
                    ++ ch 234 ++ " com o prompt: "
                    ++ ch 34 ++ trim rest ++ ch 34
                | None => "Aqui est" ++ ch 225 ++ " a sua imagem editada!"
                end
           /\ (strip_prefix "/imagem " inputText = None ->
               Chat.text reply <> Chat.image_caption inputText).
Proof.
  intros asked answered w g st inputText Hblank Hidle st' g' userMessage.
  subst st' g' userMessage. unfold exchange, Chat.sendMessage.
  rewrite TrimFacts.trim_empty, Hblank, Hidle. cbn [orb].
  destruct (gateway_fulfils w g inputText) as [answer [Hanswer Himage]].
  destruct (sendMessageToGemini w g inputText) as [[settled g'] effects].
  cbn [fst snd] in *. subst settled.
  exists answer. unfold Chat.sendMessage_resume.
  unfold image_answer in Himage.
  destruct (errorMessage answer) as [[|c msg]|] eqn:Eerr;
    [| no_image |];
    (destruct (imageUrl answer) as [[|u url]|] eqn:Eurl;
     [ no_image
     | destruct Himage as [_ [Herr [Hkept Hcaption]]]
     | no_image ]).
  - discriminate.
  - eexists. cbv beta zeta. cbn [Chat.messages Chat.isLoading].
    rewrite <- app_assoc. do 5 (split; [reflexivity|]).
    cbn [Chat.imageUrl Chat.text]. intros x [= <-].
    split; [reflexivity|]. split; [exact Hkept|].
    rewrite Hcaption.
    assert (Hown :
              or_else
                (Some match strip_prefix "/imagem " inputText with
                      | Some rest => generated_caption (trim rest)
                      | None => edited_caption
                      end)
                (Chat.image_caption inputText)
              = match strip_prefix "/imagem " inputText with
                | Some rest => generated_caption (trim rest)
                | None => edited_caption
                end).
    { destruct (strip_prefix "/imagem " inputText); reflexivity. }
    rewrite Hown. split; [reflexivity|]. split.
    + destruct (strip_prefix "/imagem " inputText); reflexivity.
    + intros Hedit. rewrite Hedit. apply edited_caption_is_no_fallback.
Qed.

Lemma chat_shows_the_image_the_gateway_keeps_witness :
  exists answer reply,
    fst (fst (sendMessageToGemini Sample3.studio_less fresh "/imagem gato"))
    = Fulfilled answer
    /\ fst (exchange 1700000000000 1700000000500 Sample3.studio_less fresh
                     Chat.initial "/imagem gato")
       = Chat.sendMessage_resume 1700000000500
           {| Chat.messages :=
                (Chat.messages Chat.initial
                 ++ [{| Chat.id := Chat.IdOfTime 1700000000000;
                        Chat.text := "/imagem gato";
                        Chat.sender := Chat.USER; Chat.imageUrl := None;
                        Chat.sources := None |}])%list;
              Chat.isLoading := true |}
           "/imagem gato" (Fulfilled answer)
    /\ Chat.messages
         (fst (exchange 1700000000000 1700000000500 Sample3.studio_less fresh
                        Chat.initial "/imagem gato"))
       = (Chat.messages Chat.initial
          ++ [{| Chat.id := Chat.IdOfTime 1700000000000;
                 Chat.text := "/imagem gato";
                 Chat.sender := Chat.USER; Chat.imageUrl := None;
                 Chat.sources := None |};
              reply])%list
    /\ Chat.isLoading
         (fst (exchange 1700000000000 1700000000500 Sample3.studio_less fresh
                        Chat.initial "/imagem gato")) = false
    /\ Chat.sender reply = Chat.AI
    /\ forall url,
         Chat.imageUrl reply = Some url ->
         imageUrl answer = Some url
         /\ lastGeneratedImageUrl
              (snd (exchange 1700000000000 1700000000500 Sample3.studio_less
                             fresh Chat.initial "/imagem gato")) = Some url
         /\ response_text answer = Some (Chat.text reply)
         /\ Chat.text reply
            = "Aqui est" ++ ch 225 ++ " a imagem que criei para voc"
              ++ ch 234 ++ " com o prompt: " ++ ch 34 ++ "gato" ++ ch 34
         /\ (strip_prefix "/imagem " "/imagem gato" = None ->
             Chat.text reply <> Chat.image_caption "/imagem gato").
Proof.
  apply (chat_shows_the_image_the_gateway_keeps
           1700000000000 1700000000500 Sample3.studio_less fresh
           Chat.initial "/imagem gato");
    reflexivity.
Defined.

End ChatGatewayFacts.
